(** * Screenshotter: option validation, clip geometry, freeze lifecycle,
      mask coordination and the serialising task queue

    A shallow embedding of [screenshotter.ts].

    Numbers.  [trimClipToSize], whose properties turn on the arithmetic
    itself, is embedded over IEEE 754 doubles ([Double]), with rounding,
    [NaN], the infinities and the sign of zero.  In the rest of the capture,
    where numbers are only compared, added up for a rect and handed on,
    they are modelled as exact rationals [Q], and [trimClipToSize] has a
    second embedding over [Q] for use there (the one place where the
    source asks [Number.isFinite], the end time of an animation effect, has
    its own two-case type).  Values whose run-time type the source inspects
    with [typeof] are kept dynamically typed.

    Effects.  A capture is a computation in a monad that threads the state
    of the page's frames, counts the checkpoints and the calls into the
    page, and records every such call as an event; whether a checkpoint
    finds the operation aborted, whether a call rejects, and in what state
    a rejected evaluation leaves its frame is asked of the environment.
    The fan-out of [Promise.all] over frames or mask pairs is taken in list
    order, and makes the call of every element of the list whether or not
    the call of another is rejected.  The restore script, which the source sends to every frame
    without waiting for it, is kept with the frame as an evaluation on its
    way, and runs when it reaches the frame.  The script realm of a frame
    holds the closures that freeze creates, so that the set of suspended
    animations is one object shared by the listeners and by the cleanup
    handle.  The task queue is a heap of promises with reactions and a
    microtask queue, stepped by posts, microtasks and task settlements in
    any order. *)

From Stdlib Require Import QArith Qminmax Qround ZArith List String Bool Arith Lia Lqa.
From Stdlib Require Import SpecFloat.
Import ListNotations.

Set Implicit Arguments.
Set Warnings "-register-all".

(* ================================================================== *)
(** ** JavaScript values *)
(* ================================================================== *)

Inductive value :=
| VUndefined
| VNull
| VBool (b : bool)
| VNumber (n : Q)
| VString (s : string).

Inductive js_type := TyUndefined | TyObject | TyBoolean | TyNumber | TyString.

(** [typeof v] *)
Definition typeof (v : value) : js_type :=
  match v with
  | VUndefined => TyUndefined
  | VNull => TyObject
  | VBool _ => TyBoolean
  | VNumber _ => TyNumber
  | VString _ => TyString
  end.

(** Truthiness of a number: every number but zero. *)
Definition number_truthy (n : Q) : bool := negb (Qeq_bool n 0).

(** Truthiness, as tested by [if (v)], [!v] and [assert(v)]. *)
Definition truthy (v : value) : bool :=
  match v with
  | VUndefined | VNull => false
  | VBool b => b
  | VNumber n => number_truthy n
  | VString s => negb (String.eqb s EmptyString)
  end.

(** [v === 'text'] *)
Definition is_string (v : value) (text : string) : bool :=
  match v with
  | VString s => String.eqb s text
  | _ => false
  end.

(** [v !== undefined] *)
Definition is_defined (v : value) : bool :=
  match v with
  | VUndefined => false
  | _ => true
  end.

(** [Number.isInteger(n)] on a number. *)
Definition Number_isInteger (n : Q) : bool :=
  Qeq_bool (inject_Z (Qfloor n)) n.

(* ================================================================== *)
(** ** Errors and fallible computations *)
(* ================================================================== *)

(** A message is built in the source by [+] from literal text and values. *)
Inductive part := Lit (s : string) | Val (v : value).
Definition message := list part.

Inductive error :=
| Error (msg : message)        (* thrown by [assert] *)
| Aborted                      (* thrown by [progress.throwIfAborted()] *)
| Failure (what : string).     (* a rejected call into the page *)

Inductive result (A : Type) :=
| Ok (a : A)
| Throw (e : error).
Arguments Ok {A} a.
Arguments Throw {A} e.

Definition bind {A B} (r : result A) (k : A -> result B) : result B :=
  match r with
  | Ok a => k a
  | Throw e => Throw e
  end.

Declare Scope result_scope.
Delimit Scope result_scope with result.
Notation "x <- c ;; k" := (bind c (fun x => k))
  (at level 61, c at next level, right associativity) : result_scope.
Notation "c ;; k" := (bind c (fun _ => k))
  (at level 61, right associativity) : result_scope.

(** Modelled from the spec: [assert] of [utils/utils] is not among the
    sources; a violated assertion is a fatal failure carrying its message,
    [assert(cond, msg)] throws [new Error(msg)] unless [cond] is truthy. *)
Definition assert (cond : bool) (msg : message) : result unit :=
  if cond then Ok tt else Throw (Error msg).

Definition failed {A} (r : result A) : bool :=
  match r with
  | Ok _ => false
  | Throw _ => true
  end.

(* ================================================================== *)
(** ** Geometry value types *)
(* ================================================================== *)

Module Size.
Record t := mk { width : Q; height : Q }.
End Size.

Module Rect.
Record t := mk { x : Q; y : Q; width : Q; height : Q }.

(** Field-wise numeric equality ([===] on every field). *)
Definition eq (a b : t) : Prop :=
  x a == x b /\ y a == y b /\ width a == width b /\ height a == height b.
End Rect.

(** The clip as it arrives in the options: an object whose fields have not
    been type-checked yet. *)
Module Clip.
Record t := mk { x : value; y : value; width : value; height : value }.

(** Reading a field as a number.  Validation has established
    [typeof field === 'number'] before any field is read this way; the
    value chosen for the other cases is never used after validation. *)
Definition number_of (v : value) : Q :=
  match v with
  | VNumber n => n
  | _ => 0
  end.

Definition rect (c : t) : Rect.t :=
  Rect.mk (number_of (x c)) (number_of (y c))
          (number_of (width c)) (number_of (height c)).
End Clip.

(* ================================================================== *)
(** ** trimClipToSize *)
(* ================================================================== *)

Definition Math_max := Qmax.
Definition Math_min := Qmin.

Definition clip_error : message :=
  [Lit "Clipped area is either empty or outside the resulting image"].

(** The object [result] of [trimClipToSize], before it is checked, over
    exact rationals; [Double.trimmed] is the same over doubles. *)
Definition trimmed (clip : Rect.t) (size : Size.t) : Rect.t :=
  let p1x := Math_max 0 (Math_min (Rect.x clip) (Size.width size)) in
  let p1y := Math_max 0 (Math_min (Rect.y clip) (Size.height size)) in
  let p2x := Math_max 0 (Math_min (Rect.x clip + Rect.width clip) (Size.width size)) in
  let p2y := Math_max 0 (Math_min (Rect.y clip + Rect.height clip) (Size.height size)) in
  Rect.mk p1x p1y (p2x - p1x) (p2y - p1y).

Definition trimClipToSize (clip : Rect.t) (size : Size.t) : result Rect.t :=
  let result := trimmed clip size in
  (assert (number_truthy (Rect.width result) && number_truthy (Rect.height result))
          clip_error ;;
   Ok result)%result.

(* ================================================================== *)
(** ** trimClipToSize on doubles *)
(* ================================================================== *)

(** The arithmetic of [trimClipToSize] as JavaScript performs it: numbers
    are IEEE 754 binary64 values, [+] and [-] round to nearest, ties to
    even, and [NaN], the infinities and the two zeros are numbers like any
    other.  [spec_float] is the standard library's specification of such
    values and of the operations on them. *)
Module Double.

(** A double.  [spec_float] also holds pairs of mantissa and exponent
    that are not normalised and stand for no double; what is proved below
    holds of them as well. *)
Definition t := spec_float.

Definition prec : Z := 53.
Definition emax : Z := 1024.

(** [a + b], [a - b], [a / b] *)
Definition add : t -> t -> t := SFadd prec emax.
Definition sub : t -> t -> t := SFsub prec emax.
Definition div : t -> t -> t := SFdiv prec emax.

(** [a < b], [a <= b], [a === b]: all false when an operand is [NaN],
    and blind to the sign of zero. *)
Definition ltb : t -> t -> bool := SFltb.
Definition leb : t -> t -> bool := SFleb.
Definition eqb : t -> t -> bool := SFeqb.

(** The literal [0]. *)
Definition zero : t := S754_zero false.

(** The number an integer literal denotes. *)
Definition of_Z (z : Z) : t := binary_normalize prec emax z 0 false.

(** The number a decimal literal [m]e-[k] denotes, for [m] and the power
    of ten small enough to be doubles themselves: the double nearest to
    the quotient. *)
Definition decimal (m : Z) (k : Z) : t := div (of_Z m) (of_Z (10 ^ k)).

Definition is_nan (n : t) : bool :=
  match n with
  | S754_nan => true
  | _ => false
  end.

Definition is_zero (n : t) : bool :=
  match n with
  | S754_zero _ => true
  | _ => false
  end.

(** Truthiness of a number: every number but [+0], [-0] and [NaN]. *)
Definition number_truthy (n : t) : bool := negb (is_zero n || is_nan n).

(** [Math.max(a, b)]: [NaN] when an operand is [NaN]; [+0] counts as
    larger than [-0]. *)
Definition Math_max (a b : t) : t :=
  match SFcompare a b with
  | None => S754_nan
  | Some Lt => b
  | Some Gt => a
  | Some Eq =>
      match a with
      | S754_zero true => b
      | _ => a
      end
  end.

(** [Math.min(a, b)]: [NaN] when an operand is [NaN]; [-0] counts as
    smaller than [+0]. *)
Definition Math_min (a b : t) : t :=
  match SFcompare a b with
  | None => S754_nan
  | Some Lt => a
  | Some Gt => b
  | Some Eq =>
      match a with
      | S754_zero false => b
      | _ => a
      end
  end.

Module Size.
Record t := mk { width : Double.t; height : Double.t }.
End Size.

Module Rect.
Record t := mk { x : Double.t; y : Double.t; width : Double.t; height : Double.t }.

(** [===] on every field. *)
Definition eq (a b : t) : Prop :=
  eqb (x a) (x b) = true /\ eqb (y a) (y b) = true
  /\ eqb (width a) (width b) = true /\ eqb (height a) (height b) = true.
End Rect.

(** The object [result] of [trimClipToSize], before it is checked. *)
Definition trimmed (clip : Rect.t) (size : Size.t) : Rect.t :=
  let p1x := Math_max zero (Math_min (Rect.x clip) (Size.width size)) in
  let p1y := Math_max zero (Math_min (Rect.y clip) (Size.height size)) in
  let p2x := Math_max zero (Math_min (add (Rect.x clip) (Rect.width clip))
                                     (Size.width size)) in
  let p2y := Math_max zero (Math_min (add (Rect.y clip) (Rect.height clip))
                                     (Size.height size)) in
  Rect.mk p1x p1y (sub p2x p1x) (sub p2y p1y).

(** [result.width && result.height] is the width when that is falsy and
    the height otherwise: it is truthy when both are. *)
Definition trimClipToSize (clip : Rect.t) (size : Size.t) : result Rect.t :=
  let result := trimmed clip size in
  (assert (number_truthy (Rect.width result) && number_truthy (Rect.height result))
          clip_error ;;
   Ok result)%result.

(** The clamp of the specification, written from its words: a coordinate
    below the interval goes to its lower end, one above to its upper end,
    one inside stays. *)
Definition clamp_into (lo hi v : t) : t :=
  if leb v lo then lo else if leb hi v then hi else v.

(** The trimmed rectangle of the specification: both corners clamped, the
    far corner being the sum the function forms, and the extent recomputed
    from the clamped corners. *)
Definition clamped_rect (clip : Rect.t) (bounds : Size.t) : Rect.t :=
  let x1 := clamp_into zero (Size.width bounds) (Rect.x clip) in
  let y1 := clamp_into zero (Size.height bounds) (Rect.y clip) in
  let x2 := clamp_into zero (Size.width bounds) (add (Rect.x clip) (Rect.width clip)) in
  let y2 := clamp_into zero (Size.height bounds) (add (Rect.y clip) (Rect.height clip)) in
  Rect.mk x1 y1 (sub x2 x1) (sub y2 y1).

(** A reading of the specification's failure condition: a clamped width or
    height that is zero or negative makes the call fail, any other clip
    gives the clamped rect. *)
Definition trim_fails_unless_positive (clip : Rect.t) (bounds : Size.t) : Prop :=
  let c := clamped_rect clip bounds in
  (leb (Rect.width c) zero = true \/ leb (Rect.height c) zero = true ->
   failed (trimClipToSize clip bounds) = true)
  /\ (ltb zero (Rect.width c) = true -> ltb zero (Rect.height c) = true ->
      exists r, trimClipToSize clip bounds = Ok r /\ Rect.eq r c).

(** The specification's claim for a clip inside the bounds: it comes back
    unchanged. *)
Definition inside_comes_back_unchanged (clip : Rect.t) (bounds : Size.t) : Prop :=
  leb zero (Rect.x clip) = true -> leb zero (Rect.y clip) = true ->
  leb (add (Rect.x clip) (Rect.width clip)) (Size.width bounds) = true ->
  leb (add (Rect.y clip) (Rect.height clip)) (Size.height bounds) = true ->
  ltb zero (Rect.width clip) = true -> ltb zero (Rect.height clip) = true ->
  exists r, trimClipToSize clip bounds = Ok r /\ Rect.eq r clip.

(** Two numbers that no comparison tells apart: the same value, or two
    zeros. *)
Definition same (a b : t) : Prop :=
  a = b \/ (is_zero a = true /\ is_zero b = true).

End Double.

Declare Scope double_scope.
Delimit Scope double_scope with double.
Notation "0" := Double.zero : double_scope.
Notation "a + b" := (Double.add a b) : double_scope.
Notation "a - b" := (Double.sub a b) : double_scope.
Notation "a < b" := (Double.ltb a b = true) : double_scope.
Notation "a <= b" := (Double.leb a b = true) : double_scope.
Notation "a === b" := (Double.eqb a b = true) (at level 70) : double_scope.

(* ================================================================== *)
(** ** validateScreenshotOptions *)
(* ================================================================== *)

Inductive Format := png | jpeg.

Definition format_name (f : Format) : string :=
  match f with
  | png => "png"
  | jpeg => "jpeg"
  end.

Inductive Animations := animations_disabled | animations_allow.
Inductive SizeMode := size_css | size_device.
Inductive Fonts := fonts_ready | fonts_nowait.
Inductive Caret := caret_hide | caret_initial.

Definition FrameId := nat.
Definition selector := string.

Record ScreenshotOptions := {
  type : value;
  quality : value;
  omitBackground : bool;
  animations : option Animations;
  mask : option (list (FrameId * selector));
  fullPage : bool;
  clip : option Clip.t;
  size : option SizeMode;
  fonts : option Fonts;
  caret : option Caret;
  __testHookBeforeScreenshot : bool;
  __testHookAfterScreenshot : bool
}.

(** [typeof v] in a message. *)
Definition typeof_name (v : value) : string :=
  match typeof v with
  | TyUndefined => "undefined"
  | TyObject => "object"
  | TyBoolean => "boolean"
  | TyNumber => "number"
  | TyString => "string"
  end.

(** [assert(typeof v === 'number', msg + (typeof v))], handing the number
    to the checks that follow. *)
Definition assert_number (v : value) (msg : string) : result Q :=
  match v with
  | VNumber n => Ok n
  | _ => Throw (Error [Lit msg; Lit (typeof_name v)])
  end.

(** [if (options.type) { assert(options.type === 'png' || options.type ===
    'jpeg', ...); format = options.type; }], with [None] for the [null] the
    variable [format] starts with. *)
Definition validate_type (t : value) : result (option Format) :=
  if truthy t then
    (assert (is_string t "png" || is_string t "jpeg")
            [Lit "Unknown options.type value: "; Val t] ;;
     Ok (Some (if is_string t "png" then png else jpeg)))%result
  else Ok None.

(** [if (options.quality !== undefined) { ... }] *)
Definition validate_quality (format : Format) (q : value) : result unit :=
  if is_defined q then
    (assert (match format with jpeg => true | png => false end)
            [Lit "options.quality is unsupported for the ";
             Lit (format_name format); Lit " screenshots"] ;;
     n <- assert_number q "Expected options.quality to be a number but found " ;;
     assert (Number_isInteger n) [Lit "Expected options.quality to be an integer"] ;;
     assert (Qle_bool 0 n && Qle_bool n 100)
            [Lit "Expected options.quality to be between 0 and 100 (inclusive), got ";
             Val q])%result
  else Ok tt.

(** [if (options.clip) { ... }] *)
Definition validate_clip (c : option Clip.t) : result unit :=
  match c with
  | Some c =>
      (_ <- assert_number (Clip.x c) "Expected options.clip.x to be a number but found " ;;
       _ <- assert_number (Clip.y c) "Expected options.clip.y to be a number but found " ;;
       w <- assert_number (Clip.width c) "Expected options.clip.width to be a number but found " ;;
       h <- assert_number (Clip.height c) "Expected options.clip.height to be a number but found " ;;
       assert (negb (Qeq_bool w 0)) [Lit "Expected options.clip.width not to be 0."] ;;
       assert (negb (Qeq_bool h 0)) [Lit "Expected options.clip.height not to be 0."])%result
  | None => Ok tt
  end.

Definition validateScreenshotOptions (options : ScreenshotOptions) : result Format :=
  (format <- validate_type (type options) ;;
   let format := match format with Some f => f | None => png end in
   validate_quality format (quality options) ;;
   validate_clip (clip options) ;;
   Ok format)%result.

(** *** The conditions under which the specification has validation fail *)

(** [typeof v === 'number'] and [v === 0] *)
Definition is_number (v : value) : bool :=
  match typeof v with
  | TyNumber => true
  | _ => false
  end.

Definition is_zero (v : value) : bool :=
  match v with
  | VNumber n => Qeq_bool n 0
  | _ => false
  end.

(** The type is present and is neither png nor jpeg. *)
Definition bad_type (o : ScreenshotOptions) : bool :=
  truthy (type o) && negb (is_string (type o) "png") && negb (is_string (type o) "jpeg").

(** The quality is set while the format is not jpeg, or it is not a number,
    not an integer, or outside [[0,100]]. *)
Definition bad_quality (o : ScreenshotOptions) : bool :=
  is_defined (quality o)
  && (negb (is_string (type o) "jpeg")
      || match quality o with
         | VNumber n => negb (Number_isInteger n) || negb (Qle_bool 0 n) || negb (Qle_bool n 100)
         | _ => true
         end).

(** The clip is present and one of its fields is not a number, or its
    width or height equals 0. *)
Definition bad_clip (o : ScreenshotOptions) : bool :=
  match clip o with
  | None => false
  | Some c =>
      negb (is_number (Clip.x c)) || negb (is_number (Clip.y c))
      || negb (is_number (Clip.width c)) || negb (is_number (Clip.height c))
      || is_zero (Clip.width c) || is_zero (Clip.height c)
  end.

Definition invalid_options (o : ScreenshotOptions) : bool :=
  bad_type o || bad_quality o || bad_clip o.

Close Scope Q_scope.

(* ================================================================== *)
(** ** The script realm of one frame: freeze and its cleanup handle *)
(* ================================================================== *)

Definition AnimId := nat.
Definition RootId := nat.
Definition NodeId := nat.

(** [effect.getComputedTiming().endTime]: a finite time, or [Infinity] for
    an effect that repeats forever. *)
Inductive EndTime := EndAt (ms : Q) | EndInfinity.

Definition Number_isFinite (t : EndTime) : bool :=
  match t with
  | EndAt _ => true
  | EndInfinity => false
  end.

Record Effect := { endTime : EndTime }.

(** An [Animation] object as [root.getAnimations()] hands it out: its
    identity, the properties the handler reads, and whether each of its
    methods would throw when called. *)
Record Animation := {
  anim_id : AnimId;
  effect : option Effect;
  playbackRate : Q;
  finish_throws : bool;
  cancel_throws : bool;
  play_throws : bool
}.

Inductive AnimMethod := finish | cancel | play.

(** One method call on an animation, with whether it threw. *)
Record AnimCall := { method : AnimMethod; target : AnimId; threw : bool }.

(** A [Set<Animation>]: insertion-ordered, membership by object identity. *)
Definition AnimSet := list Animation.

Definition set_has (s : AnimSet) (a : Animation) : bool :=
  existsb (fun b => Nat.eqb (anim_id b) (anim_id a)) s.

Definition set_add (s : AnimSet) (a : Animation) : AnimSet :=
  if set_has s a then s else s ++ [a].

(** A shadow root is attached open or closed. *)
Inductive ShadowMode := mode_open | mode_closed.

(** The document and its nested shadow trees: a root and the shadow roots
    hosted by its elements, in document order, each with the mode it was
    attached in. *)
Inductive ShadowTree := Root (id : RootId) (hosted : list (ShadowMode * ShadowTree)).

(** [node.shadowRoot] of the element that hosts a shadow tree: the shadow
    root when it is open, [null] when it is closed. *)
Definition shadowRoot (host : ShadowMode * ShadowTree) : option ShadowTree :=
  match host with
  | (mode_open, tree) => Some tree
  | (mode_closed, _) => None
  end.

(** The walk over the elements of [root] meets the hosts of its shadow
    trees in document order; [if (shadowRoot)] lets the open ones
    through. *)
Fixpoint collectRoots (root : ShadowTree) (roots : list RootId) : list RootId :=
  match root with
  | Root id hosted =>
      fold_left (fun roots node =>
                   match node with
                   | (mode_open, shadowRoot) => collectRoots shadowRoot roots
                   | (mode_closed, _) => roots
                   end)
                hosted (roots ++ [id])
  end.

(** The body of [handleAnimations]: one pass over [root.getAnimations()],
    threading the set of suspended infinite animations and the calls made. *)
Fixpoint handleAnimations (animations : list Animation)
         (infiniteAnimationsToResume : AnimSet) (calls : list AnimCall)
  : AnimSet * list AnimCall :=
  match animations with
  | [] => (infiniteAnimationsToResume, calls)
  | animation :: rest =>
      match effect animation with
      | None => handleAnimations rest infiniteAnimationsToResume calls
      | Some eff =>
          if Qeq_bool (playbackRate animation) 0
             || set_has infiniteAnimationsToResume animation
          then handleAnimations rest infiniteAnimationsToResume calls
          else if Number_isFinite (endTime eff) then
            handleAnimations rest infiniteAnimationsToResume
              (calls ++ [{| method := finish; target := anim_id animation;
                            threw := finish_throws animation |}])
          else if cancel_throws animation then
            handleAnimations rest infiniteAnimationsToResume
              (calls ++ [{| method := cancel; target := anim_id animation;
                            threw := true |}])
          else
            handleAnimations rest (set_add infiniteAnimationsToResume animation)
              (calls ++ [{| method := cancel; target := anim_id animation;
                            threw := false |}])
      end
  end.

Inductive EventName := transitionrun | animationstart.

(** A registered listener [handleRootAnimations]: the handler bound to
    [root] by the freeze installation [owner]. *)
Record Listener := { l_root : RootId; l_event : EventName; owner : nat }.

Definition EventName_eqb (a b : EventName) : bool :=
  match a, b with
  | transitionrun, transitionrun | animationstart, animationstart => true
  | _, _ => false
  end.

Definition listener_eqb (a b : Listener) : bool :=
  Nat.eqb (l_root a) (l_root b)
  && EventName_eqb (l_event a) (l_event b)
  && Nat.eqb (owner a) (owner b).

(** What one run of the injected freeze function closes over. *)
Record Installation := {
  styleTag : NodeId;
  infiniteAnimationsToResume : AnimSet;
  cleanupCallbacks : list RootId
}.

Record Realm := {
  document : ShadowTree;
  nextNode : NodeId;
  styles : list NodeId;               (* style elements attached to the root element *)
  listeners : list Listener;
  installations : list Installation;  (* the closures created so far *)
  __cleanupScreenshot : option nat;   (* window.__cleanupScreenshot *)
  animationCalls : list AnimCall
}.

(** Writing the [k]-th cell of a store. *)
Definition replace {A} (k : nat) (a : A) (l : list A) : list A :=
  firstn k l ++ a :: skipn (S k) l.

Definition set_installation (k : nat) (i : Installation) (l : list Installation)
  : list Installation :=
  replace k i l.

(** [root.addEventListener(name, handler)]: no effect when the same
    handler is already registered for the event. *)
Definition addEventListener (l : Listener) (ls : list Listener) : list Listener :=
  if existsb (listener_eqb l) ls then ls else ls ++ [l].

Definition removeEventListener (l : Listener) (ls : list Listener) : list Listener :=
  filter (fun l' => negb (listener_eqb l l')) ls.

(** The loop [for (const root of collectRoots(document))] of the freeze
    function, for the installation [k]. *)
Fixpoint freeze_roots (k : nat) (getAnimations : RootId -> list Animation)
         (roots : list RootId) (resume : AnimSet) (calls : list AnimCall)
         (ls : list Listener) (callbacks : list RootId)
  : AnimSet * list AnimCall * list Listener * list RootId :=
  match roots with
  | [] => (resume, calls, ls, callbacks)
  | root :: rest =>
      let '(resume, calls) := handleAnimations (getAnimations root) resume calls in
      let ls := addEventListener {| l_root := root; l_event := transitionrun; owner := k |} ls in
      let ls := addEventListener {| l_root := root; l_event := animationstart; owner := k |} ls in
      freeze_roots k getAnimations rest resume calls ls (callbacks ++ [root])
  end.

(** The function injected by [_preparePageForScreenshot] into one frame. *)
Definition freeze (hideCaret disableAnimations waitForFonts : bool)
           (getAnimations : RootId -> list Animation) (w : Realm) : Realm :=
  let styleTag := nextNode w in
  let styles := if hideCaret then styles w ++ [styleTag] else styles w in
  let k := List.length (installations w) in
  let '(resume, calls, ls, callbacks) :=
    if disableAnimations then
      freeze_roots k getAnimations (collectRoots (document w) [])
                   [] (animationCalls w) (listeners w) []
    else ([], animationCalls w, listeners w, []) in
  {| document := document w;
     nextNode := S (nextNode w);
     styles := styles;
     listeners := ls;
     installations := installations w ++
       [{| styleTag := styleTag; infiniteAnimationsToResume := resume;
           cleanupCallbacks := callbacks |}];
     __cleanupScreenshot := Some k;
     animationCalls := calls |}.

(** A [transitionrun] or [animationstart] event reaching [root]: every
    handler registered there for the event runs [handleAnimations] on what
    [root.getAnimations()] returns now, with its own installation's set. *)
Fixpoint dispatch_to (handlers : list Listener) (animations : list Animation)
         (w : Realm) : Realm :=
  match handlers with
  | [] => w
  | l :: rest =>
      match nth_error (installations w) (owner l) with
      | None => dispatch_to rest animations w
      | Some inst =>
          let '(resume, calls) :=
            handleAnimations animations (infiniteAnimationsToResume inst)
                             (animationCalls w) in
          dispatch_to rest animations
            {| document := document w;
               nextNode := nextNode w;
               styles := styles w;
               listeners := listeners w;
               installations :=
                 set_installation (owner l)
                   {| styleTag := styleTag inst;
                      infiniteAnimationsToResume := resume;
                      cleanupCallbacks := cleanupCallbacks inst |}
                   (installations w);
               __cleanupScreenshot := __cleanupScreenshot w;
               animationCalls := calls |}
      end
  end.

Definition dispatchEvent (root : RootId) (name : EventName)
           (animations : list Animation) (w : Realm) : Realm :=
  dispatch_to
    (filter (fun l => Nat.eqb (l_root l) root && EventName_eqb (l_event l) name)
            (listeners w))
    animations w.

(** [for (const cleanupCallback of cleanupCallbacks) cleanupCallback()]:
    the callback of a root removes the two listeners installation [k]
    registered on it. *)
Definition detach (k : nat) (cleanupCallbacks : list RootId) (ls : list Listener)
  : list Listener :=
  fold_left
    (fun ls root =>
       removeEventListener {| l_root := root; l_event := animationstart; owner := k |}
         (removeEventListener {| l_root := root; l_event := transitionrun; owner := k |} ls))
    cleanupCallbacks ls.

(** [styleTag.remove()] *)
Definition remove_node (n : NodeId) (nodes : list NodeId) : list NodeId :=
  filter (fun n' => negb (Nat.eqb n' n)) nodes.

(** The closure stored in [window.__cleanupScreenshot] by installation [k]. *)
Definition cleanup (k : nat) (w : Realm) : Realm :=
  match nth_error (installations w) k with
  | None => w
  | Some inst =>
      {| document := document w;
         nextNode := nextNode w;
         styles := remove_node (styleTag inst) (styles w);
         listeners := detach k (cleanupCallbacks inst) (listeners w);
         installations := installations w;
         __cleanupScreenshot := None;
         animationCalls :=
           animationCalls w ++
           map (fun a => {| method := play; target := anim_id a; threw := play_throws a |})
               (infiniteAnimationsToResume inst) |}
  end.

(** The script [window.__cleanupScreenshot && window.__cleanupScreenshot()]. *)
Definition restore (w : Realm) : Realm :=
  match __cleanupScreenshot w with
  | None => w
  | Some k => cleanup k w
  end.

(** The events that reach the roots of a frame while it is frozen, each
    with what [root.getAnimations()] returns at that moment. *)
Fixpoint dispatch_all (events : list (RootId * EventName * list Animation))
         (w : Realm) : Realm :=
  match events with
  | [] => w
  | (root, name, animations) :: rest =>
      dispatch_all rest (dispatchEvent root name animations w)
  end.

(** Successive runs of the handler of one installation, one per list. *)
Definition handle_all (lists : list (list Animation))
           (start : AnimSet * list AnimCall) : AnimSet * list AnimCall :=
  fold_left (fun st animations => handleAnimations animations (fst st) (snd st))
            lists start.

(** The set of suspended animations held by installation [k]. *)
Definition suspended (k : nat) (w : Realm) : AnimSet :=
  match nth_error (installations w) k with
  | Some inst => infiniteAnimationsToResume inst
  | None => []
  end.

Definition recorded (a : AnimId) (s : AnimSet) : bool :=
  existsb (fun b => Nat.eqb (anim_id b) a) s.

(** A [cancel()] on animation [a] that went through. *)
Definition is_cancel_of (a : AnimId) (c : AnimCall) : bool :=
  match method c with
  | cancel => Nat.eqb (target c) a && negb (threw c)
  | _ => false
  end.

Definition cancelled_times (a : AnimId) (calls : list AnimCall) : nat :=
  List.length (filter (is_cancel_of a) calls).

(** An animation the handler does not pass over: it has an effect and a
    playback rate other than zero. *)
Definition eligible (a : Animation) : bool :=
  match effect a with
  | Some _ => negb (Qeq_bool (playbackRate a) 0)
  | None => false
  end.

(* ================================================================== *)
(** ** Promises and the task queue *)
(* ================================================================== *)

Definition Buffer := string.

(** What a promise settles with.  A fulfilment value is the bytes of a
    capture or [undefined] ([None]). *)
Inductive settled :=
| Fulfilled (v : option Buffer)
| Rejected (e : error).

Definition pid := nat.

Section Promises.
Variable Task : Type.

(** The callbacks this program hands to [then] and [catch]. *)
Inductive handler :=
| run_task (task : Task)   (* the [task] given to [postTask] *)
| noop                     (* [() => {}] *)
| absent.                  (* no callback for this case *)

Record reaction := {
  onFulfilled : handler;
  onRejected : handler;
  derived : pid            (* the promise [then] returned *)
}.

Inductive pstate :=
| Pending (reactions : list reaction)
| Settled (s : settled).

Record job := { job_reaction : reaction; argument : settled }.

Inductive qevent :=
| Begin (task : Task)
| End (task : Task) (outcome : settled).

Record Runtime := {
  heap : list pstate;             (* promise [p] is the [p]-th entry *)
  jobs : list job;                (* the microtask queue *)
  running : list (Task * pid);    (* tasks begun and not settled, each with
                                     the promise its outcome resolves *)
  _chain : pid;                   (* [TaskQueue._chain] *)
  history : list qevent
}.

Definition update (p : pid) (s : pstate) (h : list pstate) : list pstate :=
  replace p s h.

(** Settling a pending promise schedules its reactions; a promise that is
    already settled stays as it is. *)
Definition settle (p : pid) (s : settled) (q : Runtime) : Runtime :=
  match nth_error (heap q) p with
  | Some (Pending rs) =>
      {| heap := update p (Settled s) (heap q);
         jobs := jobs q ++ map (fun r => {| job_reaction := r; argument := s |}) rs;
         running := running q;
         _chain := _chain q;
         history := history q |}
  | _ => q
  end.

(** [p.then(onFulfilled, onRejected)]: a fresh promise; the reaction is
    queued on [p] while it is pending and scheduled at once when [p] has
    settled. *)
Definition then_ (p : pid) (onF onR : handler) (q : Runtime) : pid * Runtime :=
  let d := List.length (heap q) in
  let r := {| onFulfilled := onF; onRejected := onR; derived := d |} in
  let h := heap q ++ [Pending []] in
  match nth_error (heap q) p with
  | Some (Pending rs) =>
      (d, {| heap := update p (Pending (rs ++ [r])) h;
             jobs := jobs q;
             running := running q;
             _chain := _chain q;
             history := history q |})
  | Some (Settled s) =>
      (d, {| heap := h;
             jobs := jobs q ++ [{| job_reaction := r; argument := s |}];
             running := running q;
             _chain := _chain q;
             history := history q |})
  | None => (d, q)
  end.

(** [p.catch(onRejected)] is [p.then(undefined, onRejected)]. *)
Definition catch_ (p : pid) (onR : handler) (q : Runtime) : pid * Runtime :=
  then_ p absent onR q.

(** [new TaskQueue()]: [this._chain = Promise.resolve()]. *)
Definition TaskQueue_new : Runtime :=
  {| heap := [Settled (Fulfilled None)];
     jobs := [];
     running := [];
     _chain := 0;
     history := [] |}.

Definition postTask (task : Task) (q : Runtime) : pid * Runtime :=
  let '(result, q) := then_ (_chain q) (run_task task) absent q in
  let '(chain, q) := catch_ result noop q in
  (result,
   {| heap := heap q; jobs := jobs q; running := running q;
      _chain := chain; history := history q |}).

(** One microtask: the oldest scheduled reaction runs its callback.  A
    missing callback passes the settlement on to the derived promise;
    [() => {}] fulfils it with [undefined]; a task begins, and the
    derived promise follows the promise the task returned. *)
Definition run_job (q : Runtime) : option Runtime :=
  match jobs q with
  | [] => None
  | j :: rest =>
      let q := {| heap := heap q; jobs := rest; running := running q;
                  _chain := _chain q; history := history q |} in
      let r := job_reaction j in
      let h := match argument j with
               | Fulfilled _ => onFulfilled r
               | Rejected _ => onRejected r
               end in
      Some match h with
           | absent => settle (derived r) (argument j) q
           | noop => settle (derived r) (Fulfilled None) q
           | run_task task =>
               {| heap := heap q; jobs := jobs q;
                  running := running q ++ [(task, derived r)];
                  _chain := _chain q;
                  history := history q ++ [Begin task] |}
           end
  end.

Fixpoint take_running (p : pid) (l : list (Task * pid))
  : option (Task * list (Task * pid)) :=
  match l with
  | [] => None
  | (t, p') :: rest =>
      if Nat.eqb p p' then Some (t, rest)
      else match take_running p rest with
           | Some (t', rest') => Some (t', (t, p') :: rest')
           | None => None
           end
  end.

(** The promise returned by a running task settles with [outcome]. *)
Definition task_settles (p : pid) (outcome : settled) (q : Runtime)
  : option Runtime :=
  match take_running p (running q) with
  | None => None
  | Some (task, rest) =>
      Some (settle p outcome
              {| heap := heap q; jobs := jobs q; running := rest;
                 _chain := _chain q;
                 history := history q ++ [End task outcome] |})
  end.

(** What can happen to a queue: a caller posts a task, the event loop
    runs a microtask, a running task settles. *)
Inductive label :=
| post (task : Task)
| tick
| settles (p : pid) (outcome : settled).

(** One step; a post also yields the promise [postTask] returned. *)
Definition step (l : label) (q : Runtime) : option (Runtime * option pid) :=
  match l with
  | post task => let '(p, q) := postTask task q in Some (q, Some p)
  | tick => option_map (fun q => (q, None)) (run_job q)
  | settles p o => option_map (fun q => (q, None)) (task_settles p o q)
  end.

(** A run from a state: the final state and, in submission order, the
    posted tasks with the promises returned for them. *)
Fixpoint exec (ls : list label) (q : Runtime) (posted : list (Task * pid))
  : option (Runtime * list (Task * pid)) :=
  match ls with
  | [] => Some (q, posted)
  | l :: rest =>
      match step l q with
      | None => None
      | Some (q', out) =>
          exec rest q'
               match l, out with
               | post task, Some p => posted ++ [(task, p)]
               | _, _ => posted
               end
      end
  end.

(** Events of a queue whose tasks ran strictly one after the other, in
    the order given: each task ends before the next begins; the last one
    may still be running. *)
Fixpoint sequential (done : list (Task * settled)) (current : option Task)
  : list qevent :=
  match done with
  | [] => match current with Some t => [Begin t] | None => [] end
  | (t, o) :: rest => Begin t :: End t o :: sequential rest current
  end.

Definition promise_state (q : Runtime) (p : pid) : option pstate :=
  nth_error (heap q) p.

Definition is_rejected (s : option pstate) : bool :=
  match s with
  | Some (Settled (Rejected _)) => true
  | _ => false
  end.
End Promises.

(** *** The shape of a queue

    The [k]-th posted task owns two promises: its result [2k+1], returned
    by [postTask], and the chain [2k+2] that the next task waits on; the
    chain [0] is the resolved promise of the constructor. *)

Section QueueShape.
Variable Task : Type.

(** The reaction [_chain.then(task)] registers, and the one
    [result.catch(() => {})] registers. *)
Definition then_reaction (task : Task) (result : pid) : reaction Task :=
  {| onFulfilled := run_task task; onRejected := absent Task; derived := result |}.

Definition catch_reaction (chain : pid) : reaction Task :=
  {| onFulfilled := absent Task; onRejected := noop Task; derived := chain |}.

(** Where the queue stands with the first task that has not settled:
    the task before it has just settled and the chain is about to advance
    ([Waking]); the chain has advanced and the task, if posted, is about to
    begin ([Idle]); the task is running ([Busy]). *)
Inductive phase := Waking | Idle | Busy.

(** The value the [k]-th chain is fulfilled with: that of the task before
    it, or [undefined] after a failure. *)
Definition chain_value (done : list settled) (k : nat) : option Buffer :=
  match k with
  | 0 => None
  | S j => match nth_error done j with
           | Some (Fulfilled v) => v
           | _ => None
           end
  end.

(** The reactions waiting on the [k]-th chain. *)
Definition waiting_on (tasks : list Task) (k : nat) : list (reaction Task) :=
  match nth_error tasks k with
  | Some task => [then_reaction task (2 * k + 1)]
  | None => []
  end.

Record shaped (tasks : list Task) (done : list settled) (ph : phase)
       (q : Runtime Task) : Prop := {
  shape_done : List.length done <= List.length tasks;
  shape_phase :
    match ph with
    | Waking => 1 <= List.length done
    | Idle => True
    | Busy => List.length done < List.length tasks
    end;
  shape_heap : List.length (heap q) = 2 * List.length tasks + 1;
  shape_chain : _chain q = 2 * List.length tasks;
  shape_past : forall k, k < List.length done ->
    nth_error (heap q) (2 * k) = Some (Settled Task (Fulfilled (chain_value done k)));
  shape_front :
    nth_error (heap q) (2 * List.length done)
    = Some match ph with
           | Waking => Pending (waiting_on tasks (List.length done))
           | _ => Settled Task (Fulfilled (chain_value done (List.length done)))
           end;
  shape_future : forall k, List.length done < k <= List.length tasks ->
    nth_error (heap q) (2 * k) = Some (Pending (waiting_on tasks k));
  shape_settled : forall k o, nth_error done k = Some o ->
    nth_error (heap q) (2 * k + 1) = Some (Settled Task o);
  shape_pending : forall k, List.length done <= k < List.length tasks ->
    nth_error (heap q) (2 * k + 1) = Some (Pending [catch_reaction (2 * k + 2)]);
  shape_jobs :
    jobs q = match ph with
             | Waking =>
                 match nth_error done (List.length done - 1) with
                 | Some o => [{| job_reaction := catch_reaction (2 * List.length done);
                                 argument := o |}]
                 | None => []
                 end
             | Idle =>
                 map (fun r => {| job_reaction := r;
                                  argument := Fulfilled (chain_value done (List.length done)) |})
                     (waiting_on tasks (List.length done))
             | Busy => []
             end;
  shape_running :
    running q = match ph, nth_error tasks (List.length done) with
                | Busy, Some task => [(task, 2 * List.length done + 1)]
                | _, _ => []
                end;
  shape_history :
    history q = sequential (combine tasks done)
                           match ph with
                           | Busy => nth_error tasks (List.length done)
                           | _ => None
                           end
}.

End QueueShape.

(* ================================================================== *)
(** ** The page, the progress context and the capture monad *)
(* ================================================================== *)

Definition ParsedSelector := string.

(** The layout metrics [_fullPageSize] reads off one element. *)
Record Metrics := {
  scrollWidth : Q; offsetWidth : Q; clientWidth : Q;
  scrollHeight : Q; offsetHeight : Q; clientHeight : Q
}.

(** The actions handed to [progress.cleanupWhenAborted]. *)
Inductive Reversal := restore_page | hide_highlight | default_background.

(** Everything a capture does to the page, its frames and the progress
    context, in the order it does it. *)
Inductive event :=
| progress_log (text : string)
| evaluate_viewport
| evaluate_freeze (frame : FrameId) (hideCaret disableAnimations waitForFonts : bool)
| evaluate_restore (frame : FrameId)
| evaluate_fullPageSize
| evaluate_scrollOffset
| scrollIntoViewIfNeeded
| query_boundingBox
| testHookBeforeScreenshot
| testHookAfterScreenshot
| setBackgroundColor (transparent : bool)
| resolveFrameForSelectorNoWait (frame : FrameId) (sel : selector)
| maskSelectors (frame : FrameId) (selectors : list ParsedSelector)
| takeScreenshot (format : Format) (documentRect viewportRect : option Rect.t)
                 (quality : value) (fitsViewport : bool) (size : SizeMode)
| hideHighlight
| cleanupWhenAborted (action : Reversal).

(** What the page, the element handle and the progress context answer
    during one capture. *)
Record Page := {
  viewportSize : option Size.t;               (* [page.viewportSize()] *)
  window_inner : Size.t;                      (* [innerWidth], [innerHeight] *)
  document_body : option Metrics;
  document_documentElement : option Metrics;
  window_scroll : Q * Q;                      (* [scrollX], [scrollY] *)
  handle_boundingBox : option Rect.t;         (* [null] when not visible *)
  resolveFrameForSelector :
    FrameId -> selector -> option (FrameId * ParsedSelector);
  screenshot_bytes : Buffer;
  aborted : nat -> bool;     (* the answer of the n-th [throwIfAborted] *)
  rejects : nat -> bool;     (* whether the n-th call into the page rejects *)
  interrupted : nat -> Realm -> Realm
    (* the realm in which the n-th call, an evaluation that is rejected,
       leaves the frame it was sent to *)
}.

Record FrameState := {
  frame_id : FrameId;
  getAnimations : RootId -> list Animation;
  realm : Realm;
  in_flight : list nat   (* the evaluations of the restore script sent to
                            the frame that have not reached it yet, by the
                            number of their call *)
}.

Record World := {
  frames : list FrameState;   (* [page.frames()] *)
  checkpoints : nat;          (* [throwIfAborted] calls so far *)
  page_calls : nat            (* calls into the page so far *)
}.

(** The outcome of running a piece of a capture. *)
Record Run (A : Type) := {
  returned : result A;
  world : World;
  trace : list event
}.

Definition M (A : Type) := World -> Run A.

Definition ret {A} (a : A) : M A :=
  fun w => {| returned := Ok a; world := w; trace := [] |}.

Definition throw {A} (e : error) : M A :=
  fun w => {| returned := Throw e; world := w; trace := [] |}.

Definition bindM {A B} (m : M A) (k : A -> M B) : M B :=
  fun w =>
    let r := m w in
    match returned r with
    | Ok a =>
        let r' := k a (world r) in
        {| returned := returned r'; world := world r'; trace := trace r ++ trace r' |}
    | Throw e => {| returned := Throw e; world := world r; trace := trace r |}
    end.

Declare Scope capture_scope.
Delimit Scope capture_scope with capture.
Notation "x <- c ;; k" := (bindM c (fun x => k))
  (at level 61, c at next level, right associativity) : capture_scope.
Notation "c ;; k" := (bindM c (fun _ => k))
  (at level 61, right associativity) : capture_scope.

Definition lift {A} (r : result A) : M A :=
  fun w => {| returned := r; world := w; trace := [] |}.

Definition emit (e : event) : M unit :=
  fun w => {| returned := Ok tt; world := w; trace := [e] |}.

Definition when (b : bool) (m : M unit) : M unit :=
  if b then m else ret tt.

(** One callback of a [Promise.all] over a list, next to the callbacks of
    the rest of the list: a callback that begins by awaiting a call has
    made that call before any answer is seen, so that the calls of the
    others are made whether this one is rejected or not; the whole rejects
    when one of them does. *)
Definition alongside {A} (one : M unit) (others : M A) : M A :=
  fun w =>
    let r := one w in
    let r' := others (world r) in
    {| returned := match returned r with
                   | Ok _ => returned r'
                   | Throw e => Throw e
                   end;
       world := world r';
       trace := trace r ++ trace r' |}.

Definition max6 (a b c d e f : Q) : Q :=
  Math_max a (Math_max b (Math_max c (Math_max d (Math_max e f)))).

(** Modelled from the spec: [helper.enclosingIntRect] is not among the
    sources; the specification has it round the box outward to an
    enclosing integer rect. *)
Definition enclosingIntRect (r : Rect.t) : Rect.t :=
  let x := inject_Z (Qfloor (Rect.x r)) in
  let y := inject_Z (Qfloor (Rect.y r)) in
  let x2 := inject_Z (Qceiling (Rect.x r + Rect.width r)) in
  let y2 := inject_Z (Qceiling (Rect.y r + Rect.height r)) in
  Rect.mk x y (x2 - x) (y2 - y).

(** Modelled from the spec: the [MultiMap] of [utils/multimap] is not among
    the sources; it maps an owning frame to the selectors resolved for it,
    keys in insertion order. *)
Definition MultiMap := list (FrameId * list ParsedSelector).

Fixpoint multimap_set (k : FrameId) (v : ParsedSelector) (m : MultiMap) : MultiMap :=
  match m with
  | [] => [(k, [v])]
  | (k', vs) :: rest =>
      if Nat.eqb k k' then (k', vs ++ [v]) :: rest
      else (k', vs) :: multimap_set k v rest
  end.

Definition multimap_keys (m : MultiMap) : list FrameId := map fst m.

Fixpoint multimap_get (k : FrameId) (m : MultiMap) : list ParsedSelector :=
  match m with
  | [] => []
  | (k', vs) :: rest => if Nat.eqb k k' then vs else multimap_get k rest
  end.

(** [frame.nonStallingEvaluateInExistingContext(script).catch(() => {})]
    without [await] in every frame of [page.frames()]: the evaluation is
    sent to the frame and nothing waits for it. *)
Fixpoint send_each (name : FrameId -> event) (fs : list FrameState) (n : nat)
  : list FrameState * nat * list event :=
  match fs with
  | [] => ([], n, [])
  | f :: rest =>
      let f' := {| frame_id := frame_id f; getAnimations := getAnimations f;
                   realm := realm f; in_flight := in_flight f ++ [n] |} in
      let '(rest', n', t) := send_each name rest (S n) in
      (f' :: rest', n', name (frame_id f) :: t)
  end.

(** The restore script is sent to every frame of the page and not
    awaited: the function returns with the script on its way, and a frame
    is restored when the script reaches it ([landed]). *)
Definition _restorePageAfterScreenshot (page : Page) : M unit :=
  fun w =>
    let '(fs, n, t) := send_each evaluate_restore (frames w) (page_calls w) in
    {| returned := Ok tt;
       world := {| frames := fs; checkpoints := checkpoints w; page_calls := n |};
       trace := t |}.

Section Screenshotter.
Variable page : Page.

(** Modelled from the spec: the progress context of [./progress] is not
    among the sources; [progress.throwIfAborted()] is a checkpoint that
    fails once cancellation has been requested. *)
Definition throwIfAborted : M unit :=
  fun w =>
    {| returned := if aborted page (checkpoints w) then Throw Aborted else Ok tt;
       world := {| frames := frames w; checkpoints := S (checkpoints w);
                   page_calls := page_calls w |};
       trace := [] |}.

(** Modelled from the spec: the page, frame and element-handle models are
    not among the sources; an awaited call into one of them is recorded
    and either returns or rejects. *)
Definition call (e : event) : M unit :=
  fun w =>
    {| returned := if rejects page (page_calls w)
                   then Throw (Failure "rejected") else Ok tt;
       world := {| frames := frames w; checkpoints := checkpoints w;
                   page_calls := S (page_calls w) |};
       trace := [e] |}.

(** What an evaluation of the restore script that was sent as call [n]
    does to a realm when it reaches it. *)
Definition land (w : Realm) (n : nat) : Realm :=
  if rejects page n then interrupted page n w else restore w.

(** A frame once every evaluation on its way has reached it. *)
Definition landed (f : FrameState) : FrameState :=
  {| frame_id := frame_id f; getAnimations := getAnimations f;
     realm := fold_left land (in_flight f) (realm f);
     in_flight := [] |}.

(** Modelled from the spec: the frame model is not among the sources;
    evaluations are taken to reach a frame in the order in which they were
    sent to it, so that an awaited evaluation finds the frame as the
    evaluations on their way to it leave it.

    [await frame.nonStallingEvaluateInExistingContext(script).catch(() => {})]
    in every frame of [page.frames()]: an evaluation that is not rejected
    has run the script in the frame's realm; a rejected one does not stop
    the others, and leaves its frame in the state the script had reached
    when it was interrupted, which may be the state it started from. *)
Fixpoint evaluate_each (name : FrameId -> event)
         (script : FrameState -> Realm -> Realm)
         (fs : list FrameState) (n : nat) : list FrameState * nat * list event :=
  match fs with
  | [] => ([], n, [])
  | f :: rest =>
      let w := realm (landed f) in
      let f' := {| frame_id := frame_id f; getAnimations := getAnimations f;
                   realm := if rejects page n then interrupted page n w
                            else script f w;
                   in_flight := [] |} in
      let '(rest', n', t) := evaluate_each name script rest (S n) in
      (f' :: rest', n', name (frame_id f) :: t)
  end.

Definition evaluate_in_frames (name : FrameId -> event)
           (script : FrameState -> Realm -> Realm) : M unit :=
  fun w =>
    let '(fs, n, t) := evaluate_each name script (frames w) (page_calls w) in
    {| returned := Ok tt;
       world := {| frames := fs; checkpoints := checkpoints w; page_calls := n |};
       trace := t |}.

Definition _originalViewportSize : M (Size.t * option Size.t) :=
  match viewportSize page with
  | Some v => ret (v, Some v)
  | None => (call evaluate_viewport ;; ret (window_inner page, None))%capture
  end.

(** What the function evaluated by [_fullPageSize] computes; [None] is
    the [null] of a document without body or root element. *)
Definition document_size : option Size.t :=
  match document_body page, document_documentElement page with
  | Some body, Some documentElement =>
      Some (Size.mk
              (max6 (scrollWidth body) (scrollWidth documentElement)
                    (offsetWidth body) (offsetWidth documentElement)
                    (clientWidth body) (clientWidth documentElement))
              (max6 (scrollHeight body) (scrollHeight documentElement)
                    (offsetHeight body) (offsetHeight documentElement)
                    (clientHeight body) (clientHeight documentElement)))
  | _, _ => None
  end.

Definition _fullPageSize : M (option Size.t) :=
  (call evaluate_fullPageSize ;; ret document_size)%capture.

Definition _preparePageForScreenshot
           (hideCaret disableAnimations waitForFonts : bool) : M unit :=
  (when disableAnimations (emit (progress_log "  disabled all CSS animations")) ;;
   when waitForFonts (emit (progress_log "  waiting for fonts to load...")) ;;
   evaluate_in_frames
     (fun f => evaluate_freeze f hideCaret disableAnimations waitForFonts)
     (fun f => freeze hideCaret disableAnimations waitForFonts (getAnimations f)) ;;
   when waitForFonts (emit (progress_log "  fonts in all frames are loaded")) ;;
   emit (cleanupWhenAborted restore_page))%capture.

Fixpoint resolve_masks (mask : list (FrameId * selector))
         (framesToParsedSelectors : MultiMap) : M MultiMap :=
  match mask with
  | [] => ret framesToParsedSelectors
  | (frame, sel) :: rest =>
      alongside
        (call (resolveFrameForSelectorNoWait frame sel))
        (resolve_masks rest
           match resolveFrameForSelector page frame sel with
           | Some (owner, parsed) => multimap_set owner parsed framesToParsedSelectors
           | None => framesToParsedSelectors
           end)
  end.

Fixpoint mask_frames (keys : list FrameId) (framesToParsedSelectors : MultiMap)
  : M unit :=
  match keys with
  | [] => ret tt
  | frame :: rest =>
      alongside
        (call (maskSelectors frame (multimap_get frame framesToParsedSelectors)))
        (mask_frames rest framesToParsedSelectors)
  end.

Definition _maskElements (options : ScreenshotOptions) : M bool :=
  match mask options with
  | None | Some [] => ret false
  | Some mask =>
      (framesToParsedSelectors <- resolve_masks mask [] ;;
       throwIfAborted ;;
       mask_frames (multimap_keys framesToParsedSelectors) framesToParsedSelectors ;;
       emit (cleanupWhenAborted hide_highlight) ;;
       ret true)%capture
  end.

Definition _screenshot (format : Format) (documentRect viewportRect : option Rect.t)
           (fitsViewport : bool) (options : ScreenshotOptions) : M Buffer :=
  (when (__testHookBeforeScreenshot options) (call testHookBeforeScreenshot) ;;
   throwIfAborted ;;
   let shouldSetDefaultBackground :=
     omitBackground options && match format with png => true | jpeg => false end in
   when shouldSetDefaultBackground
        (call (setBackgroundColor true) ;;
         emit (cleanupWhenAborted default_background)) ;;
   throwIfAborted ;;
   hasHighlight <- _maskElements options ;;
   throwIfAborted ;;
   call (takeScreenshot format documentRect viewportRect (quality options)
                        fitsViewport
                        match size options with Some s => s | None => size_device end) ;;
   let buffer := screenshot_bytes page in
   throwIfAborted ;;
   when hasHighlight (call hideHighlight) ;;
   throwIfAborted ;;
   when shouldSetDefaultBackground (call (setBackgroundColor false)) ;;
   throwIfAborted ;;
   when (__testHookAfterScreenshot options) (call testHookAfterScreenshot) ;;
   ret buffer)%capture.

(** [options.caret !== 'initial'], [options.animations === 'disabled'],
    [options.fonts === 'ready'] *)
Definition hideCaret (options : ScreenshotOptions) : bool :=
  match caret options with Some caret_initial => false | _ => true end.
Definition disableAnimations (options : ScreenshotOptions) : bool :=
  match animations options with Some animations_disabled => true | _ => false end.
Definition waitForFonts (options : ScreenshotOptions) : bool :=
  match fonts options with Some fonts_ready => true | _ => false end.

Definition prepare (options : ScreenshotOptions) : M unit :=
  _preparePageForScreenshot (hideCaret options) (disableAnimations options)
                            (waitForFonts options).

(** The task posted by [screenshotPage]. *)
Definition screenshotPage_task (format : Format) (options : ScreenshotOptions)
  : M Buffer :=
  (emit (progress_log "taking page screenshot") ;;
   sizes <- _originalViewportSize ;;
   let viewportSize := fst sizes in
   prepare options ;;
   throwIfAborted ;;
   if fullPage options then
     fullPageSize <- _fullPageSize ;;
     match fullPageSize with
     | None => throw (Failure "TypeError: fullPageSize is null")
     | Some fullPageSize =>
         let documentRect :=
           Rect.mk 0 0 (Size.width fullPageSize) (Size.height fullPageSize) in
         let fitsViewport :=
           Qle_bool (Size.width fullPageSize) (Size.width viewportSize)
           && Qle_bool (Size.height fullPageSize) (Size.height viewportSize) in
         documentRect <-
           match clip options with
           | Some c => lift (trimClipToSize (Clip.rect c) fullPageSize)
           | None => ret documentRect
           end ;;
         buffer <- _screenshot format (Some documentRect) None fitsViewport options ;;
         throwIfAborted ;;
         _restorePageAfterScreenshot page ;;
         ret buffer
     end
   else
     viewportRect <-
       match clip options with
       | Some c => lift (trimClipToSize (Clip.rect c) viewportSize)
       | None => ret (Rect.mk 0 0 (Size.width viewportSize) (Size.height viewportSize))
       end ;;
     buffer <- _screenshot format None (Some viewportRect) true options ;;
     throwIfAborted ;;
     _restorePageAfterScreenshot page ;;
     ret buffer)%capture.

(** The task posted by [screenshotElement]. *)
Definition screenshotElement_task (format : Format) (options : ScreenshotOptions)
  : M Buffer :=
  (emit (progress_log "taking element screenshot") ;;
   sizes <- _originalViewportSize ;;
   let viewportSize := fst sizes in
   prepare options ;;
   throwIfAborted ;;
   call scrollIntoViewIfNeeded ;;
   throwIfAborted ;;
   call query_boundingBox ;;
   match handle_boundingBox page with
   | None => throw (Error [Lit "Node is either not visible or not an HTMLElement"])
   | Some boundingBox =>
       lift (assert (negb (Qeq_bool (Rect.width boundingBox) 0))
                    [Lit "Node has 0 width."]) ;;
       lift (assert (negb (Qeq_bool (Rect.height boundingBox) 0))
                    [Lit "Node has 0 height."]) ;;
       let fitsViewport :=
         Qle_bool (Rect.width boundingBox) (Size.width viewportSize)
         && Qle_bool (Rect.height boundingBox) (Size.height viewportSize) in
       throwIfAborted ;;
       call evaluate_scrollOffset ;;
       let scrollOffset := window_scroll page in
       let documentRect :=
         Rect.mk (Rect.x boundingBox + fst scrollOffset)
                 (Rect.y boundingBox + snd scrollOffset)
                 (Rect.width boundingBox) (Rect.height boundingBox) in
       buffer <- _screenshot format (Some (enclosingIntRect documentRect)) None
                             fitsViewport options ;;
       throwIfAborted ;;
       _restorePageAfterScreenshot page ;;
       ret buffer
   end)%capture.
End Screenshotter.

(** The closure a public capture operation posts to the queue. *)
Inductive Capture :=
| page_capture (format : Format) (options : ScreenshotOptions)
| element_capture (format : Format) (options : ScreenshotOptions).

Definition run_capture (page : Page) (c : Capture) : M Buffer :=
  match c with
  | page_capture format options => screenshotPage_task page format options
  | element_capture format options => screenshotElement_task page format options
  end.

(** [screenshotPage]: validate, then post the task.  The promise handed
    back is the queue's on success; a validation error rejects the call
    without touching the queue. *)
Definition screenshotPage (options : ScreenshotOptions) (q : Runtime Capture)
  : result pid * Runtime Capture :=
  match validateScreenshotOptions options with
  | Throw e => (Throw e, q)
  | Ok format =>
      let '(p, q) := postTask (page_capture format options) q in (Ok p, q)
  end.

Definition screenshotElement (options : ScreenshotOptions) (q : Runtime Capture)
  : result pid * Runtime Capture :=
  match validateScreenshotOptions options with
  | Throw e => (Throw e, q)
  | Ok format =>
      let '(p, q) := postTask (element_capture format options) q in (Ok p, q)
  end.

(** Events that change the page or one of its frames. *)
Definition mutates_page (e : event) : bool :=
  match e with
  | evaluate_freeze _ _ _ _ | evaluate_restore _ | scrollIntoViewIfNeeded
  | setBackgroundColor _ | maskSelectors _ _ | hideHighlight => true
  | _ => false
  end.

Definition is_mask (e : event) : bool :=
  match e with
  | maskSelectors _ _ => true
  | _ => false
  end.

Definition is_background_override (e : event) : bool :=
  match e with
  | setBackgroundColor true => true
  | _ => false
  end.



(** [P] holds of an earlier event of [t] and [Q] of a later one. *)
Definition precedes (P Q : event -> bool) (t : list event) : Prop :=
  exists t1 e1 t2 e2 t3,
    t = t1 ++ e1 :: t2 ++ e2 :: t3 /\ P e1 = true /\ Q e2 = true.

(** Events of the capture proper: what [_screenshot] and the restore after
    it do. *)
Definition capture_phase (e : event) : bool :=
  match e with
  | setBackgroundColor _ | resolveFrameForSelectorNoWait _ _ | maskSelectors _ _
  | takeScreenshot _ _ _ _ _ _ | hideHighlight | evaluate_restore _
  | testHookBeforeScreenshot | testHookAfterScreenshot
  | cleanupWhenAborted hide_highlight | cleanupWhenAborted default_background => true
  | _ => false
  end.

(** [emits Q m]: whatever the world, every event of [m] satisfies [Q]. *)
Definition emits {A} (Q : event -> Prop) (m : M A) : Prop :=
  forall w, Forall Q (trace (m w)).

(** [yields m a]: some run of [m] returns [a]. *)
Definition yields {A} (m : M A) (a : A) : Prop :=
  exists w, returned (m w) = Ok a.

(** Every selector stored in [m] comes from a pair of [mask] that resolved. *)
Definition from_resolved (page : Page) (mask : list (FrameId * selector))
           (m : MultiMap) : Prop :=
  forall f p, In p (multimap_get f m) ->
    exists f0 s0, In (f0, s0) mask
                  /\ resolveFrameForSelector page f0 s0 = Some (f, p).

(** A reading of the specification's return value: [true] exactly when a
    mask was applied to some frame. *)
Definition reports_masks_applied (r : Run bool) : Prop :=
  forall b, returned r = Ok b -> b = existsb is_mask (trace r).

(** The events of [t] fall into an earlier part without masking and a later
    part without background override. *)
Definition override_then_mask (t : list event) : Prop :=
  exists pre post,
    t = pre ++ post
    /\ Forall (fun e => is_mask e = false) pre
    /\ Forall (fun e => is_background_override e = false) post.

Definition phased {A} (m : M A) : Prop :=
  forall w, override_then_mask (trace (m w)).

(** A reading of the specification's element property: the capture fails
    and nothing before the failure changed the page. *)
Definition fails_before_mutation {A} (r : Run A) : Prop :=
  failed (returned r) = true /\ existsb mutates_page (trace r) = false.


(** The viewport size [_originalViewportSize] settles on. *)
Definition resolved_viewport (page : Page) : Size.t :=
  match viewportSize page with
  | Some v => v
  | None => window_inner page
  end.


(** [fails m]: whatever the world, [m] throws. *)
Definition fails {A} (m : M A) : Prop :=
  forall w, failed (returned (m w)) = true.

(** [throws_only E m]: whatever [m] throws satisfies [E]. *)
Definition throws_only {A} (E : error -> Prop) (m : M A) : Prop :=
  forall w e, returned (m w) = Throw e -> E e.

Definition initial_world (fs : list FrameState) : World :=
  {| frames := fs; checkpoints := 0; page_calls := 0 |}.

(** What handlers never touch: style sheets, listeners, the handle, and in
    every installation the style tag and the detach callbacks. *)
Definition same_frame (w w' : Realm) : Prop :=
  listeners w' = listeners w
  /\ styles w' = styles w
  /\ __cleanupScreenshot w' = __cleanupScreenshot w
  /\ forall j i, nth_error (installations w) j = Some i ->
       exists i', nth_error (installations w') j = Some i'
                  /\ styleTag i' = styleTag i
                  /\ cleanupCallbacks i' = cleanupCallbacks i.

(** The frame after freeze and after any events: one installation [k], its
    set and the calls made are those of successive runs of one handler. *)
Definition only_handler (k : nat) (w0 w : Realm)
           (lists : list (list Animation)) : Prop :=
  (forall l, In l (listeners w) -> owner l = k)
  /\ nth_error (installations w) k <> None
  /\ (suspended k w, animationCalls w) = handle_all lists ([], animationCalls w0).

(** The promises [postTask] has returned: the [k]-th is [2k+1]. *)
Definition results_numbered {Task} (posted : list (Task * pid)) : Prop :=
  forall k t p, nth_error posted k = Some (t, p) -> p = 2 * k + 1.

(** Tasks named by numbers, for sample queues. *)
Definition Task_id := nat.

Definition no_mask (e : event) : Prop := is_mask e = false.
Definition no_override (e : event) : Prop := is_background_override e = false.

(** The error of [assert(boundingBox.width !== 0, 'Node has 0 width.')]. *)
Definition zero_width_error : error := Error [Lit "Node has 0 width."].

(* ================================================================== *)
(** ** Vocabulary for statements about a frozen frame *)
(* ================================================================== *)

Definition root_id (t : ShadowTree) : RootId :=
  match t with Root id _ => id end.

(** The shadow roots that the elements of a root give out: the open ones,
    in document order. *)
Definition open_shadow_roots (t : ShadowTree) : list ShadowTree :=
  match t with
  | Root _ hosted =>
      flat_map (fun node => match shadowRoot node with
                            | Some s => [s]
                            | None => []
                            end) hosted
  end.

(** [id] is the document, or a shadow root that is reached from it through
    open shadow roots only: neither a closed shadow root nor anything
    nested in one. *)
Fixpoint in_tree (id : RootId) (t : ShadowTree) : bool :=
  match t with
  | Root i hosted =>
      Nat.eqb id i
      || existsb (fun node => match node with
                              | (mode_open, s) => in_tree id s
                              | (mode_closed, _) => false
                              end) hosted
  end.

(** The number of roots of a document that are so reached: itself, and
    those of every open shadow root in it. *)
Fixpoint tree_size (t : ShadowTree) : nat :=
  match t with
  | Root _ hosted =>
      S (list_sum (map (fun node => match node with
                                    | (mode_open, s) => tree_size s
                                    | (mode_closed, _) => 0
                                    end) hosted))
  end.

(** Every root of a document, closed shadow roots and what they hold
    included. *)
Fixpoint all_roots (t : ShadowTree) : list RootId :=
  match t with
  | Root i hosted => i :: flat_map (fun node => all_roots (snd node)) hosted
  end.

(** An animation whose effect never ends. *)
Definition infinite (a : Animation) : bool :=
  match effect a with
  | Some eff => negb (Number_isFinite (endTime eff))
  | None => false
  end.

(** What the handler does to an animation it does not pass over: it
    finishes one that ends and cancels one that does not, and the call
    throws as the animation has it. *)
Definition handled_as (x : Animation) (c : AnimCall) : Prop :=
  anim_id x = target c /\ eligible x = true
  /\ ((method c = finish /\ infinite x = false /\ threw c = finish_throws x)
      \/ (method c = cancel /\ infinite x = true /\ threw c = cancel_throws x)).

(** A [play()] on animation [a]. *)
Definition is_play_of (a : AnimId) (c : AnimCall) : bool :=
  match method c with
  | play => Nat.eqb (target c) a
  | _ => false
  end.

Definition played_times (a : AnimId) (calls : list AnimCall) : nat :=
  List.length (filter (is_play_of a) calls).

(** The calls [play()] of the cleanup handle on a set of animations. *)
Definition resumed (s : AnimSet) : list AnimCall :=
  map (fun a => {| method := play; target := anim_id a; threw := play_throws a |}) s.

(** No animation is in the set twice. *)
Definition distinct (s : AnimSet) : Prop := NoDup (map anim_id s).

(** What the handler records: an animation it does not pass over, whose
    effect never ends and whose [cancel()] went through. *)
Definition suspendable (a : Animation) : Prop :=
  eligible a = true /\ infinite a = true /\ cancel_throws a = false.

(* ================================================================== *)
(** ** Vocabulary for statements about runs of the queue *)
(* ================================================================== *)

Definition is_post {Task} (l : label Task) : bool :=
  match l with
  | post _ => true
  | _ => false
  end.

(** The outcomes of the tasks from the [k]-th on, [n] of them, each the
    one [outcome] assigns to its position in the queue. *)
Definition outcomes_from (outcome : nat -> settled) (k n : nat) : list settled :=
  map outcome (seq k n).

(* ================================================================== *)
(** ** Vocabulary for statements about whole captures *)
(* ================================================================== *)

(** The frames a run has masked, in the order it masked them. *)
Definition masked_frames (t : list event) : list FrameId :=
  flat_map (fun e => match e with maskSelectors f _ => [f] | _ => [] end) t.

(** The six widths, and the six heights, [_fullPageSize] takes the maximum
    of. *)
Definition widths (body documentElement : Metrics) : list Q :=
  [scrollWidth body; scrollWidth documentElement;
   offsetWidth body; offsetWidth documentElement;
   clientWidth body; clientWidth documentElement].

Definition heights (body documentElement : Metrics) : list Q :=
  [scrollHeight body; scrollHeight documentElement;
   offsetHeight body; offsetHeight documentElement;
   clientHeight body; clientHeight documentElement].

(** A call of the pixel-capture primitive. *)
Definition is_capture (e : event) : bool :=
  match e with
  | takeScreenshot _ _ _ _ _ _ => true
  | _ => false
  end.

(** How often a run called the pixel-capture primitive. *)
Definition captures (t : list event) : nat := List.length (filter is_capture t).

Definition no_capture (e : event) : Prop := is_capture e = false.

(** [options.mask && options.mask.length]: the mask list is there and is
    not empty. *)
Definition has_mask (options : ScreenshotOptions) : bool :=
  match mask options with
  | None | Some [] => false
  | Some _ => true
  end.

(** [options.omitBackground && format === 'png'] *)
Definition shouldSetDefaultBackground (format : Format) (options : ScreenshotOptions)
  : bool :=
  omitBackground options && match format with png => true | jpeg => false end.

(** [options.size || 'device'] *)
Definition size_or_device (options : ScreenshotOptions) : SizeMode :=
  match size options with Some s => s | None => size_device end.

(** The calls that take back what a capture did to the page. *)
Definition is_undo (e : event) : bool :=
  match e with
  | hideHighlight | setBackgroundColor false | evaluate_restore _ => true
  | _ => false
  end.

(** What a capture that runs to its end does between the pixels and the
    restore of the frames. *)
Definition undo (format : Format) (options : ScreenshotOptions) : list event :=
  (if has_mask options then [hideHighlight] else [])
  ++ (if shouldSetDefaultBackground format options then [setBackgroundColor false] else [])
  ++ (if __testHookAfterScreenshot options then [testHookAfterScreenshot] else []).

(** What a capture does before the pixels are taken: no call of the
    primitive, and nothing that takes a change back. *)
Definition before_capture (e : event) : Prop :=
  is_capture e = false /\ is_undo e = false.

Definition capture_format (c : Capture) : Format :=
  match c with
  | page_capture format _ | element_capture format _ => format
  end.

Definition capture_options (c : Capture) : ScreenshotOptions :=
  match c with
  | page_capture _ options | element_capture _ options => options
  end.

(** The events of a capture that ran to its end, in frames [ids]: after
    what comes before the pixels, one call of the primitive, then the undo
    of mask and background, then the restore of every frame. *)
Definition undone_in_order (format : Format) (options : ScreenshotOptions)
           (ids : list FrameId) (t : list event) : Prop :=
  exists pre shot,
    t = pre ++ shot :: undo format options ++ map evaluate_restore ids
    /\ is_capture shot = true
    /\ Forall before_capture pre
    /\ (shouldSetDefaultBackground format options = true ->
        In (setBackgroundColor true) pre).

(** [keeps_frames m]: [m] leaves the frames of the page as they are. *)
Definition keeps_frames {A} (m : M A) : Prop :=
  forall w, frames (world (m w)) = frames w.

(** [keeps_checkpoints m]: [m] passes no checkpoint. *)
Definition keeps_checkpoints {A} (m : M A) : Prop :=
  forall w, checkpoints (world (m w)) = checkpoints w.

(** The background is touched only by a png capture asked to omit it. *)
Definition override_allowed (format : Format) (options : ScreenshotOptions)
           (e : event) : Prop :=
  match e with
  | setBackgroundColor _ => omitBackground options = true /\ format = png
  | _ => True
  end.

(** What a capture does before its first checkpoint: it logs, asks for the
    viewport, freezes the frames and registers their restore. *)
Definition is_preparation (e : event) : bool :=
  match e with
  | progress_log _ | evaluate_viewport | evaluate_freeze _ _ _ _
  | cleanupWhenAborted restore_page => true
  | _ => false
  end.

(** Whether the capture's first call into the page, the query for the
    size of the window that [_originalViewportSize] makes when the page has
    no viewport size set, is rejected; with a viewport size set there is no
    such query. *)
Definition viewport_query_rejected (page : Page) (w : World) : bool :=
  match viewportSize page with
  | Some _ => false
  | None => rejects page (page_calls w)
  end.




(** The three assertions [screenshotElement] makes on the bounding box, in
    the order it makes them: the error of the first that is violated. *)
Definition geometry_error (page : Page) : option error :=
  match handle_boundingBox page with
  | None => Some (Error [Lit "Node is either not visible or not an HTMLElement"])
  | Some boundingBox =>
      if Qeq_bool (Rect.width boundingBox) 0 then Some (Error [Lit "Node has 0 width."])
      else if Qeq_bool (Rect.height boundingBox) 0
           then Some (Error [Lit "Node has 0 height."])
           else None
  end.


(** Every change a capture makes to the page before the pixels has its
    reversal registered for the case of an abort. *)
Definition reversals_registered (format : Format) (options : ScreenshotOptions)
           (pre : list event) : Prop :=
  In (cleanupWhenAborted restore_page) pre
  /\ (shouldSetDefaultBackground format options = true ->
      In (setBackgroundColor true) pre
      /\ In (cleanupWhenAborted default_background) pre)
  /\ (has_mask options = true -> In (cleanupWhenAborted hide_highlight) pre).

(** The frames in which a run has evaluated the freeze script, in the
    order it did. *)
Definition frozen_frames (t : list event) : list FrameId :=
  flat_map (fun e => match e with evaluate_freeze f _ _ _ => [f] | _ => [] end) t.

Definition is_freeze (e : event) : bool :=
  match e with
  | evaluate_freeze _ _ _ _ => true
  | _ => false
  end.

(** The freezes of a run come before the registration of their restore,
    with nothing but preparation around them. *)
Definition freeze_then_registered (t : list event) : Prop :=
  exists t1 t2,
    t = t1 ++ cleanupWhenAborted restore_page :: t2
    /\ Forall (fun e => is_preparation e = true) t1
    /\ Forall (fun e => is_freeze e = false) t2.

(** A frame as the freeze script leaves it. *)
Definition frozen (hideCaret disableAnimations waitForFonts : bool) (f : FrameState)
  : FrameState :=
  {| frame_id := frame_id f; getAnimations := getAnimations f;
     realm := freeze hideCaret disableAnimations waitForFonts (getAnimations f) (realm f);
     in_flight := in_flight f |}.

(** A frame to which the restore script has been sent as call [n]. *)
Definition sent (n : nat) (f : FrameState) : FrameState :=
  {| frame_id := frame_id f; getAnimations := getAnimations f;
     realm := realm f; in_flight := in_flight f ++ [n] |}.

(** A realm in which the next freeze gets a style element and an
    installation of its own: the node about to be created is not attached
    yet, and no listener belongs to the installation about to be made. *)
Definition fresh_realm (w : Realm) : Prop :=
  ~ In (nextNode w) (styles w)
  /\ forall l, In l (listeners w) -> owner l <> List.length (installations w).


(* ================================================================== *)
(** ** Sample pages and options *)
(* ================================================================== *)

(** A page with an 800x600 viewport on which no selector resolves, nothing
    rejects and nothing aborts. *)
Definition blank_page : Page :=
  {| viewportSize := Some (Size.mk 800 600);
     window_inner := Size.mk 800 600;
     document_body := None;
     document_documentElement := None;
     window_scroll := (0%Q, 0%Q);
     handle_boundingBox := None;
     resolveFrameForSelector := fun _ _ => None;
     screenshot_bytes := "bytes"%string;
     aborted := fun _ => false;
     rejects := fun _ => false;
     interrupted := fun _ w => w |}.

Definition default_options : ScreenshotOptions :=
  {| type := VUndefined; quality := VUndefined; omitBackground := false;
     animations := None; mask := None; fullPage := false; clip := None;
     size := None; fonts := None; caret := None;
     __testHookBeforeScreenshot := false; __testHookAfterScreenshot := false |}.

Definition masking (o : ScreenshotOptions) (pairs : list (FrameId * selector))
  : ScreenshotOptions :=
  {| type := type o; quality := quality o; omitBackground := omitBackground o;
     animations := animations o; mask := Some pairs; fullPage := fullPage o;
     clip := clip o; size := size o; fonts := fonts o; caret := caret o;
     __testHookBeforeScreenshot := __testHookBeforeScreenshot o;
     __testHookAfterScreenshot := __testHookAfterScreenshot o |}.

Definition clipping (o : ScreenshotOptions) (c : Clip.t) : ScreenshotOptions :=
  {| type := type o; quality := quality o; omitBackground := omitBackground o;
     animations := animations o; mask := mask o; fullPage := fullPage o;
     clip := Some c; size := size o; fonts := fonts o; caret := caret o;
     __testHookBeforeScreenshot := __testHookBeforeScreenshot o;
     __testHookAfterScreenshot := __testHookAfterScreenshot o |}.

Definition omitting_background (o : ScreenshotOptions) : ScreenshotOptions :=
  {| type := type o; quality := quality o; omitBackground := true;
     animations := animations o; mask := mask o; fullPage := fullPage o;
     clip := clip o; size := size o; fonts := fonts o; caret := caret o;
     __testHookBeforeScreenshot := __testHookBeforeScreenshot o;
     __testHookAfterScreenshot := __testHookAfterScreenshot o |}.

(** The same page, with every selector resolving in the frame it is given
    for. *)
Definition resolving_page : Page :=
  {| viewportSize := viewportSize blank_page;
     window_inner := window_inner blank_page;
     document_body := None;
     document_documentElement := None;
     window_scroll := window_scroll blank_page;
     handle_boundingBox := None;
     resolveFrameForSelector := fun frame sel => Some (frame, sel);
     screenshot_bytes := screenshot_bytes blank_page;
     aborted := fun _ => false;
     rejects := fun _ => false;
     interrupted := fun _ w => w |}.

(** The same page, with an element handle whose box is [box]. *)
Definition page_with_box (box : Rect.t) : Page :=
  {| viewportSize := viewportSize blank_page;
     window_inner := window_inner blank_page;
     document_body := None;
     document_documentElement := None;
     window_scroll := window_scroll blank_page;
     handle_boundingBox := Some box;
     resolveFrameForSelector := fun _ _ => None;
     screenshot_bytes := screenshot_bytes blank_page;
     aborted := fun _ => false;
     rejects := fun _ => false;
     interrupted := fun _ w => w |}.

(** A frame whose document has no shadow tree, no animation and nothing
    injected. *)
Definition blank_realm : Realm :=
  {| document := Root 0 [];
     nextNode := 0;
     styles := [];
     listeners := [];
     installations := [];
     __cleanupScreenshot := None;
     animationCalls := [] |}.

Definition main_frame : FrameState :=
  {| frame_id := 0; getAnimations := fun _ => []; realm := blank_realm;
     in_flight := [] |}.

(** An animation that repeats forever. *)
Definition spinner : Animation :=
  {| anim_id := 7;
     effect := Some {| endTime := EndInfinity |};
     playbackRate := 1;
     finish_throws := false;
     cancel_throws := false;
     play_throws := false |}.

(** The same page, on which the operation has been cancelled. *)
Definition cancelled_page : Page :=
  {| viewportSize := viewportSize blank_page;
     window_inner := window_inner blank_page;
     document_body := None;
     document_documentElement := None;
     window_scroll := window_scroll blank_page;
     handle_boundingBox := None;
     resolveFrameForSelector := fun _ _ => None;
     screenshot_bytes := screenshot_bytes blank_page;
     aborted := fun _ => true;
     rejects := fun _ => false;
     interrupted := fun _ w => w |}.

(** Options asking for a jpeg of quality 80. *)
Definition jpeg_options : ScreenshotOptions :=
  {| type := VString "jpeg"; quality := VNumber 80; omitBackground := false;
     animations := None; mask := None; fullPage := false; clip := None;
     size := None; fonts := None; caret := None;
     __testHookBeforeScreenshot := false; __testHookAfterScreenshot := false |}.

(** The same page, on which the first call is rejected. *)
Definition flaky_page : Page :=
  {| viewportSize := viewportSize blank_page;
     window_inner := window_inner blank_page;
     document_body := None;
     document_documentElement := None;
     window_scroll := window_scroll blank_page;
     handle_boundingBox := None;
     resolveFrameForSelector := fun _ _ => None;
     screenshot_bytes := screenshot_bytes blank_page;
     aborted := fun _ => false;
     rejects := fun n => Nat.eqb n 0;
     interrupted := fun _ w => w |}.

(** A second frame, like the main one. *)
Definition child_frame : FrameState :=
  {| frame_id := 1; getAnimations := fun _ => []; realm := blank_realm;
     in_flight := [] |}.

(* ################################################################## *)
(** * Properties *)
(* ################################################################## *)

(* ================================================================== *)
(** ** Numbers *)
(* ================================================================== *)

Section Numbers.
Local Open Scope Q_scope.


Lemma number_truthy_false (n : Q) : number_truthy n = false <-> n == 0.
Proof.
  unfold number_truthy. rewrite negb_false_iff. apply Qeq_bool_iff.
Qed.

Lemma Math_max_cases (a b : Q) :
  (a < b /\ Math_max a b == b) \/ (b <= a /\ Math_max a b == a).
Proof. apply Q.max_spec. Qed.

Lemma Math_min_cases (a b : Q) :
  (a < b /\ Math_min a b == a) \/ (b <= a /\ Math_min a b == b).
Proof. apply Q.min_spec. Qed.


End Numbers.

(* ================================================================== *)
(** ** trimClipToSize *)
(* ================================================================== *)

Section TrimClip.
Local Open Scope Q_scope.

Lemma trimClipToSize_unfold clip size :
  trimClipToSize clip size =
  if number_truthy (Rect.width (trimmed clip size))
     && number_truthy (Rect.height (trimmed clip size))
  then Ok (trimmed clip size) else Throw (Error clip_error).
Proof.
  unfold trimClipToSize, assert; cbn.
  match goal with |- context [if ?b then _ else _] => destruct b end; reflexivity.
Qed.


End TrimClip.

(* ================================================================== *)
(** ** trimClipToSize on doubles *)
(* ================================================================== *)

Section DoubleOrder.
Local Open Scope double_scope.

(** [Math.max] and [Math.min] on the two zeros and on [NaN]. *)
Example Math_max_min_of_zeros :
  Double.Math_max 0 (S754_zero true) = 0
  /\ Double.Math_max (S754_zero true) 0 = 0
  /\ Double.Math_min 0 (S754_zero true) = S754_zero true
  /\ Double.Math_min (S754_zero true) 0 = S754_zero true
  /\ Double.Math_max S754_nan (Double.of_Z 1) = S754_nan
  /\ Double.Math_min (Double.of_Z 1) S754_nan = S754_nan.
Proof. repeat split. Qed.

(** The literals [0.1] and [0.2], their sum, and what is left of the sum
    when [0.1] is taken off again, as mantissa and exponent. *)
Example tenths_in_binary :
  Double.decimal 1 1 = S754_finite false 7205759403792794 (-56)
  /\ Double.decimal 2 1 = S754_finite false 7205759403792794 (-55)
  /\ Double.decimal 1 1 + Double.decimal 2 1 = S754_finite false 5404319552844596 (-54)
  /\ (Double.decimal 1 1 + Double.decimal 2 1) - Double.decimal 1 1
     = S754_finite false 7205759403792795 (-55).
Proof. repeat split; vm_compute; reflexivity. Qed.

Lemma same_refl (a : Double.t) : Double.same a a.
Proof. left. reflexivity. Qed.

Lemma same_zeros (s s' : bool) : Double.same (S754_zero s) (S754_zero s').
Proof. right. split; reflexivity. Qed.

(** The comparison of two finite numbers of the same sign, one way and
    the other. *)
Lemma finite_compare_antisym (m1 m2 : positive) (e1 e2 : Z) :
  match Z.compare e2 e1 with
  | Lt => Lt
  | Gt => Gt
  | Eq => Pos.compare_cont Eq m2 m1
  end
  = CompOpp match Z.compare e1 e2 with
            | Lt => Lt
            | Gt => Gt
            | Eq => Pos.compare_cont Eq m1 m2
            end.
Proof.
  rewrite (Z.compare_antisym e1 e2).
  destruct (Z.compare e1 e2); cbn; try reflexivity.
  rewrite (Pos.compare_cont_antisym m1 m2 Eq). reflexivity.
Qed.

Lemma finite_compare_Eq (m1 m2 : positive) (e1 e2 : Z) :
  match Z.compare e1 e2 with
  | Lt => Lt
  | Gt => Gt
  | Eq => Pos.compare_cont Eq m1 m2
  end = Eq -> m1 = m2 /\ e1 = e2.
Proof.
  destruct (Z.compare e1 e2) eqn:E; try discriminate.
  intro H. split; [apply Pos.compare_eq; exact H|apply Z.compare_eq; exact E].
Qed.

Lemma SFcompare_refl (a : Double.t) :
  Double.is_nan a = false -> SFcompare a a = Some Eq.
Proof.
  destruct a as [[]|[]| |[] m e]; cbn; try reflexivity; try discriminate; intros _;
    rewrite Z.compare_refl, Pos.compare_cont_refl; reflexivity.
Qed.

Lemma same_compare_r (a b b' : Double.t) :
  Double.same b b' -> SFcompare a b = SFcompare a b'.
Proof.
  intros [->|[Z Z']]; [reflexivity|].
  destruct b; try discriminate Z. destruct b'; try discriminate Z'.
  destruct a; reflexivity.
Qed.

(** Two numbers that are the same are [===], unless they are [NaN]. *)
Lemma same_eqb (a b : Double.t) :
  Double.same a b -> Double.is_nan a = false -> a === b.
Proof.
  intros S N. unfold Double.eqb, SFeqb.
  rewrite <- (same_compare_r a S), (SFcompare_refl a N). reflexivity.
Qed.

Lemma same_truthy (a b : Double.t) :
  Double.same a b -> Double.number_truthy a = Double.number_truthy b.
Proof.
  intros [->|[Z Z']]; [reflexivity|].
  unfold Double.number_truthy. rewrite Z, Z'. reflexivity.
Qed.

Lemma same_truthy_eq (a b : Double.t) :
  Double.same a b -> Double.number_truthy a = true -> a = b.
Proof.
  intros [->|[Z Z']]; [reflexivity|].
  unfold Double.number_truthy. rewrite Z. discriminate.
Qed.

Lemma truthy_not_nan (a : Double.t) :
  Double.number_truthy a = true -> Double.is_nan a = false.
Proof. destruct a; cbn; auto; discriminate. Qed.

(** Subtraction does not tell two zeros apart either, except in the sign
    of a zero it returns. *)
Lemma sub_same (a a' b b' : Double.t) :
  Double.same a a' -> Double.same b b' -> Double.same (a - b) (a' - b').
Proof.
  intros [->|[Za Za']] [->|[Zb Zb']]; try apply same_refl.
  - destruct b; try discriminate Zb. destruct b'; try discriminate Zb'.
    destruct a' as [[]|[]| |[] m e], s, s0; cbn;
      first [apply same_refl|apply same_zeros].
  - destruct a; try discriminate Za. destruct a'; try discriminate Za'.
    destruct b' as [[]|[]| |[] m e], s, s0; cbn;
      first [apply same_refl|apply same_zeros].
  - destruct a; try discriminate Za. destruct a'; try discriminate Za'.
    destruct b; try discriminate Zb. destruct b'; try discriminate Zb'.
    destruct s, s0, s1, s2; cbn; apply same_zeros.
Qed.

Lemma sub_nan_l (a b : Double.t) :
  Double.is_nan (a - b) = false -> Double.is_nan a = false.
Proof. destruct a; cbn; auto. Qed.

Lemma sub_nan_r (a b : Double.t) :
  Double.is_nan (a - b) = false -> Double.is_nan b = false.
Proof. destruct a, b; cbn; auto. Qed.

(** For a bound that is not negative the source's [max(0, min(v, hi))] is
    the clamp into [[0, hi]], up to the sign of a zero: for the bound [-0]
    the source gives [+0] where the clamp gives the bound. *)
Lemma double_clamp_code_same (hi v : Double.t) :
  0 <= hi ->
  Double.same (Double.Math_max 0 (Double.Math_min v hi)) (Double.clamp_into 0 hi v).
Proof.
  intro H.
  destruct hi as [[]|[]| |[] mh eh]; try discriminate H;
    destruct v as [[]|[]| |[] mv ev]; cbn;
    try (first [apply same_refl|apply same_zeros]).
  rewrite (finite_compare_antisym mv mh ev eh).
  destruct (match Z.compare ev eh with
            | Lt => Lt | Gt => Gt | Eq => Pos.compare_cont Eq mv mh end) eqn:E;
    cbn; try apply same_refl.
  apply finite_compare_Eq in E as [-> ->]. apply same_refl.
Qed.

(** A coordinate inside the interval is left where it is, [-0] becoming
    [+0]. *)
Lemma double_clamp_code_inside (hi v : Double.t) :
  0 <= v -> v <= hi -> Double.same (Double.Math_max 0 (Double.Math_min v hi)) v.
Proof.
  intros H0 H1.
  destruct v as [[]|[]| |[] mv ev]; try discriminate H0;
    destruct hi as [[]|[]| |[] mh eh]; try discriminate H1; cbn;
    try (first [apply same_refl|apply same_zeros]).
  revert H1. unfold Double.leb, SFleb. cbn.
  destruct (match Z.compare ev eh with
            | Lt => Lt | Gt => Gt | Eq => Pos.compare_cont Eq mv mh end) eqn:E;
    cbn; try discriminate; intros _; apply same_refl.
Qed.

(** Both clamps of the source land in [[0, hi]] once [hi] is not negative,
    unless the coordinate is [NaN]. *)
Lemma double_clamp_code_range (hi v : Double.t) :
  0 <= hi -> Double.is_nan v = false ->
  0 <= Double.Math_max 0 (Double.Math_min v hi)
  /\ Double.Math_max 0 (Double.Math_min v hi) <= hi.
Proof.
  intros H N.
  destruct hi as [[]|[]| |[] mh eh]; try discriminate H;
    destruct v as [[]|[]| |[] mv ev]; try discriminate N; cbn;
    try (split; reflexivity).
  - split; [reflexivity|]. unfold Double.leb, SFleb. cbn.
    rewrite Z.compare_refl, Pos.compare_cont_refl. reflexivity.
  - destruct (match Z.compare ev eh with
              | Lt => Lt | Gt => Gt | Eq => Pos.compare_cont Eq mv mh end) eqn:E;
      cbn; (split; [reflexivity|]); unfold Double.leb, SFleb; cbn.
    + rewrite E. reflexivity.
    + rewrite E. reflexivity.
    + rewrite Z.compare_refl, Pos.compare_cont_refl. reflexivity.
Qed.

(** A clamp that is a number was given a number. *)
Lemma double_clamp_code_nan (hi v : Double.t) :
  Double.is_nan (Double.Math_max 0 (Double.Math_min v hi)) = false ->
  Double.is_nan v = false.
Proof. destruct v; cbn; auto. Qed.
End DoubleOrder.

Section DoubleTrim.
Local Open Scope double_scope.

Lemma double_trimClipToSize_unfold clip size :
  Double.trimClipToSize clip size =
  if Double.number_truthy (Double.Rect.width (Double.trimmed clip size))
     && Double.number_truthy (Double.Rect.height (Double.trimmed clip size))
  then Ok (Double.trimmed clip size) else Throw (Error clip_error).
Proof.
  unfold Double.trimClipToSize, assert; cbn.
  match goal with |- context [if ?b then _ else _] => destruct b end; reflexivity.
Qed.

Lemma double_trimClipToSize_Ok clip size r :
  Double.trimClipToSize clip size = Ok r ->
  r = Double.trimmed clip size
  /\ Double.number_truthy (Double.Rect.width r) = true
  /\ Double.number_truthy (Double.Rect.height r) = true.
Proof.
  rewrite double_trimClipToSize_unfold.
  destruct (Double.number_truthy (Double.Rect.width (Double.trimmed clip size))) eqn:Ew;
    destruct (Double.number_truthy (Double.Rect.height (Double.trimmed clip size)))
      eqn:Eh;
    cbn; intro H; inversion H; subst. auto.
Qed.

(** The rect the source builds and the clamped rect of the specification
    agree field by field, up to the sign of a zero. *)
Lemma double_trimmed_clamped clip bounds :
  0 <= Double.Size.width bounds -> 0 <= Double.Size.height bounds ->
  Double.same (Double.Rect.x (Double.trimmed clip bounds))
              (Double.Rect.x (Double.clamped_rect clip bounds))
  /\ Double.same (Double.Rect.y (Double.trimmed clip bounds))
                 (Double.Rect.y (Double.clamped_rect clip bounds))
  /\ Double.same (Double.Rect.width (Double.trimmed clip bounds))
                 (Double.Rect.width (Double.clamped_rect clip bounds))
  /\ Double.same (Double.Rect.height (Double.trimmed clip bounds))
                 (Double.Rect.height (Double.clamped_rect clip bounds)).
Proof.
  intros Hw Hh. unfold Double.trimmed, Double.clamped_rect; cbn.
  repeat split; try apply sub_same; apply double_clamp_code_same; assumption.
Qed.

(** A clip with a field that is [NaN] is refused, with a width or height
    that is [NaN] and not zero. *)
Example trimClipToSize_NaN_clip :
  Double.trimClipToSize
    (Double.Rect.mk S754_nan 0 (Double.of_Z 10) (Double.of_Z 10))
    (Double.Size.mk (Double.of_Z 800) (Double.of_Z 600))
  = Throw (Error clip_error)
  /\ Double.Rect.width
       (Double.trimmed (Double.Rect.mk S754_nan 0 (Double.of_Z 10) (Double.of_Z 10))
                       (Double.Size.mk (Double.of_Z 800) (Double.of_Z 600)))
     = S754_nan.
Proof. split; vm_compute; reflexivity. Qed.

(** C8, counterexample.  The clip [{x: 0.1, y: 0, width: 0.2, height: 10}]
    lies inside an 800x600 image and comes back with a width above [0.2]:
    [0.1 + 0.2] is [0.30000000000000004], and taking [0.1] off it leaves
    [0.20000000000000004].  The clip [{x: 1e16, y: 0, width: 1, height:
    10}] lies inside an image of width [1e17] and is refused: [1e16 + 1]
    is [1e16], so that the recomputed width is zero. *)
Lemma trimClipToSize_inside_comes_back_changed :
  let tenths :=
    Double.Rect.mk (Double.decimal 1 1) 0 (Double.decimal 2 1) (Double.of_Z 10) in
  let far := Double.Rect.mk (Double.of_Z (10 ^ 16)) 0 (Double.of_Z 1) (Double.of_Z 10) in
  (exists r,
      Double.trimClipToSize tenths (Double.Size.mk (Double.of_Z 800) (Double.of_Z 600))
      = Ok r
      /\ Double.Rect.x r = Double.decimal 1 1
      /\ Double.decimal 2 1 < Double.Rect.width r)
  /\ ~ Double.inside_comes_back_unchanged
         tenths (Double.Size.mk (Double.of_Z 800) (Double.of_Z 600))
  /\ Double.trimClipToSize far (Double.Size.mk (Double.of_Z (10 ^ 17)) (Double.of_Z 600))
     = Throw (Error clip_error)
  /\ ~ Double.inside_comes_back_unchanged
         far (Double.Size.mk (Double.of_Z (10 ^ 17)) (Double.of_Z 600)).
Proof.
  cbv zeta. split; [|split; [|split]].
  - eexists. split; [vm_compute; reflexivity|]. split; vm_compute; reflexivity.
  - intro H. destruct H as (r & E & _ & _ & W & _);
      [vm_compute; reflexivity ..|].
    vm_compute in E. injection E as <-. vm_compute in W. discriminate W.
  - vm_compute. reflexivity.
  - intro H. destruct H as (r & E & _); [vm_compute; reflexivity ..|].
    vm_compute in E. discriminate E.
Qed.

(** C8, amended.  A clip whose two corners, [(x, y)] and [(x + width, y +
    height)] with the sums as double arithmetic gives them, lie inside the
    bounds comes back from [trimClipToSize] with its [x] and [y], and with
    the width [(x + width) - x] and the height [(y + height) - y] that
    double arithmetic gives: the call throws when one of the two is zero
    or [NaN], and the clip comes back unchanged exactly when both round
    trips return the width and the height they started from. *)
Theorem trimClipToSize_inside_unchanged (clip : Double.Rect.t) (bounds : Double.Size.t) :
  0 <= Double.Rect.x clip ->
  Double.Rect.x clip <= Double.Size.width bounds ->
  0 <= Double.Rect.x clip + Double.Rect.width clip ->
  Double.Rect.x clip + Double.Rect.width clip <= Double.Size.width bounds ->
  0 <= Double.Rect.y clip ->
  Double.Rect.y clip <= Double.Size.height bounds ->
  0 <= Double.Rect.y clip + Double.Rect.height clip ->
  Double.Rect.y clip + Double.Rect.height clip <= Double.Size.height bounds ->
  let width := (Double.Rect.x clip + Double.Rect.width clip) - Double.Rect.x clip in
  let height := (Double.Rect.y clip + Double.Rect.height clip) - Double.Rect.y clip in
  (Double.number_truthy width = false \/ Double.number_truthy height = false ->
   Double.trimClipToSize clip bounds = Throw (Error clip_error))
  /\ (Double.number_truthy width = true -> Double.number_truthy height = true ->
      exists r, Double.trimClipToSize clip bounds = Ok r
                /\ Double.Rect.x r === Double.Rect.x clip
                /\ Double.Rect.y r === Double.Rect.y clip
                /\ Double.Rect.width r = width /\ Double.Rect.height r = height)
  /\ ((exists r, Double.trimClipToSize clip bounds = Ok r /\ Double.Rect.eq r clip)
      <-> (Double.number_truthy width = true /\ Double.number_truthy height = true
           /\ width === Double.Rect.width clip
           /\ height === Double.Rect.height clip)).
Proof.
  intros X0 X1 X2 X3 Y0 Y1 Y2 Y3 width height.
  pose proof (@double_clamp_code_inside _ _ X0 X1) as Sx.
  pose proof (@double_clamp_code_inside _ _ X2 X3) as Sx2.
  pose proof (@double_clamp_code_inside _ _ Y0 Y1) as Sy.
  pose proof (@double_clamp_code_inside _ _ Y2 Y3) as Sy2.
  pose proof (@sub_same _ _ _ _ Sx2 Sx) as Sw.
  pose proof (@sub_same _ _ _ _ Sy2 Sy) as Sh.
  fold width in Sw. fold height in Sh.
  assert (Nx : Double.is_nan (Double.Rect.x clip) = false)
    by (destruct (Double.Rect.x clip); auto; discriminate X0).
  assert (Ny : Double.is_nan (Double.Rect.y clip) = false)
    by (destruct (Double.Rect.y clip); auto; discriminate Y0).
  assert (Nx' : Double.is_nan (Double.Rect.x (Double.trimmed clip bounds)) = false).
  { destruct Sx as [E|[Z _]]; cbn; [rewrite E; exact Nx|].
    destruct (Double.Math_max 0 (Double.Math_min (Double.Rect.x clip)
                                                 (Double.Size.width bounds)));
      auto; discriminate Z. }
  assert (Ny' : Double.is_nan (Double.Rect.y (Double.trimmed clip bounds)) = false).
  { destruct Sy as [E|[Z _]]; cbn; [rewrite E; exact Ny|].
    destruct (Double.Math_max 0 (Double.Math_min (Double.Rect.y clip)
                                                 (Double.Size.height bounds)));
      auto; discriminate Z. }
  assert (Tw : Double.number_truthy (Double.Rect.width (Double.trimmed clip bounds))
               = Double.number_truthy width)
    by (apply same_truthy; exact Sw).
  assert (Th : Double.number_truthy (Double.Rect.height (Double.trimmed clip bounds))
               = Double.number_truthy height)
    by (apply same_truthy; exact Sh).
  assert (Good : Double.number_truthy width = true ->
                 Double.number_truthy height = true ->
                 exists r, Double.trimClipToSize clip bounds = Ok r
                           /\ Double.Rect.x r === Double.Rect.x clip
                           /\ Double.Rect.y r === Double.Rect.y clip
                           /\ Double.Rect.width r = width
                           /\ Double.Rect.height r = height).
  { intros W H. exists (Double.trimmed clip bounds).
    rewrite double_trimClipToSize_unfold, Tw, Th, W, H.
    split; [reflexivity|].
    split; [apply same_eqb; assumption|]. split; [apply same_eqb; assumption|].
    split; apply same_truthy_eq; try assumption; congruence. }
  split; [|split; [exact Good|split]].
  - rewrite double_trimClipToSize_unfold, Tw, Th.
    intros [E|E]; rewrite E, ?andb_false_r; reflexivity.
  - intros (r & E & _ & _ & Ew & Eh).
    apply double_trimClipToSize_Ok in E as (-> & W & H).
    assert (Fw : Double.Rect.width (Double.trimmed clip bounds) = width)
      by exact (@same_truthy_eq _ _ Sw W).
    assert (Fh : Double.Rect.height (Double.trimmed clip bounds) = height)
      by exact (@same_truthy_eq _ _ Sh H).
    rewrite Fw in Ew, W. rewrite Fh in Eh, H. auto.
  - intros (W & H & Ew & Eh).
    destruct (Good W H) as (r & E & Ex & Ey & Rw & Rh).
    exists r. split; [exact E|]. unfold Double.Rect.eq. rewrite Rw, Rh. auto.
Qed.

Lemma trimClipToSize_inside_unchanged_witness :
  exists r,
    Double.trimClipToSize
      (Double.Rect.mk (Double.of_Z 10) (Double.of_Z 20) (Double.of_Z 300) (Double.of_Z 200))
      (Double.Size.mk (Double.of_Z 800) (Double.of_Z 600)) = Ok r
    /\ Double.Rect.eq
         r (Double.Rect.mk (Double.of_Z 10) (Double.of_Z 20)
                           (Double.of_Z 300) (Double.of_Z 200)).
Proof.
  apply (@trimClipToSize_inside_unchanged
           (Double.Rect.mk (Double.of_Z 10) (Double.of_Z 20)
                           (Double.of_Z 300) (Double.of_Z 200))
           (Double.Size.mk (Double.of_Z 800) (Double.of_Z 600)));
    try (vm_compute; reflexivity).
  repeat split; vm_compute; reflexivity.
Defined.

(** C2, counterexample.  The clip [{x:100, y:0, width:-50, height:10}]
    in an 800x600 image clamps to a width of -50, and [trimClipToSize]
    returns that rect instead of failing. *)
Lemma trimClipToSize_negative_width_returned :
  let clip :=
    Double.Rect.mk (Double.of_Z 100) 0 (Double.of_Z (-50)) (Double.of_Z 10) in
  let bounds := Double.Size.mk (Double.of_Z 800) (Double.of_Z 600) in
  Double.trimClipToSize clip bounds = Ok clip
  /\ ~ Double.trim_fails_unless_positive clip bounds.
Proof.
  cbv zeta. split; [vm_compute; reflexivity|].
  intros [H _].
  assert (F : failed (Double.trimClipToSize
                        (Double.Rect.mk (Double.of_Z 100) 0 (Double.of_Z (-50))
                                        (Double.of_Z 10))
                        (Double.Size.mk (Double.of_Z 800) (Double.of_Z 600))) = true)
    by (apply H; left; vm_compute; reflexivity).
  vm_compute in F. discriminate F.
Qed.

(** C2, amended.  For every clip and every bounds of non-negative width
    and height, [trimClipToSize] clamps each corner of the clip into the
    bounds, the far corner being the sum [x + width], [y + height] as
    double arithmetic gives it, and recomputes width and height from the
    clamped corners by a subtraction in double arithmetic; it fails
    exactly when that width or that height is zero or [NaN], and otherwise
    returns the clamped rect, whose width or height is negative when the
    clamped corners come in reverse order. *)
Theorem trimClipToSize_clamps (clip : Double.Rect.t) (bounds : Double.Size.t) :
  0 <= Double.Size.width bounds -> 0 <= Double.Size.height bounds ->
  let c := Double.clamped_rect clip bounds in
  (Double.number_truthy (Double.Rect.width c) = false
   \/ Double.number_truthy (Double.Rect.height c) = false ->
   Double.trimClipToSize clip bounds = Throw (Error clip_error))
  /\ (Double.number_truthy (Double.Rect.width c) = true ->
      Double.number_truthy (Double.Rect.height c) = true ->
      exists r, Double.trimClipToSize clip bounds = Ok r /\ Double.Rect.eq r c).
Proof.
  intros Hw Hh c.
  destruct (@double_trimmed_clamped clip bounds Hw Hh) as (Sx & Sy & Sw & Sh).
  fold c in Sx, Sy, Sw, Sh.
  pose proof (@same_truthy _ _ Sw) as Tw. pose proof (@same_truthy _ _ Sh) as Th.
  rewrite double_trimClipToSize_unfold, Tw, Th. split.
  - intros [E|E]; rewrite E, ?andb_false_r; reflexivity.
  - intros W H. rewrite W, H. exists (Double.trimmed clip bounds).
    split; [reflexivity|].
    rewrite <- Tw in W. rewrite <- Th in H.
    pose proof (@truthy_not_nan _ W) as Nw. pose proof (@truthy_not_nan _ H) as Nh.
    repeat split; apply same_eqb; try assumption.
    + exact (@sub_nan_r _ _ Nw).
    + exact (@sub_nan_r _ _ Nh).
Qed.

Lemma trimClipToSize_clamps_witness :
  let clip :=
    Double.Rect.mk (Double.of_Z (-50)) (Double.of_Z 10) (Double.of_Z 200) (Double.of_Z 50) in
  let bounds := Double.Size.mk (Double.of_Z 800) (Double.of_Z 600) in
  let c := Double.clamped_rect clip bounds in
  (Double.number_truthy (Double.Rect.width c) = false
   \/ Double.number_truthy (Double.Rect.height c) = false ->
   Double.trimClipToSize clip bounds = Throw (Error clip_error))
  /\ (Double.number_truthy (Double.Rect.width c) = true ->
      Double.number_truthy (Double.Rect.height c) = true ->
      exists r, Double.trimClipToSize clip bounds = Ok r /\ Double.Rect.eq r c).
Proof.
  apply (@trimClipToSize_clamps
           (Double.Rect.mk (Double.of_Z (-50)) (Double.of_Z 10)
                           (Double.of_Z 200) (Double.of_Z 50))
           (Double.Size.mk (Double.of_Z 800) (Double.of_Z 600)));
    vm_compute; reflexivity.
Defined.

(** The example of the specification: the clip [{x:-50, y:10, width:200,
    height:50}] in an 800x600 viewport is trimmed to [{x:0, y:10,
    width:150, height:50}]. *)
Example trimClipToSize_of_the_specification :
  Double.trimClipToSize
    (Double.Rect.mk (Double.of_Z (-50)) (Double.of_Z 10) (Double.of_Z 200) (Double.of_Z 50))
    (Double.Size.mk (Double.of_Z 800) (Double.of_Z 600))
  = Ok (Double.Rect.mk 0 (Double.of_Z 10) (Double.of_Z 150) (Double.of_Z 50)).
Proof. vm_compute. reflexivity. Qed.
End DoubleTrim.

(* ================================================================== *)
(** ** validateScreenshotOptions *)
(* ================================================================== *)

Section Validation.
Local Open Scope Q_scope.

Lemma validate_type_failed (t : value) :
  failed (validate_type t)
  = truthy t && negb (is_string t "png") && negb (is_string t "jpeg").
Proof.
  unfold validate_type.
  destruct (truthy t); [|reflexivity].
  destruct (is_string t "png"), (is_string t "jpeg"); reflexivity.
Qed.

Lemma validate_type_Ok (t : value) (f : option Format) :
  validate_type t = Ok f ->
  match f with Some jpeg => true | _ => false end = is_string t "jpeg".
Proof.
  unfold validate_type.
  destruct (truthy t) eqn:T.
  - destruct t; cbn in *; try discriminate.
    destruct (String.eqb s "png") eqn:P; cbn.
    + intro H; inversion H; subst.
      apply String.eqb_eq in P; subst. reflexivity.
    + destruct (String.eqb s "jpeg") eqn:J; cbn; intro H; inversion H; reflexivity.
  - intro H; inversion H; subst.
    destruct t; cbn in *; try reflexivity.
    destruct (String.eqb s "jpeg") eqn:J; [|reflexivity].
    apply String.eqb_eq in J; subst. discriminate T.
Qed.

Lemma validate_quality_failed (format : Format) (q : value) :
  failed (validate_quality format q)
  = is_defined q
    && (negb match format with jpeg => true | png => false end
        || match q with
           | VNumber n => negb (Number_isInteger n) || negb (Qle_bool 0 n) || negb (Qle_bool n 100)
           | _ => true
           end).
Proof.
  unfold validate_quality.
  destruct q; cbn; try reflexivity; try (destruct format; reflexivity).
  destruct format; cbn; [reflexivity|].
  destruct (Number_isInteger n); cbn; [|reflexivity].
  destruct (Qle_bool 0 n), (Qle_bool n 100); reflexivity.
Qed.

Lemma validate_clip_failed (c : option Clip.t) :
  failed (validate_clip c)
  = match c with
    | None => false
    | Some c =>
        negb (is_number (Clip.x c)) || negb (is_number (Clip.y c))
        || negb (is_number (Clip.width c)) || negb (is_number (Clip.height c))
        || is_zero (Clip.width c) || is_zero (Clip.height c)
    end.
Proof.
  destruct c as [[x y w h]|]; [|reflexivity].
  unfold validate_clip; cbn.
  destruct x; cbn; try reflexivity.
  destruct y; cbn; try reflexivity.
  destruct w; cbn; try reflexivity.
  destruct h; cbn; rewrite ?orb_true_r; try reflexivity.
  destruct (Qeq_bool n1 0); cbn; [reflexivity|].
  destruct (Qeq_bool n2 0); reflexivity.
Qed.

Lemma validate_failed (o : ScreenshotOptions) :
  failed (validateScreenshotOptions o) = invalid_options o.
Proof.
  unfold validateScreenshotOptions, invalid_options, bad_type, bad_quality, bad_clip.
  rewrite <- validate_type_failed, <- validate_clip_failed.
  destruct (validate_type (type o)) as [f|e] eqn:T; cbn; [|reflexivity].
  apply validate_type_Ok in T. rewrite <- T.
  pose proof (validate_quality_failed
                match f with Some f => f | None => png end (quality o)) as Q.
  replace (negb match match f with Some f => f | None => png end with
                | jpeg => true | png => false end)
    with (negb match f with Some jpeg => true | _ => false end) in Q
    by (destruct f as [[|]|]; reflexivity).
  rewrite <- Q.
  destruct (validate_quality _ (quality o)); cbn; [|reflexivity].
  destruct (validate_clip (clip o)); reflexivity.
Qed.

Lemma validate_format (o : ScreenshotOptions) (f : Format) :
  validateScreenshotOptions o = Ok f ->
  f = if is_string (type o) "jpeg" then jpeg else png.
Proof.
  unfold validateScreenshotOptions.
  destruct (validate_type (type o)) as [f0|e] eqn:T; cbn; [|discriminate].
  apply validate_type_Ok in T. rewrite <- T.
  destruct (validate_quality _ (quality o)); cbn; [|discriminate].
  destruct (validate_clip (clip o)); cbn; [|discriminate].
  intro H; inversion H. destruct f0 as [[|]|]; reflexivity.
Qed.

(** After validation the clip's fields are numbers, the ones [Clip.rect]
    reads, and its width and height are not zero. *)
Lemma validate_clip_numbers (o : ScreenshotOptions) (f : Format) (c : Clip.t) :
  validateScreenshotOptions o = Ok f -> clip o = Some c ->
  Clip.x c = VNumber (Rect.x (Clip.rect c))
  /\ Clip.y c = VNumber (Rect.y (Clip.rect c))
  /\ Clip.width c = VNumber (Rect.width (Clip.rect c))
  /\ Clip.height c = VNumber (Rect.height (Clip.rect c))
  /\ ~ Rect.width (Clip.rect c) == 0 /\ ~ Rect.height (Clip.rect c) == 0.
Proof.
  intros V C.
  assert (F : invalid_options o = false) by (rewrite <- validate_failed, V; reflexivity).
  unfold invalid_options, bad_clip in F. rewrite C in F.
  apply orb_false_elim in F as [_ F].
  destruct c as [x y w h]; cbn in *.
  destruct x, y, w, h; cbn in F; try discriminate.
  repeat apply orb_false_elim in F as [F ?].
  cbn. repeat split; try reflexivity; intro E; apply Qeq_bool_iff in E; congruence.
Qed.
End Validation.

(* ================================================================== *)
(** ** The capture monad *)
(* ================================================================== *)

Section Monad.
Context {A B : Type}.

Lemma trace_bindM (m : M A) (k : A -> M B) (w : World) :
  trace (bindM m k w)
  = trace (m w) ++ match returned (m w) with
                   | Ok a => trace (k a (world (m w)))
                   | Throw _ => []
                   end.
Proof.
  unfold bindM. destruct (returned (m w)); cbn; [reflexivity|].
  symmetry; apply app_nil_r.
Qed.

Lemma returned_bindM (m : M A) (k : A -> M B) (w : World) :
  returned (bindM m k w)
  = match returned (m w) with
    | Ok a => returned (k a (world (m w)))
    | Throw e => Throw e
    end.
Proof. unfold bindM. destruct (returned (m w)); reflexivity. Qed.

Lemma world_bindM (m : M A) (k : A -> M B) (w : World) :
  world (bindM m k w)
  = match returned (m w) with
    | Ok a => world (k a (world (m w)))
    | Throw e => world (m w)
    end.
Proof. unfold bindM. destruct (returned (m w)); reflexivity. Qed.

Lemma trace_alongside (one : M unit) (others : M A) (w : World) :
  trace (alongside one others w) = trace (one w) ++ trace (others (world (one w))).
Proof. reflexivity. Qed.

Lemma returned_alongside (one : M unit) (others : M A) (w : World) :
  returned (alongside one others w)
  = match returned (one w) with
    | Ok _ => returned (others (world (one w)))
    | Throw e => Throw e
    end.
Proof. reflexivity. Qed.

Lemma world_alongside (one : M unit) (others : M A) (w : World) :
  world (alongside one others w) = world (others (world (one w))).
Proof. reflexivity. Qed.
End Monad.

Section Emits.
Variable page : Page.
Variable Q : event -> Prop.

Lemma emits_ret {A} (a : A) : emits Q (ret a).
Proof. intro w; constructor. Qed.

Lemma emits_throw {A} (e : error) : emits Q (@throw A e).
Proof. intro w; constructor. Qed.

Lemma emits_lift {A} (r : result A) : emits Q (lift r).
Proof. intro w; constructor. Qed.

Lemma emits_throwIfAborted : emits Q (throwIfAborted page).
Proof. intro w; constructor. Qed.

Lemma emits_emit (e : event) : Q e -> emits Q (emit e).
Proof. intros H w; repeat constructor; exact H. Qed.

Lemma emits_call (e : event) : Q e -> emits Q (call page e).
Proof. intros H w; repeat constructor; exact H. Qed.

Lemma emits_when (b : bool) (m : M unit) : emits Q m -> emits Q (when b m).
Proof. destruct b; [auto|intros _; apply emits_ret]. Qed.

Lemma emits_bind {A B} (m : M A) (k : A -> M B) :
  emits Q m -> (forall a, yields m a -> emits Q (k a)) -> emits Q (bindM m k).
Proof.
  intros Hm Hk w. rewrite trace_bindM. apply Forall_app. split; [apply Hm|].
  destruct (returned (m w)) eqn:E; [|constructor].
  apply Hk. exists w; exact E.
Qed.

Lemma emits_alongside {A} (one : M unit) (others : M A) :
  emits Q one -> emits Q others -> emits Q (alongside one others).
Proof.
  intros H1 H2 w. rewrite trace_alongside. apply Forall_app. split; [apply H1|apply H2].
Qed.

Lemma trace_evaluate_each name script fs n :
  snd (evaluate_each page name script fs n) = map name (map frame_id fs).
Proof.
  revert n; induction fs as [|f fs IH]; intro n; cbn; [reflexivity|].
  specialize (IH (S n)).
  destruct (evaluate_each page name script fs (S n)) as [[fs' n'] t]; cbn in *.
  congruence.
Qed.

Lemma trace_evaluate_in_frames name script w :
  trace (evaluate_in_frames page name script w) = map name (map frame_id (frames w)).
Proof.
  unfold evaluate_in_frames.
  pose proof (trace_evaluate_each name script (frames w) (page_calls w)) as H.
  destruct (evaluate_each page name script (frames w) (page_calls w)) as [[fs n] t].
  exact H.
Qed.

Lemma returned_evaluate_in_frames name script w :
  returned (evaluate_in_frames page name script w) = Ok tt.
Proof.
  unfold evaluate_in_frames.
  destruct (evaluate_each page name script (frames w) (page_calls w)) as [[fs n] t].
  reflexivity.
Qed.

Lemma emits_evaluate_in_frames name script :
  (forall f, Q (name f)) -> emits Q (evaluate_in_frames page name script).
Proof.
  intros H w. rewrite trace_evaluate_in_frames.
  apply Forall_forall. intros e He.
  apply in_map_iff in He as (f & <- & _). apply H.
Qed.

Lemma trace_send_each name (fs : list FrameState) n :
  snd (send_each name fs n) = map name (map frame_id fs).
Proof.
  revert n; induction fs as [|f fs IH]; intro n; cbn; [reflexivity|].
  specialize (IH (S n)).
  destruct (send_each name fs (S n)) as [[fs' n'] t]; cbn in *.
  congruence.
Qed.

Lemma trace_restore w :
  trace (_restorePageAfterScreenshot page w)
  = map evaluate_restore (map frame_id (frames w)).
Proof.
  unfold _restorePageAfterScreenshot.
  pose proof (trace_send_each evaluate_restore (frames w) (page_calls w)) as H.
  destruct (send_each evaluate_restore (frames w) (page_calls w)) as [[fs n] t].
  exact H.
Qed.

Lemma returned_restore w :
  returned (_restorePageAfterScreenshot page w) = Ok tt.
Proof.
  unfold _restorePageAfterScreenshot.
  destruct (send_each evaluate_restore (frames w) (page_calls w)) as [[fs n] t].
  reflexivity.
Qed.

Lemma emits_restore :
  (forall f, Q (evaluate_restore f)) -> emits Q (_restorePageAfterScreenshot page).
Proof.
  intros H w. rewrite trace_restore.
  apply Forall_forall. intros e He.
  apply in_map_iff in He as (f & <- & _). apply H.
Qed.

Lemma emits_resolve_masks mask m :
  (forall f s, Q (resolveFrameForSelectorNoWait f s)) ->
  emits Q (resolve_masks page mask m).
Proof.
  intro H. revert m; induction mask as [|[f s] rest IH]; intro m; cbn.
  - apply emits_ret.
  - apply emits_alongside; [apply emits_call, H|apply IH].
Qed.

Lemma emits_mask_frames keys m :
  (forall f l, Q (maskSelectors f l)) -> emits Q (mask_frames page keys m).
Proof.
  intro H. induction keys as [|f rest IH]; cbn.
  - apply emits_ret.
  - apply emits_alongside; [apply emits_call, H|apply IH].
Qed.
End Emits.

(** Solves [emits Q m] for a straight-line [m], leaving what has to be
    known of the events and of bound values. *)
Ltac emits_step :=
  first
    [ apply emits_ret | apply emits_throw | apply emits_lift
    | apply emits_throwIfAborted
    | apply emits_when
    | apply emits_emit | apply emits_call
    | apply emits_evaluate_in_frames; intro
    | apply emits_resolve_masks; intros
    | apply emits_mask_frames; intros
    | apply emits_bind; [|intros ? ?] ].

(* ================================================================== *)
(** ** The mask coordinator *)
(* ================================================================== *)

Section Masks.
Variable page : Page.

Lemma returned_bindM_Ok {A B} (m : M A) (k : A -> M B) w b :
  returned (bindM m k w) = Ok b ->
  exists a, returned (m w) = Ok a /\ returned (k a (world (m w))) = Ok b.
Proof.
  rewrite returned_bindM. destruct (returned (m w)) as [a|e]; [|discriminate].
  intro H. exists a. auto.
Qed.

Lemma returned_alongside_Ok {A} (one : M unit) (others : M A) w a :
  returned (alongside one others w) = Ok a ->
  returned (one w) = Ok tt /\ returned (others (world (one w))) = Ok a.
Proof.
  rewrite returned_alongside. destruct (returned (one w)) as [[]|e]; [|discriminate].
  auto.
Qed.

(** Every selector stored for a frame was put there by [multimap_set]. *)
Lemma multimap_get_set k v m f p :
  In p (multimap_get f (multimap_set k v m)) ->
  In p (multimap_get f m) \/ (f = k /\ p = v).
Proof.
  induction m as [|[k' vs] rest IH]; cbn.
  - destruct (Nat.eqb f k) eqn:E; cbn; [|tauto].
    apply Nat.eqb_eq in E. intros [->|[]]. auto.
  - destruct (Nat.eqb k k') eqn:E; cbn.
    + apply Nat.eqb_eq in E; subst k'.
      destruct (Nat.eqb f k) eqn:E'; [|auto].
      apply Nat.eqb_eq in E'. intro H. apply in_app_or in H as [H|[->|[]]]; auto.
    + destruct (Nat.eqb f k'); auto.
Qed.

Lemma resolve_masks_returned mask : forall m0 w m all,
  returned (resolve_masks page mask m0 w) = Ok m ->
  from_resolved page all m0 -> incl mask all ->
  from_resolved page all m
  /\ ((forall f s, In (f, s) mask -> resolveFrameForSelector page f s = None) ->
      m = m0).
Proof.
  induction mask as [|[f s] rest IH]; intros m0 w m all; cbn [resolve_masks].
  - cbn. intros H F _. inversion H; subst. auto.
  - intros H F I. apply returned_alongside_Ok in H as (_ & H).
    apply IH with (all := all) in H.
    + destruct H as [H1 H2]. split; [exact H1|].
      intro N. rewrite H2 by (intros; apply N; right; assumption).
      rewrite (N f s) by (left; reflexivity). reflexivity.
    + destruct (resolveFrameForSelector page f s) as [[o parsed]|] eqn:R; [|exact F].
      intros f' p Hp. apply multimap_get_set in Hp as [Hp|[-> ->]]; [auto|].
      exists f, s. split; [apply I; left; reflexivity|exact R].
    + intros x Hx. apply I. right. exact Hx.
Qed.

Lemma mask_frames_events keys m w f sels :
  In (maskSelectors f sels) (trace (mask_frames page keys m w)) ->
  In f keys /\ sels = multimap_get f m.
Proof.
  revert w. induction keys as [|k rest IH]; intro w; cbn [mask_frames]; [intros []|].
  rewrite trace_alongside. cbn [call trace app In].
  intros [H|H]; [inversion H; cbn; auto|].
  apply IH in H. cbn. tauto.
Qed.

Lemma resolve_masks_events mask m w f sels :
  ~ In (maskSelectors f sels) (trace (resolve_masks page mask m w)).
Proof.
  pose proof (@emits_resolve_masks page (fun e => is_mask e = false) mask m
                (fun _ _ => eq_refl) w) as H.
  rewrite Forall_forall in H. intro I. apply H in I. discriminate I.
Qed.

(** What [_maskElements] does on a list of pairs. *)
Lemma maskElements_events options w f sels :
  In (maskSelectors f sels) (trace (_maskElements page options w)) ->
  exists pairs m,
    mask options = Some pairs
    /\ returned (resolve_masks page pairs [] w) = Ok m
    /\ In f (multimap_keys m) /\ sels = multimap_get f m.
Proof.
  unfold _maskElements.
  destruct (mask options) as [[|p rest]|] eqn:E; cbv beta iota; try (cbn; tauto).
  remember (p :: rest) as pairs. clear Heqpairs.
  rewrite trace_bindM. intro H. apply in_app_or in H as [H|H].
  - exfalso. eapply resolve_masks_events; exact H.
  - destruct (returned (resolve_masks page pairs [] w)) as [m|e] eqn:R; [|destruct H].
    exists pairs, m. split; [reflexivity|]. split; [exact R|].
    rewrite trace_bindM in H. cbn in H.
    destruct (aborted page _); [destruct H|].
    rewrite trace_bindM in H. apply in_app_or in H as [H|H].
    + eapply mask_frames_events; exact H.
    + destruct (returned (mask_frames page _ m _)); [|destruct H].
      cbn in H. destruct H as [H|[]]. discriminate H.
Qed.
End Masks.

Section MaskClaims.
(** C4, counterexample.  With the one pair [(frame 0, "#gone")] whose
    selector does not resolve, [_maskElements] masks nothing and returns
    [true]. *)
Lemma maskElements_true_without_mask :
  let r := _maskElements blank_page (masking default_options [(0, "#gone"%string)])
                         (initial_world []) in
  returned r = Ok true
  /\ existsb is_mask (trace r) = false
  /\ ~ reports_masks_applied r.
Proof.
  cbv zeta. split; [reflexivity|]. split; [reflexivity|].
  intro H. specialize (H true eq_refl). discriminate H.
Qed.

(** C4, amended.  [_maskElements] returns [true] exactly when the mask
    list is present and non-empty.  Pairs whose selector does not resolve
    are dropped: every selector it masks comes from a pair that resolved,
    under the frame that owns it; so a non-empty list in which no pair
    resolves applies no mask, and [true] is returned all the same. *)
Theorem maskElements_reports_nonempty_list
        (page : Page) (options : ScreenshotOptions) (w : World) :
  let r := _maskElements page options w in
  (forall b, returned r = Ok b ->
             b = match mask options with Some (_ :: _) => true | _ => false end)
  /\ (forall f sels p,
        In (maskSelectors f sels) (trace r) -> In p sels ->
        exists pairs f0 s0,
          mask options = Some pairs /\ In (f0, s0) pairs
          /\ resolveFrameForSelector page f0 s0 = Some (f, p))
  /\ ((forall pairs f s, mask options = Some pairs -> In (f, s) pairs ->
                         resolveFrameForSelector page f s = None) ->
      existsb is_mask (trace r) = false).
Proof.
  cbv zeta. split; [|split].
  - intros b. unfold _maskElements.
    destruct (mask options) as [[|p rest]|]; cbv beta iota;
      try (cbn; intro H; inversion H; reflexivity).
    intro H.
    repeat (apply returned_bindM_Ok in H as (? & _ & H)).
    cbn in H. inversion H. reflexivity.
  - intros f sels p H Hp.
    apply maskElements_events in H as (pairs & m & E & R & _ & ->).
    destruct (@resolve_masks_returned page pairs [] w m pairs R) as [F _].
    + intros ? ? [].
    + apply incl_refl.
    + destruct (F f p Hp) as (f0 & s0 & I & Rs).
      exists pairs, f0, s0. auto.
  - intro N.
    destruct (existsb is_mask (trace (_maskElements page options w))) eqn:X;
      [|reflexivity].
    apply existsb_exists in X as (e & I & M).
    destruct e; try discriminate M.
    apply maskElements_events in I as (pairs & m & E & R & K & _).
    destruct (@resolve_masks_returned page pairs [] w m pairs R) as [_ Z].
    + intros ? ? [].
    + apply incl_refl.
    + rewrite Z in K by (intros; eapply N; eauto). destruct K.
Qed.
End MaskClaims.

(* ================================================================== *)
(** ** Order of background override and masking *)
(* ================================================================== *)

Ltac emits_auto := repeat (emits_step; try reflexivity).

Section Phases.
Variable page : Page.

Lemma phased_bind_pre {A B} (m : M A) (k : A -> M B) :
  emits no_mask m -> (forall a, phased (k a)) -> phased (bindM m k).
Proof.
  intros Hm Hk w. rewrite trace_bindM.
  destruct (returned (m w)) as [a|e].
  - destruct (Hk a (world (m w))) as (pre & post & E & F1 & F2).
    exists (trace (m w) ++ pre), post. rewrite E, app_assoc.
    split; [reflexivity|]. split; [|exact F2].
    apply Forall_app. split; [apply Hm|exact F1].
  - exists (trace (m w)), []. split; [reflexivity|]. split; [apply Hm|constructor].
Qed.

Lemma phased_quiet {A} (m : M A) : emits no_override m -> phased m.
Proof.
  intros Hm w. exists [], (trace (m w)).
  split; [reflexivity|]. split; [constructor|apply Hm].
Qed.

Lemma phased_bind_post {A B} (m : M A) (k : A -> M B) :
  phased m -> (forall a, emits no_override (k a)) -> phased (bindM m k).
Proof.
  intros Hm Hk w. rewrite trace_bindM.
  destruct (Hm w) as (pre & post & E & F1 & F2).
  exists pre, (post ++ match returned (m w) with
                       | Ok a => trace (k a (world (m w)))
                       | Throw _ => []
                       end).
  rewrite E, app_assoc. split; [reflexivity|]. split; [exact F1|].
  apply Forall_app. split; [exact F2|].
  destruct (returned (m w)); [apply Hk|constructor].
Qed.

Lemma emits_maskElements (Q : event -> Prop) options :
  (forall f s, Q (resolveFrameForSelectorNoWait f s)) ->
  (forall f l, Q (maskSelectors f l)) ->
  Q (cleanupWhenAborted hide_highlight) ->
  emits Q (_maskElements page options).
Proof.
  intros H1 H2 H3. unfold _maskElements.
  destruct (mask options) as [[|p rest]|]; cbv beta iota;
    try apply emits_ret.
  emits_auto; auto.
Qed.

Lemma screenshot_phased format documentRect viewportRect fitsViewport options :
  phased (_screenshot page format documentRect viewportRect fitsViewport options).
Proof.
  unfold _screenshot.
  apply phased_bind_pre; [emits_auto|intros _].
  apply phased_bind_pre; [emits_auto|intros _].
  apply phased_bind_pre; [emits_auto|intros _].
  apply phased_bind_pre; [emits_auto|intros _].
  apply phased_quiet.
  apply emits_bind; [apply emits_maskElements; reflexivity|intros hasHighlight _].
  emits_auto.
Qed.

Lemma prepare_emits (Q : event -> Prop) options :
  (forall text, Q (progress_log text)) ->
  (forall f a b c, Q (evaluate_freeze f a b c)) ->
  Q (cleanupWhenAborted restore_page) ->
  emits Q (prepare page options).
Proof.
  intros H1 H2 H3. unfold prepare, _preparePageForScreenshot.
  emits_auto; auto.
Qed.

Lemma originalViewportSize_emits (Q : event -> Prop) :
  Q evaluate_viewport -> emits Q (_originalViewportSize page).
Proof.
  intro H. unfold _originalViewportSize.
  destruct (viewportSize page); emits_auto; auto.
Qed.

Lemma restore_emits (Q : event -> Prop) :
  (forall f, Q (evaluate_restore f)) -> emits Q (_restorePageAfterScreenshot page).
Proof. apply emits_restore. Qed.

Lemma screenshotPage_task_phased format options :
  phased (screenshotPage_task page format options).
Proof.
  unfold screenshotPage_task.
  apply phased_bind_pre; [emits_auto|intros _].
  apply phased_bind_pre; [apply originalViewportSize_emits; reflexivity|intros sizes].
  apply phased_bind_pre; [apply prepare_emits; reflexivity|intros _].
  apply phased_bind_pre; [emits_auto|intros _].
  destruct (fullPage options).
  - apply phased_bind_pre; [unfold _fullPageSize; emits_auto|intros [fullPageSize|]].
    + apply phased_bind_pre; [destruct (clip options); emits_auto|intros documentRect].
      apply phased_bind_post; [apply screenshot_phased|intros buffer].
      apply emits_bind; [emits_auto|intros _ _].
      apply emits_bind; [apply restore_emits; reflexivity|intros _ _].
      emits_auto.
    + apply phased_quiet. emits_auto.
  - apply phased_bind_pre; [destruct (clip options); emits_auto|intros viewportRect].
    apply phased_bind_post; [apply screenshot_phased|intros buffer].
    apply emits_bind; [emits_auto|intros _ _].
    apply emits_bind; [apply restore_emits; reflexivity|intros _ _].
    emits_auto.
Qed.

Lemma screenshotElement_task_phased format options :
  phased (screenshotElement_task page format options).
Proof.
  unfold screenshotElement_task.
  apply phased_bind_pre; [emits_auto|intros _].
  apply phased_bind_pre; [apply originalViewportSize_emits; reflexivity|intros sizes].
  apply phased_bind_pre; [apply prepare_emits; reflexivity|intros _].
  do 4 (apply phased_bind_pre; [emits_auto|intros _]).
  destruct (handle_boundingBox page) as [box|].
  - do 4 (apply phased_bind_pre; [emits_auto|intros _]).
    apply phased_bind_post; [apply screenshot_phased|intros buffer].
    apply emits_bind; [emits_auto|intros _ _].
    apply emits_bind; [apply restore_emits; reflexivity|intros _ _].
    emits_auto.
  - apply phased_quiet. emits_auto.
Qed.

Lemma override_then_mask_order (t : list event) :
  override_then_mask t -> ~ precedes is_mask is_background_override t.
Proof.
  intros (pre & post & E & F1 & F2) (t1 & e1 & t2 & e2 & t3 & E' & M & O).
  rewrite E' in E. symmetry in E.
  apply app_eq_app in E as (l & [[E1 E2]|[E1 E2]]).
  - (* the mask event would lie in the part without masks *)
    destruct l as [|x l].
    + rewrite app_nil_r in E1. subst pre. cbn in E2. subst post.
      rewrite Forall_forall in F2.
      assert (I : In e2 (e1 :: t2 ++ e2 :: t3))
        by (right; apply in_or_app; right; left; reflexivity).
      apply F2 in I. congruence.
    + cbn in E2. inversion E2; subst x.
      rewrite E1 in F1. rewrite Forall_forall in F1.
      assert (I : In e1 (t1 ++ e1 :: l)) by (apply in_or_app; right; left; reflexivity).
      apply F1 in I. unfold no_mask in I. congruence.
  - subst post. rewrite Forall_forall in F2.
    assert (I : In e2 (l ++ e1 :: t2 ++ e2 :: t3)).
    { apply in_or_app; right; right; apply in_or_app; right; left; reflexivity. }
    apply F2 in I. congruence.
Qed.
End Phases.

Section OrderClaims.
(** C5, counterexample.  A page capture with [omitBackground] and one
    resolving mask sets the transparent background, and only afterwards
    applies the mask: the override precedes the masking. *)
Lemma background_override_precedes_mask :
  let options :=
    masking (omitting_background default_options) [(0, "#ad"%string)] in
  validateScreenshotOptions options = Ok png
  /\ precedes is_background_override is_mask
       (trace (screenshotPage_task resolving_page png options
                                   (initial_world [main_frame]))).
Proof.
  cbv zeta. split; [reflexivity|].
  exists [progress_log "taking page screenshot";
          evaluate_freeze 0 true false false;
          cleanupWhenAborted restore_page],
    (setBackgroundColor true),
    [cleanupWhenAborted default_background;
     resolveFrameForSelectorNoWait 0 "#ad"%string],
    (maskSelectors 0 ["#ad"%string]),
    [cleanupWhenAborted hide_highlight;
     takeScreenshot png None (Some (Rect.mk 0 0 800 600)) VUndefined true size_device;
     hideHighlight; setBackgroundColor false; evaluate_restore 0].
  split; [vm_compute; reflexivity|]. split; reflexivity.
Qed.

(** C5, amended.  Within every capture task, of a page or of an element,
    the transparent-background override is set before masks are applied:
    masking never precedes the override. *)
Theorem mask_never_precedes_background_override
        (page : Page) (capture : Capture) (w : World) :
  ~ precedes is_mask is_background_override (trace (run_capture page capture w)).
Proof.
  apply override_then_mask_order.
  destruct capture as [format options|format options]; cbn.
  - apply screenshotPage_task_phased.
  - apply screenshotElement_task_phased.
Qed.
End OrderClaims.

(* ================================================================== *)
(** ** The rects handed to the capture primitive *)
(* ================================================================== *)

Section CapturedRects.
Local Open Scope Q_scope.
Variable page : Page.
Variable P : option Rect.t -> Prop.



Lemma yields_lift {A} (r : result A) (a : A) : yields (lift r) a -> r = Ok a.
Proof. intros [w H]. exact H. Qed.



End CapturedRects.

Section EnclosingIntRect.
Local Open Scope Q_scope.

End EnclosingIntRect.

Section CapturedRectClaims.
Local Open Scope Q_scope.



End CapturedRectClaims.

(* ================================================================== *)
(** ** Capturing an element of zero width *)
(* ================================================================== *)

Section Failing.
Variable page : Page.

Lemma fails_bind_later {A B} (m : M A) (k : A -> M B) :
  (forall a, fails (k a)) -> fails (bindM m k).
Proof.
  intros H w. rewrite returned_bindM.
  destruct (returned (m w)); [apply H|reflexivity].
Qed.

Lemma fails_bind_now {A B} (m : M A) (k : A -> M B) :
  fails m -> fails (bindM m k).
Proof.
  intros H w. rewrite returned_bindM. specialize (H w).
  destruct (returned (m w)); [discriminate H|reflexivity].
Qed.

Lemma throws_only_bind {A B} (E : error -> Prop) (m : M A) (k : A -> M B) :
  throws_only E m -> (forall a, throws_only E (k a)) -> throws_only E (bindM m k).
Proof.
  intros Hm Hk w e. rewrite returned_bindM.
  destruct (returned (m w)) as [a|e'] eqn:R.
  - apply Hk.
  - intro H; inversion H; subst. eapply Hm; exact R.
Qed.

Lemma throws_only_ok {A} (E : error -> Prop) (m : M A) :
  (forall w, failed (returned (m w)) = false) -> throws_only E m.
Proof.
  intros H w e R. specialize (H w). rewrite R in H. discriminate H.
Qed.

Lemma prepare_returns options w : returned (prepare page options w) = Ok tt.
Proof.
  unfold prepare, _preparePageForScreenshot.
  rewrite !returned_bindM.
  destruct (disableAnimations options), (waitForFonts options); cbn;
    rewrite returned_evaluate_in_frames; reflexivity.
Qed.

Lemma prepare_freezes options w f :
  In f (frames w) ->
  In (evaluate_freeze (frame_id f) (hideCaret options) (disableAnimations options)
                      (waitForFonts options))
     (trace (prepare page options w)).
Proof.
  intro I. unfold prepare, _preparePageForScreenshot.
  assert (J : forall w', frames w' = frames w ->
              In (evaluate_freeze (frame_id f) (hideCaret options)
                    (disableAnimations options) (waitForFonts options))
                 (trace (evaluate_in_frames page
                           (fun f => evaluate_freeze f (hideCaret options)
                                       (disableAnimations options) (waitForFonts options))
                           (fun f => freeze (hideCaret options) (disableAnimations options)
                                       (waitForFonts options) (getAnimations f)) w'))).
  { intros w' E. rewrite trace_evaluate_in_frames, E.
    apply in_map_iff. exists (frame_id f). split; [reflexivity|].
    apply in_map. exact I. }
  rewrite !trace_bindM.
  destruct (disableAnimations options), (waitForFonts options); cbn;
    rewrite ?returned_evaluate_in_frames; cbn;
    repeat (apply in_or_app; first [left; apply J; reflexivity | right]);
    repeat (first [apply J; reflexivity | right]);
    repeat (apply in_or_app; first [left; apply J; reflexivity | right]).
Qed.
End Failing.

Section ZeroWidth.
Local Open Scope Q_scope.
Variable page : Page.

Lemma fails_lift_Throw {A} (e : error) : fails (@lift A (Throw e)).
Proof. intro w; reflexivity. Qed.

Lemma throws_only_bind_now {A B} (E : error -> Prop) (m : M A) (k : A -> M B) :
  fails m -> throws_only E m -> throws_only E (bindM m k).
Proof.
  intros F H w e. rewrite returned_bindM. specialize (F w).
  destruct (returned (m w)) as [a|e'] eqn:R; [discriminate F|].
  intro X; inversion X; subst. eapply H; exact R.
Qed.

Lemma in_trace_bind_now {A B} (m : M A) (k : A -> M B) w e :
  In e (trace (m w)) -> In e (trace (bindM m k w)).
Proof. intro I. rewrite trace_bindM. apply in_or_app; left; exact I. Qed.

Lemma in_trace_bind_later {A B} (m : M A) (k : A -> M B) w a e :
  returned (m w) = Ok a -> In e (trace (k a (world (m w)))) ->
  In e (trace (bindM m k w)).
Proof.
  intros R I. rewrite trace_bindM, R. apply in_or_app; right; exact I.
Qed.

Lemma originalViewportSize_returns w :
  (forall n, rejects page n = false) ->
  exists sizes, returned (_originalViewportSize page w) = Ok sizes
                /\ frames (world (_originalViewportSize page w)) = frames w.
Proof.
  intro Hrej. unfold _originalViewportSize.
  destruct (viewportSize page).
  - eexists; split; reflexivity.
  - eexists. rewrite returned_bindM, world_bindM. cbn. rewrite Hrej. cbn.
    split; reflexivity.
Qed.

Variable box : Rect.t.
Hypothesis has_box : handle_boundingBox page = Some box.
Hypothesis zero_width : Rect.width box == 0.

Lemma zero_width_assert :
  assert (negb (Qeq_bool (Rect.width box) 0)) [Lit "Node has 0 width."]
  = Throw zero_width_error.
Proof.
  apply Qeq_bool_iff in zero_width. rewrite zero_width. reflexivity.
Qed.

Lemma zero_width_fails format options :
  fails (screenshotElement_task page format options).
Proof.
  unfold screenshotElement_task. rewrite has_box, zero_width_assert.
  do 7 (apply fails_bind_later; intro).
  apply fails_bind_now, fails_lift_Throw.
Qed.

Lemma zero_width_no_capture format options :
  emits (fun e => capture_phase e = false)
        (screenshotElement_task page format options).
Proof.
  unfold screenshotElement_task. rewrite has_box, zero_width_assert.
  apply emits_bind; [emits_auto|intros _ _].
  apply emits_bind; [apply originalViewportSize_emits; reflexivity|intros sizes _].
  apply emits_bind; [apply prepare_emits; reflexivity|intros _ _].
  do 4 (apply emits_bind; [emits_auto|intros _ _]).
  apply emits_bind; [emits_auto|intros a Ha].
  apply yields_lift in Ha. discriminate Ha.
Qed.

Hypothesis never_aborted : forall n, aborted page n = false.
Hypothesis never_rejects : forall n, rejects page n = false.

Lemma call_returns e w : returned (call page e w) = Ok tt.
Proof. cbn. rewrite never_rejects. reflexivity. Qed.

Lemma throwIfAborted_returns w : returned (throwIfAborted page w) = Ok tt.
Proof. cbn. rewrite never_aborted. reflexivity. Qed.

Lemma zero_width_throws format options :
  throws_only (eq zero_width_error) (screenshotElement_task page format options).
Proof.
  unfold screenshotElement_task. rewrite has_box, zero_width_assert.
  apply throws_only_bind; [apply throws_only_ok; reflexivity|intros _].
  apply throws_only_bind.
  { apply throws_only_ok. intro w.
    destruct (originalViewportSize_returns w never_rejects) as (s & -> & _).
    reflexivity. }
  intros sizes.
  apply throws_only_bind.
  { apply throws_only_ok. intro w. rewrite prepare_returns. reflexivity. }
  intros _.
  apply throws_only_bind.
  { apply throws_only_ok. intro w. rewrite throwIfAborted_returns. reflexivity. }
  intros _.
  apply throws_only_bind.
  { apply throws_only_ok. intro w. rewrite call_returns. reflexivity. }
  intros _.
  apply throws_only_bind.
  { apply throws_only_ok. intro w. rewrite throwIfAborted_returns. reflexivity. }
  intros _.
  apply throws_only_bind.
  { apply throws_only_ok. intro w. rewrite call_returns. reflexivity. }
  intros _.
  apply throws_only_bind_now; [apply fails_lift_Throw|].
  intros w e H. inversion H. reflexivity.
Qed.

Lemma zero_width_after_freeze format options w f :
  In f (frames w) ->
  In (evaluate_freeze (frame_id f) (hideCaret options) (disableAnimations options)
                      (waitForFonts options))
     (trace (screenshotElement_task page format options w)).
Proof.
  intro I. unfold screenshotElement_task.
  eapply in_trace_bind_later; [reflexivity|]. cbn [emit world].
  destruct (originalViewportSize_returns w never_rejects) as (s & R & F).
  eapply in_trace_bind_later; [exact R|].
  apply in_trace_bind_now. apply prepare_freezes. rewrite F. exact I.
Qed.

Lemma zero_width_after_scroll format options w :
  In scrollIntoViewIfNeeded (trace (screenshotElement_task page format options w)).
Proof.
  unfold screenshotElement_task.
  eapply in_trace_bind_later; [reflexivity|]. cbn [emit world].
  destruct (originalViewportSize_returns w never_rejects) as (s & R & F).
  eapply in_trace_bind_later; [exact R|].
  eapply in_trace_bind_later; [apply prepare_returns|].
  eapply in_trace_bind_later; [apply throwIfAborted_returns|].
  apply in_trace_bind_now. left. reflexivity.
Qed.
End ZeroWidth.

Section ZeroWidthClaims.
Local Open Scope Q_scope.

(** C3, counterexample.  On an element whose box is 0 wide the capture
    fails with "Node has 0 width." only after the freeze script has run
    in the frame (its caret style sheet is attached) and the element has
    been scrolled into view. *)
Lemma zero_width_element_fails_after_mutation :
  let r := screenshotElement_task (page_with_box (Rect.mk 10 10 0 5)) png
                                  default_options (initial_world [main_frame]) in
  returned r = Throw (Error [Lit "Node has 0 width."])
  /\ trace r = [progress_log "taking element screenshot";
                evaluate_freeze 0%nat true false false;
                cleanupWhenAborted restore_page;
                scrollIntoViewIfNeeded;
                query_boundingBox]
  /\ map (fun f => styles (realm f)) (frames (world r)) = [[0%nat]]
  /\ ~ fails_before_mutation r.
Proof.
  cbv zeta. repeat split; try reflexivity.
  intros [_ H]. vm_compute in H. discriminate H.
Qed.

(** C3, amended.  [screenshotElement] on an element of zero width always
    fails, and fails before the capture proper: no background override,
    no selector resolution or masking, no [takeScreenshot], no restore.
    It does not fail before the page is touched: when nothing aborts or
    rejects on the way, the failure is "Node has 0 width." and it comes
    after the freeze script has been evaluated in every frame and the
    element has been scrolled into view. *)
Theorem zero_width_element_fails_after_freeze
        (page : Page) (format : Format) (options : ScreenshotOptions)
        (w : World) (box : Rect.t) :
  handle_boundingBox page = Some box ->
  Rect.width box == 0 ->
  let r := screenshotElement_task page format options w in
  failed (returned r) = true
  /\ Forall (fun e => capture_phase e = false) (trace r)
  /\ ((forall n, aborted page n = false) ->
      (forall n, rejects page n = false) ->
      returned r = Throw (Error [Lit "Node has 0 width."])
      /\ (forall f, In f (frames w) ->
                    In (evaluate_freeze (frame_id f) (hideCaret options)
                                        (disableAnimations options)
                                        (waitForFonts options))
                       (trace r))
      /\ In scrollIntoViewIfNeeded (trace r)).
Proof.
  intros B Z r.
  pose proof (@zero_width_fails page box B Z format options w) as F.
  fold r in F.
  split; [exact F|]. split.
  - apply (@zero_width_no_capture page box B Z format options w).
  - intros Hab Hrej. split; [|split].
    + destruct (returned r) as [a|e] eqn:R; [discriminate F|].
      f_equal. symmetry.
      exact (@zero_width_throws page box B Z Hab Hrej format options w e R).
    + intros f I. apply zero_width_after_freeze; assumption.
    + apply zero_width_after_scroll; assumption.
Qed.

Lemma zero_width_element_fails_after_freeze_witness :
  let r := screenshotElement_task (page_with_box (Rect.mk 10 10 0 5)) jpeg
                                  default_options (initial_world [main_frame]) in
  failed (returned r) = true
  /\ Forall (fun e => capture_phase e = false) (trace r)
  /\ ((forall n, aborted (page_with_box (Rect.mk 10 10 0 5)) n = false) ->
      (forall n, rejects (page_with_box (Rect.mk 10 10 0 5)) n = false) ->
      returned r = Throw (Error [Lit "Node has 0 width."])
      /\ (forall f, In f (frames (initial_world [main_frame])) ->
                    In (evaluate_freeze (frame_id f) (hideCaret default_options)
                                        (disableAnimations default_options)
                                        (waitForFonts default_options))
                       (trace r))
      /\ In scrollIntoViewIfNeeded (trace r)).
Proof.
  apply (@zero_width_element_fails_after_freeze
           (page_with_box (Rect.mk 10 10 0 5)) jpeg default_options
           (initial_world [main_frame]) (Rect.mk 10 10 0 5)).
  - reflexivity.
  - reflexivity.
Defined.
End ZeroWidthClaims.

(* ================================================================== *)
(** ** Validation before the queue *)
(* ================================================================== *)

Section ValidationClaims.

(** An empty [type] is not "present" for the validator: [if (options.type)]
    asks for a truthy value. *)
Example empty_type_defaults_to_png :
  validateScreenshotOptions
    {| type := VString EmptyString; quality := VUndefined; omitBackground := false;
       animations := None; mask := None; fullPage := false; clip := None;
       size := None; fonts := None; caret := None;
       __testHookBeforeScreenshot := false; __testHookAfterScreenshot := false |}
  = Ok png.
Proof. reflexivity. Qed.

(** C6.  Validation fails exactly when the type is present (truthy, as the
    source asks) and is neither png nor jpeg; or the quality is set
    ([!== undefined]) while the format is not jpeg, or is not a number, not
    an integer, or outside [0,100]; or the clip is present and one of its
    four fields is not a number, or its width or height is 0.  On success
    the format is returned, png unless the type says jpeg.  Validation runs
    before anything is posted: an invalid call rejects and leaves the queue
    exactly as it was, a valid one posts its task. *)
Theorem validation_fails_exactly_when
        (options : ScreenshotOptions) (q : Runtime Capture) :
  failed (validateScreenshotOptions options) = invalid_options options
  /\ (forall format, validateScreenshotOptions options = Ok format ->
                     format = if is_string (type options) "jpeg" then jpeg else png)
  /\ (invalid_options options = true ->
      failed (fst (screenshotPage options q)) = true
      /\ snd (screenshotPage options q) = q
      /\ failed (fst (screenshotElement options q)) = true
      /\ snd (screenshotElement options q) = q)
  /\ (invalid_options options = false ->
      exists format,
        validateScreenshotOptions options = Ok format
        /\ screenshotPage options q
           = (Ok (fst (postTask (page_capture format options) q)),
              snd (postTask (page_capture format options) q))
        /\ screenshotElement options q
           = (Ok (fst (postTask (element_capture format options) q)),
              snd (postTask (element_capture format options) q))).
Proof.
  pose proof (validate_failed options) as F.
  split; [exact F|]. split; [apply validate_format|]. split.
  - intro I. rewrite I in F. unfold screenshotPage, screenshotElement.
    destruct (validateScreenshotOptions options); [discriminate F|].
    cbn. auto.
  - intro I. rewrite I in F. unfold screenshotPage, screenshotElement.
    destruct (validateScreenshotOptions options) as [format|]; [|discriminate F].
    exists format. split; [reflexivity|].
    destruct (postTask (page_capture format options) q) as [p1 q1].
    destruct (postTask (element_capture format options) q) as [p2 q2].
    split; reflexivity.
Qed.

End ValidationClaims.

(* ================================================================== *)
(** ** The cleanup handle *)
(* ================================================================== *)

Section Cleanup.

Lemma restore_idempotent (w : Realm) : restore (restore w) = restore w.
Proof.
  unfold restore.
  destruct (__cleanupScreenshot w) as [k|] eqn:E; [|rewrite E; reflexivity].
  unfold cleanup.
  destruct (nth_error (installations w) k) eqn:N.
  - reflexivity.
  - rewrite E, N. reflexivity.
Qed.

Lemma restore_absent (w : Realm) : __cleanupScreenshot w = None -> restore w = w.
Proof. unfold restore. intros ->. reflexivity. Qed.

Lemma removeEventListener_spec (l x : Listener) (ls : list Listener) :
  In x (removeEventListener l ls) <-> In x ls /\ listener_eqb l x = false.
Proof.
  unfold removeEventListener. rewrite filter_In, negb_true_iff. tauto.
Qed.

(** Running the detach callbacks of installation [k] for [roots] leaves
    exactly the listeners that are not [k]'s handler on one of them. *)
Lemma detach_spec (k : nat) (roots : list RootId) : forall (ls : list Listener) x,
  In x (detach k roots ls)
  <-> In x ls /\ ~ (owner x = k /\ In (l_root x) roots).
Proof.
  unfold detach.
  induction roots as [|root rest IH]; intros ls x; cbn.
  - tauto.
  - rewrite IH, !removeEventListener_spec. unfold listener_eqb; cbn.
    destruct x as [xr xe xo]; cbn.
    destruct (Nat.eqb_spec root xr) as [->|Nr], (Nat.eqb_spec k xo) as [->|No];
      destruct xe; cbn; intuition congruence.
Qed.

Lemma addEventListener_spec (l x : Listener) (ls : list Listener) :
  In x (addEventListener l ls) -> In x ls \/ x = l.
Proof.
  unfold addEventListener. destruct (existsb (listener_eqb l) ls); [auto|].
  intro H. apply in_app_or in H as [H|[H|[]]]; auto.
Qed.

(** The listeners and callbacks the freeze loop leaves behind. *)
Lemma freeze_roots_listeners k g roots : forall resume calls ls callbacks,
  let '(_, _, ls', callbacks') := freeze_roots k g roots resume calls ls callbacks in
  callbacks' = callbacks ++ roots
  /\ forall x, In x ls' -> In x ls \/ (owner x = k /\ In (l_root x) roots).
Proof.
  induction roots as [|root rest IH]; intros resume calls ls callbacks; cbn.
  - rewrite app_nil_r. auto.
  - destruct (handleAnimations (g root) resume calls) as [resume' calls'].
    specialize (IH resume' calls'
                   (addEventListener {| l_root := root; l_event := animationstart; owner := k |}
                      (addEventListener {| l_root := root; l_event := transitionrun; owner := k |} ls))
                   (callbacks ++ [root])).
    destruct (freeze_roots k g rest resume' calls' _ _) as [[[r c] ls'] cb'].
    destruct IH as [-> IH]. rewrite <- app_assoc. split; [reflexivity|].
    intros x Hx. apply IH in Hx as [Hx|[Ho Hr]]; [|auto].
    apply addEventListener_spec in Hx as [Hx| ->]; [|cbn; auto].
    apply addEventListener_spec in Hx as [Hx| ->]; cbn; auto.
Qed.

End Cleanup.

(* ================================================================== *)
(** ** The animation handler *)
(* ================================================================== *)

Section Handler.

Lemma set_has_recorded (s : AnimSet) (a : Animation) :
  set_has s a = recorded (anim_id a) s.
Proof. reflexivity. Qed.

Lemma recorded_app (a : AnimId) (s t : AnimSet) :
  recorded a (s ++ t) = recorded a s || recorded a t.
Proof. apply existsb_app. Qed.

Lemma cancelled_times_app (a : AnimId) (c d : list AnimCall) :
  cancelled_times a (c ++ d) = cancelled_times a c + cancelled_times a d.
Proof. unfold cancelled_times. rewrite filter_app, length_app. reflexivity. Qed.

(** The handler only appends to the calls made so far. *)
Lemma handleAnimations_calls (animations : list Animation) :
  forall (s : AnimSet) (base : list AnimCall),
    handleAnimations animations s base
    = (fst (handleAnimations animations s []),
       base ++ snd (handleAnimations animations s [])).
Proof.
  induction animations as [|a rest IH]; intros s base; cbn.
  - rewrite app_nil_r. reflexivity.
  - destruct (effect a) as [eff|]; [|apply IH].
    destruct (Qeq_bool (playbackRate a) 0 || set_has s a); [apply IH|].
    destruct (Number_isFinite (endTime eff)); [|destruct (cancel_throws a)];
      rewrite IH; symmetry; rewrite IH; cbn; rewrite <- app_assoc; reflexivity.
Qed.

(** One run of the handler, from a set [s] and no calls: a cancel that
    goes through is made on an animation exactly when the run records it,
    and never on one recorded before; the set only grows. *)
Lemma handleAnimations_cancels (animations : list Animation) :
  forall (s : AnimSet) (a : AnimId),
    let '(s', calls) := handleAnimations animations s [] in
    cancelled_times a calls + (if recorded a s then 1 else 0)
    = (if recorded a s' then 1 else 0).
Proof.
  induction animations as [|x rest IH]; intros s a; cbn.
  - destruct (recorded a s); reflexivity.
  - destruct (effect x) as [eff|]; [|apply IH].
    destruct (Qeq_bool (playbackRate x) 0); cbn [orb]; [apply IH|].
    destruct (set_has s x) eqn:H; [apply IH|].
    destruct (Number_isFinite (endTime eff)); [|destruct (cancel_throws x)];
      rewrite handleAnimations_calls; cbn [fst snd].
    + specialize (IH s a). destruct (handleAnimations rest s []) as [s' calls].
      rewrite cancelled_times_app. exact IH.
    + specialize (IH s a). destruct (handleAnimations rest s []) as [s' calls].
      rewrite cancelled_times_app.
      unfold cancelled_times at 1, is_cancel_of; cbn.
      rewrite andb_false_r. exact IH.
    + specialize (IH (set_add s x) a).
      destruct (handleAnimations rest (set_add s x) []) as [s' calls].
      rewrite cancelled_times_app. cbn [fst snd]. rewrite <- IH.
      unfold set_add. rewrite H, recorded_app. cbn.
      unfold cancelled_times at 1, is_cancel_of; cbn.
      rewrite set_has_recorded in H.
      destruct (Nat.eqb_spec (anim_id x) a) as [E|N]; cbn.
      * rewrite E in H. rewrite H. cbn. unfold cancelled_times, is_cancel_of. lia.
      * rewrite orb_false_r. unfold cancelled_times, is_cancel_of. lia.
Qed.

Lemma handleAnimations_grows (animations : list Animation) :
  forall (s : AnimSet) (a : AnimId),
    recorded a s = true -> recorded a (fst (handleAnimations animations s [])) = true.
Proof.
  intros s a H. pose proof (handleAnimations_cancels animations s a) as C.
  destruct (handleAnimations animations s []) as [s' calls]. cbn [fst].
  rewrite H in C. destruct (recorded a s'); [reflexivity|lia].
Qed.

(** Every call of one run is a [finish] or a [cancel], on an eligible
    animation of the list that was not recorded when the run began. *)
Lemma handleAnimations_targets (animations : list Animation) :
  forall (s : AnimSet) (c : AnimCall),
    In c (snd (handleAnimations animations s [])) ->
    method c <> play
    /\ recorded (target c) s = false
    /\ exists x, In x animations /\ anim_id x = target c /\ eligible x = true.
Proof.
  induction animations as [|x rest IH]; intros s c; cbn; [tauto|].
  assert (Later : forall s', (forall a, recorded a s = true -> recorded a s' = true) ->
                  In c (snd (handleAnimations rest s' [])) ->
                  method c <> play /\ recorded (target c) s = false
                  /\ exists y, In y (x :: rest) /\ anim_id y = target c /\ eligible y = true).
  { intros s' G I. apply IH in I as (M & R & y & Iy & Ey & Ly).
    split; [exact M|]. split.
    - destruct (recorded (target c) s) eqn:E; [|reflexivity].
      apply G in E. congruence.
    - exists y. split; [right; exact Iy|auto]. }
  unfold eligible in *.
  destruct (effect x) as [eff|] eqn:Ex; [|apply Later; auto].
  destruct (Qeq_bool (playbackRate x) 0) eqn:Ep; cbn [orb]; [apply Later; auto|].
  destruct (set_has s x) eqn:H; [apply Later; auto|].
  rewrite set_has_recorded in H.
  assert (Here : forall m t, c = {| method := m; target := anim_id x; threw := t |} ->
                 m <> play ->
                 method c <> play /\ recorded (target c) s = false
                 /\ exists y, In y (x :: rest) /\ anim_id y = target c
                              /\ match effect y with
                                 | Some _ => negb (Qeq_bool (playbackRate y) 0)
                                 | None => false
                                 end = true).
  { intros m t -> Hm. cbn. split; [exact Hm|]. split; [exact H|].
    exists x. split; [left; reflexivity|]. split; [reflexivity|].
    rewrite Ex, Ep. reflexivity. }
  destruct (Number_isFinite (endTime eff)); [|destruct (cancel_throws x)];
    rewrite handleAnimations_calls; cbn [fst snd]; intro I;
    apply in_app_or in I as [[I|[]]|I];
    try (eapply Here; [symmetry; exact I|discriminate]);
    try (apply Later in I; [exact I|auto]).
  intros a Ha. unfold set_add. rewrite set_has_recorded, H, recorded_app, Ha.
  reflexivity.
Qed.

End Handler.

Section HandlerRuns.

Lemma handle_all_app (l1 l2 : list (list Animation)) (st : AnimSet * list AnimCall) :
  handle_all (l1 ++ l2) st = handle_all l2 (handle_all l1 st).
Proof. apply fold_left_app. Qed.

(** Any number of runs of the handler of one installation, from the set
    [s]: what they add to the calls made before. *)
Lemma handle_all_spec (lists : list (list Animation)) :
  forall (s : AnimSet) (base : list AnimCall),
  exists s' new,
    handle_all lists (s, base) = (s', base ++ new)
    /\ (forall a, cancelled_times a new + (if recorded a s then 1 else 0)
                  = (if recorded a s' then 1 else 0))
    /\ (forall c, In c new ->
          method c <> play
          /\ recorded (target c) s = false
          /\ exists l x, In l lists /\ In x l /\ anim_id x = target c
                         /\ eligible x = true).
Proof.
  induction lists as [|l rest IH]; intros s base.
  - exists s, []. cbn. rewrite app_nil_r. split; [reflexivity|].
    split; [intro a; destruct (recorded a s); reflexivity|intros c []].
  - cbn. rewrite handleAnimations_calls.
    pose proof (handleAnimations_cancels l s) as C1.
    pose proof (handleAnimations_targets l s) as T1.
    pose proof (handleAnimations_grows l s) as G1.
    destruct (handleAnimations l s []) as [s1 n1]. cbn [fst snd] in *.
    destruct (IH s1 (base ++ n1)) as (s' & n2 & E & C2 & T2).
    exists s', (n1 ++ n2). rewrite app_assoc. split; [exact E|]. split.
    + intro a. rewrite cancelled_times_app. specialize (C1 a). specialize (C2 a). lia.
    + intros c I. apply in_app_or in I as [I|I].
      * apply T1 in I as (M & R & x & Ix & Ex & Lx).
        split; [exact M|]. split; [exact R|]. exists l, x. cbn. auto.
      * apply T2 in I as (M & R & l' & x & Il & Ix & Ex & Lx).
        split; [exact M|]. split.
        -- destruct (recorded (target c) s) eqn:Rs; [|reflexivity].
           apply G1 in Rs. congruence.
        -- exists l', x. cbn. auto.
Qed.

Lemma freeze_roots_handles k g roots : forall resume calls ls callbacks,
  let '(resume', calls', _, _) := freeze_roots k g roots resume calls ls callbacks in
  (resume', calls') = handle_all (map g roots) (resume, calls).
Proof.
  induction roots as [|root rest IH]; intros resume calls ls callbacks; cbn.
  - reflexivity.
  - destruct (handleAnimations (g root) resume calls) as [resume1 calls1]. cbn.
    apply IH.
Qed.

Lemma nth_error_replace_same {A} (k : nat) (a : A) (l : list A) :
  k < List.length l -> nth_error (replace k a l) k = Some a.
Proof.
  intro H. unfold replace.
  rewrite nth_error_app2; rewrite length_firstn, Nat.min_l by lia; [|lia].
  rewrite Nat.sub_diag. reflexivity.
Qed.

Lemma nth_error_replace_other {A} (k j : nat) (a : A) (l : list A) :
  j <> k -> k < List.length l ->
  nth_error (replace k a l) j = nth_error l j.
Proof.
  intros N H. unfold replace.
  destruct (Nat.lt_ge_cases j k) as [L|G].
  - rewrite nth_error_app1 by (rewrite length_firstn; lia).
    rewrite nth_error_firstn. destruct (Nat.ltb_spec j k); [reflexivity|lia].
  - rewrite nth_error_app2 by (rewrite length_firstn; lia).
    rewrite length_firstn, Nat.min_l by lia.
    destruct (j - k) as [|d] eqn:D; [lia|].
    change (nth_error (a :: skipn (S k) l) (S d)) with (nth_error (skipn (S k) l) d).
    rewrite nth_error_skipn. f_equal. lia.
Qed.

Lemma length_replace {A} (k : nat) (a : A) (l : list A) :
  k < List.length l -> List.length (replace k a l) = List.length l.
Proof.
  intro H. unfold replace.
  rewrite length_app, length_firstn, Nat.min_l by lia.
  change (List.length (a :: skipn (S k) l)) with (S (List.length (skipn (S k) l))).
  rewrite length_skipn. lia.
Qed.

Lemma nth_error_set_installation (k : nat) (i : Installation) (l : list Installation) :
  k < List.length l -> nth_error (set_installation k i l) k = Some i.
Proof. apply nth_error_replace_same. Qed.

Lemma nth_error_set_installation_other (k j : nat) (i : Installation)
      (l : list Installation) :
  j <> k -> k < List.length l ->
  nth_error (set_installation k i l) j = nth_error l j.
Proof. apply nth_error_replace_other. Qed.

Lemma same_frame_refl (w : Realm) : same_frame w w.
Proof. repeat split. intros j i H. exists i. auto. Qed.

Lemma same_frame_trans (w1 w2 w3 : Realm) :
  same_frame w1 w2 -> same_frame w2 w3 -> same_frame w1 w3.
Proof.
  intros (L1 & S1 & C1 & I1) (L2 & S2 & C2 & I2).
  repeat split; try congruence.
  intros j i H. apply I1 in H as (i' & H & T & B).
  apply I2 in H as (i'' & H & T' & B'). exists i''. repeat split; congruence.
Qed.

Lemma dispatch_to_frame (handlers : list Listener) (animations : list Animation) :
  forall w, same_frame w (dispatch_to handlers animations w).
Proof.
  induction handlers as [|l rest IH]; intro w; cbn; [apply same_frame_refl|].
  destruct (nth_error (installations w) (owner l)) as [inst|] eqn:N; [|apply IH].
  destruct (handleAnimations animations (infiniteAnimationsToResume inst)
                             (animationCalls w)) as [resume calls].
  eapply same_frame_trans; [|apply IH].
  repeat split; cbn.
  intros j i H.
  assert (L : owner l < List.length (installations w))
    by (apply nth_error_Some; congruence).
  destruct (Nat.eq_dec j (owner l)) as [->|J].
  - rewrite nth_error_set_installation by exact L.
    eexists; split; [reflexivity|]. cbn. split; congruence.
  - rewrite nth_error_set_installation_other by assumption.
    exists i. auto.
Qed.

Lemma dispatch_all_frame (events : list (RootId * EventName * list Animation)) :
  forall w, same_frame w (dispatch_all events w).
Proof.
  induction events as [|[[root name] animations] rest IH]; intro w; cbn.
  - apply same_frame_refl.
  - eapply same_frame_trans; [apply dispatch_to_frame|apply IH].
Qed.

End HandlerRuns.

Section FrozenFrame.

Variable k : nat.

(** Handlers of installation [k] alone: their runs are runs of one handler
    on one set. *)
Lemma dispatch_to_spec (handlers : list Listener) (animations : list Animation) :
  forall w inst,
    (forall l, In l handlers -> owner l = k) ->
    nth_error (installations w) k = Some inst ->
    let st := handle_all (repeat animations (List.length handlers))
                         (infiniteAnimationsToResume inst, animationCalls w) in
    suspended k (dispatch_to handlers animations w) = fst st
    /\ animationCalls (dispatch_to handlers animations w) = snd st.
Proof.
  induction handlers as [|l rest IH]; intros w inst O N; cbn.
  - unfold suspended. rewrite N. auto.
  - rewrite (O l) by (left; reflexivity). rewrite N.
    destruct (handleAnimations animations (infiniteAnimationsToResume inst)
                               (animationCalls w)) as [resume calls] eqn:H.
    assert (L : k < List.length (installations w))
      by (apply nth_error_Some; congruence).
    match goal with
    | |- context [dispatch_to rest animations ?w1] =>
        specialize (IH w1 {| styleTag := styleTag inst;
                             infiniteAnimationsToResume := resume;
                             cleanupCallbacks := cleanupCallbacks inst |})
    end.
    cbn in IH. apply IH.
    + intros l' I. apply O. right. exact I.
    + apply nth_error_set_installation. exact L.
Qed.

Lemma dispatchEvent_only_handler w0 w lists root name animations :
  only_handler k w0 w lists ->
  exists n,
    only_handler k w0 (dispatchEvent root name animations w)
                 (lists ++ repeat animations n).
Proof.
  intros (O & N & E).
  destruct (nth_error (installations w) k) as [inst|] eqn:Ni; [clear N|congruence].
  unfold dispatchEvent.
  set (hs := filter (fun l => Nat.eqb (l_root l) root && EventName_eqb (l_event l) name)
                    (listeners w)).
  assert (Oh : forall l, In l hs -> owner l = k).
  { intros l I. apply filter_In in I as [I _]. apply O. exact I. }
  destruct (@dispatch_to_spec hs animations w inst Oh Ni) as [S C].
  destruct (dispatch_to_frame hs animations w) as (L & _ & _ & F).
  exists (List.length hs). split; [|split].
  - rewrite L. exact O.
  - destruct (F k inst Ni) as (i' & -> & _). discriminate.
  - rewrite handle_all_app, <- E. rewrite S, C.
    unfold suspended. rewrite Ni. symmetry. apply surjective_pairing.
Qed.

Lemma dispatch_all_only_handler w0 (events : list (RootId * EventName * list Animation)) :
  forall w lists,
    only_handler k w0 w lists ->
    exists more,
      only_handler k w0 (dispatch_all events w) (lists ++ more)
      /\ forall l, In l more -> exists root name, In (root, name, l) events.
Proof.
  induction events as [|[[root name] animations] rest IH]; intros w lists H; cbn.
  - exists []. rewrite app_nil_r. split; [exact H|intros l []].
  - destruct (dispatchEvent_only_handler root name animations H) as (n & H1).
    destruct (IH _ _ H1) as (more & H2 & M).
    exists (repeat animations n ++ more). rewrite app_assoc. split; [exact H2|].
    intros l I. apply in_app_or in I as [I|I].
    + apply repeat_spec in I. subst l. exists root, name. left. reflexivity.
    + destruct (M l I) as (r & nm & J). exists r, nm. right. exact J.
Qed.

End FrozenFrame.

Section FreezeInstalls.

Lemma freeze_installs hc da wf g (w0 : Realm) :
  let k := List.length (installations w0) in
  let w := freeze hc da wf g w0 in
  __cleanupScreenshot w = Some k
  /\ styles w = (if hc then styles w0 ++ [nextNode w0] else styles w0)
  /\ exists inst,
       nth_error (installations w) k = Some inst
       /\ styleTag inst = nextNode w0
       /\ cleanupCallbacks inst = (if da then collectRoots (document w0) [] else [])
       /\ (forall x, In x (listeners w) ->
             In x (listeners w0)
             \/ (owner x = k /\ In (l_root x) (cleanupCallbacks inst)))
       /\ (infiniteAnimationsToResume inst, animationCalls w)
          = (if da then handle_all (map g (collectRoots (document w0) []))
                                   ([], animationCalls w0)
             else ([], animationCalls w0)).
Proof.
  cbv zeta. unfold freeze.
  destruct da.
  - pose proof (freeze_roots_listeners (List.length (installations w0)) g
                  (collectRoots (document w0) []) [] (animationCalls w0)
                  (listeners w0) []) as L.
    pose proof (freeze_roots_handles (List.length (installations w0)) g
                  (collectRoots (document w0) []) [] (animationCalls w0)
                  (listeners w0) []) as H.
    destruct (freeze_roots _ g _ [] (animationCalls w0) (listeners w0) [])
      as [[[resume calls] ls] callbacks].
    destruct L as [-> L]. cbn.
    split; [reflexivity|]. split; [reflexivity|].
    eexists. split.
    + rewrite nth_error_app2 by lia. rewrite Nat.sub_diag. reflexivity.
    + cbn. repeat split; auto.
  - cbn. split; [reflexivity|]. split; [reflexivity|].
    eexists. split.
    + rewrite nth_error_app2 by lia. rewrite Nat.sub_diag. reflexivity.
    + cbn. repeat split; auto.
Qed.

Lemma freeze_only_handler hc wf g (w0 : Realm) :
  listeners w0 = [] ->
  only_handler (List.length (installations w0)) w0 (freeze hc true wf g w0)
               (map g (collectRoots (document w0) [])).
Proof.
  intro E.
  destruct (freeze_installs hc true wf g w0) as (_ & _ & inst & N & _ & _ & L & H).
  split; [|split].
  - intros l I. apply L in I as [I|[O _]]; [|exact O].
    rewrite E in I. destruct I.
  - congruence.
  - unfold suspended. rewrite N. exact H.
Qed.

End FreezeInstalls.

Section HandlerClaims.

(** C10.  A frame is frozen with animations disabled, no other freeze
    being installed, and any sequence of [transitionrun] and
    [animationstart] events then reaches its roots.  Of the calls the
    handler makes: (1) a [cancel()] goes through at most once per
    animation, namely exactly on the animations recorded in the set of
    suspended infinite animations; (2) an animation once recorded stays
    recorded, and no later handler invocation calls anything on it;
    (3) every call is a [finish] or a [cancel] on an animation that had an
    effect and a playback rate other than zero when the handler met it, so
    animations without effect or with playback rate zero are never
    finished or cancelled. *)
Theorem infinite_animation_cancelled_once
        (hc wf : bool) (g : RootId -> list Animation) (w0 : Realm)
        (events : list (RootId * EventName * list Animation)) :
  listeners w0 = [] ->
  let k := List.length (installations w0) in
  let w := dispatch_all events (freeze hc true wf g w0) in
  exists new,
    animationCalls w = animationCalls w0 ++ new
    /\ (forall a, cancelled_times a new = if recorded a (suspended k w) then 1 else 0)
    /\ (forall a root name animations,
          recorded a (suspended k w) = true ->
          let w' := dispatchEvent root name animations w in
          recorded a (suspended k w') = true
          /\ exists more,
               animationCalls w' = animationCalls w ++ more
               /\ forall c, In c more -> target c <> a)
    /\ (forall c, In c new ->
          method c <> play
          /\ exists x,
               ((exists root, In root (collectRoots (document w0) []) /\ In x (g root))
                \/ (exists root name l, In (root, name, l) events /\ In x l))
               /\ anim_id x = target c /\ eligible x = true).
Proof.
  intros E k w.
  destruct (@dispatch_all_only_handler k w0 events _ _ (freeze_only_handler hc wf g w0 E))
    as (more & H & M).
  fold w in H. destruct H as (O & N & R).
  destruct (handle_all_spec (map g (collectRoots (document w0) []) ++ more)
                            [] (animationCalls w0)) as (s' & new & Hs & C & T).
  pose proof (eq_trans R Hs) as R'. inversion R' as [[Rs Rc]].
  exists new. split; [exact Rc|]. split; [|split].
  - intro a. rewrite Rs. specialize (C a). cbn in C. rewrite <- C. lia.
  - intros a root name animations Ha w'.
    destruct (nth_error (installations w) k) as [inst|] eqn:Ni; [|congruence].
    set (hs := filter (fun l => Nat.eqb (l_root l) root
                                && EventName_eqb (l_event l) name) (listeners w)).
    assert (Oh : forall l, In l hs -> owner l = k).
    { intros l I. apply filter_In in I as [I _]. apply O. exact I. }
    destruct (@dispatch_to_spec k hs animations w inst Oh Ni) as [S' C'].
    subst w'. unfold dispatchEvent. fold hs.
    destruct (handle_all_spec (repeat animations (List.length hs))
                              (infiniteAnimationsToResume inst) (animationCalls w))
      as (s2 & more2 & H2 & C2 & T2).
    rewrite H2 in S', C'. cbn [fst snd] in S', C'.
    assert (Si : suspended k w = infiniteAnimationsToResume inst)
      by (unfold suspended; rewrite Ni; reflexivity).
    rewrite Si in Ha. split.
    + rewrite S'. specialize (C2 a). rewrite Ha in C2.
      destruct (recorded a s2); [reflexivity|lia].
    + exists more2. split; [exact C'|].
      intros c I. apply T2 in I as (_ & Rc' & _). congruence.
  - intros c I. apply T in I as (Mc & _ & l & x & Il & Ix & Ex & Lx).
    split; [exact Mc|]. exists x. split; [|auto].
    apply in_app_or in Il as [Il|Il].
    + left. apply in_map_iff in Il as (root & <- & Ir). exists root. auto.
    + right. destruct (M l Il) as (root & name & J). exists root, name, l. auto.
Qed.

End HandlerClaims.

Lemma infinite_animation_cancelled_once_witness :
  let g := fun _ : RootId => [spinner] in
  let events := [(0, animationstart, [spinner]); (0, transitionrun, [spinner])] in
  let k := List.length (installations blank_realm) in
  let w := dispatch_all events (freeze true true false g blank_realm) in
  exists new,
    animationCalls w = animationCalls blank_realm ++ new
    /\ (forall a, cancelled_times a new = if recorded a (suspended k w) then 1 else 0)
    /\ (forall a root name animations,
          recorded a (suspended k w) = true ->
          let w' := dispatchEvent root name animations w in
          recorded a (suspended k w') = true
          /\ exists more,
               animationCalls w' = animationCalls w ++ more
               /\ forall c, In c more -> target c <> a)
    /\ (forall c, In c new ->
          method c <> play
          /\ exists x,
               ((exists root, In root (collectRoots (document blank_realm) [])
                              /\ In x (g root))
                \/ (exists root name l, In (root, name, l) events /\ In x l))
               /\ anim_id x = target c /\ eligible x = true).
Proof.
  apply (@infinite_animation_cancelled_once true false (fun _ => [spinner]) blank_realm
           [(0, animationstart, [spinner]); (0, transitionrun, [spinner])]).
  reflexivity.
Defined.

(** The spinner is cancelled when the frame is frozen and left alone by the
    two events that follow. *)
Example spinner_cancelled_once :
  animationCalls
    (dispatch_all [(0, animationstart, [spinner]); (0, transitionrun, [spinner])]
                  (freeze true true false (fun _ => [spinner]) blank_realm))
  = [{| method := cancel; target := 7; threw := false |}].
Proof. reflexivity. Qed.

Section CleanupClaims.

Lemma filter_all {A} (f : A -> bool) (l : list A) :
  (forall x, In x l -> f x = true) -> filter f l = l.
Proof.
  induction l as [|a l IH]; intro H; cbn; [reflexivity|].
  rewrite (H a) by (left; reflexivity). f_equal. apply IH.
  intros x I. apply H. right. exact I.
Qed.

Lemma remove_node_absent (n : NodeId) (nodes : list NodeId) :
  ~ In n nodes -> remove_node n nodes = nodes.
Proof.
  intro H. apply filter_all. intros x I. apply negb_true_iff, Nat.eqb_neq.
  intros ->. contradiction.
Qed.

Lemma remove_node_appended (n : NodeId) (nodes : list NodeId) :
  ~ In n nodes -> remove_node n (nodes ++ [n]) = nodes.
Proof.
  intro H. unfold remove_node. rewrite filter_app. cbn. rewrite Nat.eqb_refl. cbn.
  rewrite app_nil_r. apply remove_node_absent. exact H.
Qed.

Lemma removeEventListener_app (l : Listener) (ls extra : list Listener) :
  (forall x, In x ls -> owner x <> owner l) ->
  removeEventListener l (ls ++ extra) = ls ++ removeEventListener l extra.
Proof.
  intro H. unfold removeEventListener. rewrite filter_app. f_equal.
  apply filter_all. intros x I. apply negb_true_iff.
  unfold listener_eqb. destruct (Nat.eqb_spec (owner l) (owner x)) as [E|N].
  - exfalso. apply (H x I). congruence.
  - apply andb_false_r.
Qed.

Lemma detach_app (k : nat) (roots : list RootId) (ls : list Listener) :
  (forall x, In x ls -> owner x <> k) ->
  forall extra, detach k roots (ls ++ extra) = ls ++ detach k roots extra.
Proof.
  intro H. unfold detach. induction roots as [|root rest IH]; intro extra; cbn.
  - reflexivity.
  - rewrite !removeEventListener_app by exact H. apply IH.
Qed.

Lemma detach_all (k : nat) (roots : list RootId) (extra : list Listener) :
  (forall x, In x extra -> owner x = k /\ In (l_root x) roots) ->
  detach k roots extra = [].
Proof.
  intro H. destruct (detach k roots extra) as [|x rest] eqn:E; [reflexivity|].
  assert (I : In x (detach k roots extra)) by (rewrite E; left; reflexivity).
  apply detach_spec in I as [I N]. exfalso. apply N, H, I.
Qed.

Lemma addEventListener_app (l : Listener) (ls : list Listener) :
  exists extra, addEventListener l ls = ls ++ extra
                /\ forall x, In x extra -> x = l.
Proof.
  unfold addEventListener. destruct (existsb (listener_eqb l) ls).
  - exists []. rewrite app_nil_r. split; [reflexivity|intros x []].
  - exists [l]. split; [reflexivity|]. intros x [E|[]]. auto.
Qed.

(** The freeze loop appends its listeners to those already there. *)
Lemma freeze_roots_appends k g roots : forall resume calls ls callbacks,
  let '(_, _, ls', _) := freeze_roots k g roots resume calls ls callbacks in
  exists extra, ls' = ls ++ extra
                /\ forall x, In x extra -> owner x = k /\ In (l_root x) roots.
Proof.
  induction roots as [|root rest IH]; intros resume calls ls callbacks; cbn.
  - exists []. rewrite app_nil_r. split; [reflexivity|intros x []].
  - destruct (handleAnimations (g root) resume calls) as [resume' calls'].
    destruct (addEventListener_app
                {| l_root := root; l_event := transitionrun; owner := k |} ls)
      as (e1 & -> & H1).
    destruct (addEventListener_app
                {| l_root := root; l_event := animationstart; owner := k |} (ls ++ e1))
      as (e2 & -> & H2).
    specialize (IH resume' calls' ((ls ++ e1) ++ e2) (callbacks ++ [root])).
    destruct (freeze_roots k g rest resume' calls' _ _) as [[[r c] ls'] cb'].
    destruct IH as (e3 & -> & H3).
    exists (e1 ++ e2 ++ e3). rewrite <- !app_assoc. split; [reflexivity|].
    intros x I. apply in_app_or in I as [I|I]; [|apply in_app_or in I as [I|I]].
    + apply H1 in I. subst x. cbn. auto.
    + apply H2 in I. subst x. cbn. auto.
    + apply H3 in I. tauto.
Qed.

Lemma freeze_listeners hc da wf g (w0 : Realm) :
  exists extra,
    listeners (freeze hc da wf g w0) = listeners w0 ++ extra
    /\ forall x, In x extra ->
         owner x = List.length (installations w0)
         /\ In (l_root x) (if da then collectRoots (document w0) [] else []).
Proof.
  unfold freeze. destruct da.
  - pose proof (freeze_roots_appends (List.length (installations w0)) g
                  (collectRoots (document w0) []) [] (animationCalls w0)
                  (listeners w0) []) as L.
    destruct (freeze_roots _ g _ [] (animationCalls w0) (listeners w0) [])
      as [[[resume calls] ls] callbacks].
    exact L.
  - exists []. cbn. rewrite app_nil_r. split; [reflexivity|intros x []].
Qed.


(** Sending a script leaves the realms as they are. *)
Lemma send_each_realms name (fs : list FrameState) :
  forall n, map realm (fst (fst (send_each name fs n))) = map realm fs.
Proof.
  induction fs as [|f rest IH]; intro n; cbn; [reflexivity|].
  specialize (IH (S n)).
  destruct (send_each name rest (S n)) as [[fs' n'] t].
  cbn in *. rewrite IH. reflexivity.
Qed.

Lemma restore_frames (page : Page) (w : World) :
  map realm (frames (world (_restorePageAfterScreenshot page w)))
  = map realm (frames w).
Proof.
  unfold _restorePageAfterScreenshot.
  pose proof (send_each_realms evaluate_restore (frames w) (page_calls w)) as E.
  destruct (send_each evaluate_restore (frames w) (page_calls w)) as [[fs n] t].
  exact E.
Qed.

End CleanupClaims.

Section CleanupHandle.

(** C9.  The cleanup handle is idempotent.  Invoking restore a second time
    changes nothing, and so does invoking it in a frame where no handle is
    installed.  The handle that freeze installs, invoked after any events
    that reached the frozen frame, removes the injected style sheet, plays
    every suspended infinite animation, detaches the listeners freeze
    registered, and deletes itself: the frame is left with the style sheets
    and listeners it had before freeze, and without the handle.  Restoring
    a page twice, when no evaluation is rejected, leaves its frames as
    restoring it once does. *)
Theorem cleanup_handle_idempotent :
  (forall w, restore (restore w) = restore w)
  /\ (forall w, __cleanupScreenshot w = None -> restore w = w)
  /\ (forall hc da wf g w0 events,
        let k := List.length (installations w0) in
        let w := dispatch_all events (freeze hc da wf g w0) in
        (forall l, In l (listeners w0) -> owner l <> k) ->
        ~ In (nextNode w0) (styles w0) ->
        __cleanupScreenshot w = Some k
        /\ __cleanupScreenshot (restore w) = None
        /\ styles (restore w) = styles w0
        /\ listeners (restore w) = listeners w0
        /\ animationCalls (restore w)
           = animationCalls w
             ++ map (fun a => {| method := play; target := anim_id a;
                                 threw := play_throws a |})
                    (suspended k w))
  /\ (forall page w,
        (forall n, rejects page n = false) ->
        let once := world (_restorePageAfterScreenshot page w) in
        let twice := world (_restorePageAfterScreenshot page once) in
        map realm (frames twice) = map realm (frames once)).
Proof.
  split; [exact restore_idempotent|]. split; [exact restore_absent|]. split.
  - intros hc da wf g w0 events k w Hl Hs.
    destruct (freeze_installs hc da wf g w0) as (Hh & Hst & inst & N & T & B & _ & _).
    destruct (freeze_listeners hc da wf g w0) as (extra & El & Ex).
    destruct (dispatch_all_frame events (freeze hc da wf g w0)) as (Lw & Sw & Cw & Fw).
    destruct (Fw _ _ N) as (i' & Ni & Ti & Bi).
    fold w in Lw, Sw, Cw, Ni. fold k in Hh, Ni, Ex.
    assert (C : __cleanupScreenshot w = Some k) by congruence.
    split; [exact C|].
    unfold restore. rewrite C. unfold cleanup. rewrite Ni. cbn.
    split; [reflexivity|]. split; [|split].
    + rewrite Sw, Hst, Ti, T.
      destruct hc; [apply remove_node_appended|apply remove_node_absent]; exact Hs.
    + rewrite Lw, El, Bi, B.
      rewrite detach_app by exact Hl.
      rewrite detach_all by exact Ex. apply app_nil_r.
    + unfold suspended. rewrite Ni. reflexivity.
  - intros page w R once twice. unfold twice, once.
    apply restore_frames.
Qed.

(** Freezing a frame with one spinner and restoring it twice: the spinner
    is cancelled once and played once, and nothing is left behind. *)
Example freeze_restore_restore :
  restore (restore (freeze true true false (fun _ => [spinner]) blank_realm))
  = {| document := Root 0 [];
       nextNode := 1;
       styles := [];
       listeners := [];
       installations :=
         [{| styleTag := 0; infiniteAnimationsToResume := [spinner];
             cleanupCallbacks := [0] |}];
       __cleanupScreenshot := None;
       animationCalls :=
         [{| method := cancel; target := 7; threw := false |};
          {| method := play; target := 7; threw := false |}] |}.
Proof. reflexivity. Qed.

End CleanupHandle.

(* ================================================================== *)
(** ** The task queue *)
(* ================================================================== *)

Section QueueLists.

Lemma nth_error_snoc {A} (l : list A) (a : A) (j : nat) :
  nth_error (l ++ [a]) j
  = if j <? List.length l then nth_error l j
    else if j =? List.length l then Some a else None.
Proof.
  destruct (Nat.ltb_spec j (List.length l)) as [L|G].
  - apply nth_error_app1. exact L.
  - rewrite nth_error_app2 by exact G.
    destruct (Nat.eqb_spec j (List.length l)) as [->|N].
    + rewrite Nat.sub_diag. reflexivity.
    + destruct (j - List.length l) as [|d] eqn:D; [lia|]. cbn.
      destruct d; reflexivity.
Qed.

Lemma nth_error_replace {A} (k j : nat) (a : A) (l : list A) :
  k < List.length l ->
  nth_error (replace k a l) j = if j =? k then Some a else nth_error l j.
Proof.
  intro H. destruct (Nat.eqb_spec j k) as [->|N].
  - apply nth_error_replace_same. exact H.
  - apply nth_error_replace_other; assumption.
Qed.

Lemma combine_snoc_l {A B} (l : list A) (a : A) : forall (d : list B),
  List.length d <= List.length l -> combine (l ++ [a]) d = combine l d.
Proof.
  induction l as [|x l IH]; intros [|y d] H; cbn in *; try reflexivity; try lia.
  f_equal. apply IH. lia.
Qed.

Lemma combine_snoc_r {A B} (l : list A) (a : A) (b : B) : forall (d : list B),
  nth_error l (List.length d) = Some a ->
  combine l (d ++ [b]) = combine l d ++ [(a, b)].
Proof.
  induction l as [|x l IH]; intros [|y d] H; cbn in *; try discriminate.
  - inversion H; subst. destruct l; reflexivity.
  - f_equal. apply IH. exact H.
Qed.

End QueueLists.

Section Queue.
Variable Task : Type.

Lemma sequential_begin (done : list (Task * settled)) (t : Task) :
  sequential done None ++ [Begin t] = sequential done (Some t).
Proof.
  induction done as [|[t' o] rest IH]; cbn; [reflexivity|]. rewrite IH. reflexivity.
Qed.

Lemma sequential_end (done : list (Task * settled)) (t : Task) (o : settled) :
  sequential done (Some t) ++ [End t o] = sequential (done ++ [(t, o)]) None.
Proof.
  induction done as [|[t' o'] rest IH]; cbn; [reflexivity|]. rewrite IH. reflexivity.
Qed.

Lemma waiting_on_beyond (tasks : list Task) (k : nat) :
  List.length tasks <= k -> waiting_on tasks k = [].
Proof.
  intro H. unfold waiting_on.
  apply nth_error_None in H. rewrite H. reflexivity.
Qed.

Lemma shaped_new : shaped [] [] Idle (TaskQueue_new Task).
Proof.
  constructor; try (cbn; reflexivity); try (cbn; lia).
  all: try (intros k H; cbn in H; lia).
  intros k o H. destruct k; discriminate H.
Qed.

(** The chain a new task is hung on: still pending with nothing waiting on
    it, or already fulfilled because every task posted so far has settled
    and the chain has advanced. *)
Lemma shaped_chain_state tasks done ph (q : Runtime Task) :
  shaped tasks done ph q ->
  nth_error (heap q) (2 * List.length tasks) = Some (Pending [])
  \/ (ph = Idle /\ List.length done = List.length tasks
      /\ nth_error (heap q) (2 * List.length tasks)
         = Some (Settled Task (Fulfilled (chain_value done (List.length tasks))))).
Proof.
  intro S. destruct (Nat.eq_dec (List.length done) (List.length tasks)) as [E|N].
  - pose proof (shape_front S) as F. pose proof (shape_phase S) as P.
    rewrite E in F. destruct ph.
    + left. rewrite F, waiting_on_beyond by lia. reflexivity.
    + right. auto.
    + lia.
  - left. pose proof (shape_done S).
    rewrite (shape_future S) by lia. rewrite waiting_on_beyond by lia. reflexivity.
Qed.

End Queue.

Section QueueSteps.
Variable Task : Type.

Lemma nth_error_update (p j : pid) (s : pstate Task) (h : list (pstate Task)) :
  p < List.length h ->
  nth_error (update p s h) j = if j =? p then Some s else nth_error h j.
Proof. apply nth_error_replace. Qed.

Lemma length_update (p : pid) (s : pstate Task) (h : list (pstate Task)) :
  p < List.length h -> List.length (update p s h) = List.length h.
Proof. apply length_replace. Qed.

Lemma then_pending (p : pid) (onF onR : handler Task) (q : Runtime Task) rs :
  nth_error (heap q) p = Some (Pending rs) ->
  then_ p onF onR q
  = (List.length (heap q),
     {| heap := update p (Pending (rs ++ [{| onFulfilled := onF; onRejected := onR;
                                             derived := List.length (heap q) |}]))
                       (heap q ++ [Pending []]);
        jobs := jobs q; running := running q; _chain := _chain q;
        history := history q |}).
Proof. intro H. unfold then_. rewrite H. reflexivity. Qed.

Lemma then_settled (p : pid) (onF onR : handler Task) (q : Runtime Task) s :
  nth_error (heap q) p = Some (Settled Task s) ->
  then_ p onF onR q
  = (List.length (heap q),
     {| heap := heap q ++ [Pending []];
        jobs := jobs q ++ [{| job_reaction := {| onFulfilled := onF; onRejected := onR;
                                                 derived := List.length (heap q) |};
                              argument := s |}];
        running := running q; _chain := _chain q; history := history q |}).
Proof. intro H. unfold then_. rewrite H. reflexivity. Qed.

(** The heap after [postTask]: the chain the task is hung on is written or
    left alone, and two pending promises are appended, the result with its
    [catch] reaction and the new chain. *)
Lemma postTask_heap (t : Task) (q : Runtime Task) (n : nat) :
  List.length (heap q) = 2 * n + 1 -> _chain q = 2 * n ->
  (exists rs, nth_error (heap q) (2 * n) = Some (Pending rs))
  \/ (exists s, nth_error (heap q) (2 * n) = Some (Settled Task s)) ->
  let q' := snd (postTask t q) in
  fst (postTask t q) = 2 * n + 1
  /\ List.length (heap q') = 2 * (n + 1) + 1
  /\ _chain q' = 2 * (n + 1)
  /\ running q' = running q
  /\ history q' = history q
  /\ (forall j, j < 2 * n -> nth_error (heap q') j = nth_error (heap q) j)
  /\ nth_error (heap q') (2 * n + 1) = Some (Pending [catch_reaction Task (2 * n + 2)])
  /\ nth_error (heap q') (2 * (n + 1)) = Some (Pending [])
  /\ (forall rs, nth_error (heap q) (2 * n) = Some (Pending rs) ->
        nth_error (heap q') (2 * n)
        = Some (Pending (rs ++ [then_reaction t (2 * n + 1)]))
        /\ jobs q' = jobs q)
  /\ (forall s, nth_error (heap q) (2 * n) = Some (Settled Task s) ->
        nth_error (heap q') (2 * n) = Some (Settled Task s)
        /\ jobs q' = jobs q ++ [{| job_reaction := then_reaction t (2 * n + 1);
                                   argument := s |}]).
Proof.
  intros L C H. unfold postTask, catch_. rewrite C.
  destruct H as [[rs H]|[s H]].
  - rewrite (@then_pending (2 * n) (run_task t) (absent Task) q rs H).
    set (h1 := update (2 * n) _ (heap q ++ [Pending []])).
    assert (L0 : List.length (heap q ++ [Pending (Task := Task) []]) = 2 * n + 2)
      by (rewrite length_app; cbn; lia).
    assert (L1 : List.length h1 = 2 * n + 2)
      by (unfold h1; rewrite length_update; lia).
    assert (N1 : forall j, nth_error h1 j
                 = if j =? 2 * n then Some (Pending (rs ++ [{| onFulfilled := run_task t;
                                                              onRejected := absent Task;
                                                              derived := List.length (heap q) |}]))
                   else nth_error (heap q ++ [Pending []]) j)
      by (intro j; unfold h1; apply nth_error_update; lia).
    assert (P1 : nth_error h1 (List.length (heap q)) = Some (Pending [])).
    { rewrite N1, nth_error_snoc, L.
      destruct (Nat.eqb_spec (2 * n + 1) (2 * n)); [lia|].
      rewrite Nat.ltb_irrefl, Nat.eqb_refl. reflexivity. }
    match goal with
    | |- context [then_ ?p ?f ?g ?q1] =>
        rewrite (@then_pending p f g q1 [] P1)
    end.
    cbn [fst snd heap jobs running _chain history app].
    set (h2 := update (List.length (heap q)) _ (h1 ++ [Pending []])).
    assert (N2 : forall j, nth_error h2 j
                 = if j =? 2 * n + 1 then Some (Pending [catch_reaction Task (2 * n + 2)])
                   else nth_error (h1 ++ [Pending []]) j).
    { intro j. unfold h2. rewrite nth_error_update by (rewrite length_app, L1; cbn; lia).
      rewrite L, L1. reflexivity. }
    assert (L2 : List.length h2 = 2 * (n + 1) + 1).
    { unfold h2. rewrite length_update; rewrite length_app, L1; cbn; lia. }
    split; [exact L|]. split; [exact L2|]. split; [lia|].
    split; [reflexivity|]. split; [reflexivity|]. split; [|split; [|split; [|split]]].
    + intros j Hj. rewrite N2, nth_error_snoc, L1, N1, nth_error_snoc, L.
      destruct (Nat.eqb_spec j (2 * n + 1)); [lia|].
      destruct (Nat.ltb_spec j (2 * n + 2)); [|lia].
      destruct (Nat.eqb_spec j (2 * n)); [lia|].
      destruct (Nat.ltb_spec j (2 * n + 1)); [reflexivity|lia].
    + rewrite N2, Nat.eqb_refl. reflexivity.
    + rewrite N2, nth_error_snoc, L1.
      destruct (Nat.eqb_spec (2 * (n + 1)) (2 * n + 1)); [lia|].
      destruct (Nat.ltb_spec (2 * (n + 1)) (2 * n + 2)); [lia|].
      destruct (Nat.eqb_spec (2 * (n + 1)) (2 * n + 2)); [reflexivity|lia].
    + intros rs' H'. rewrite H in H'. inversion H'; subst rs'.
      split; [|reflexivity].
      rewrite N2, nth_error_snoc, L1, N1, Nat.eqb_refl, L.
      destruct (Nat.eqb_spec (2 * n) (2 * n + 1)); [lia|].
      destruct (Nat.ltb_spec (2 * n) (2 * n + 2)); [reflexivity|lia].
    + intros s H'. rewrite H in H'. discriminate H'.
  - rewrite (@then_settled (2 * n) (run_task t) (absent Task) q s H).
    set (h1 := heap q ++ [Pending []]).
    assert (L1 : List.length h1 = 2 * n + 2)
      by (unfold h1; rewrite length_app; cbn; lia).
    assert (P1 : nth_error h1 (List.length (heap q)) = Some (Pending [])).
    { unfold h1. rewrite nth_error_snoc, Nat.ltb_irrefl, Nat.eqb_refl. reflexivity. }
    match goal with
    | |- context [then_ ?p ?f ?g ?q1] =>
        rewrite (@then_pending p f g q1 [] P1)
    end.
    cbn [fst snd heap jobs running _chain history app].
    fold h1.
    set (h2 := update (List.length (heap q)) _ (h1 ++ [Pending []])).
    assert (N2 : forall j, nth_error h2 j
                 = if j =? 2 * n + 1 then Some (Pending [catch_reaction Task (2 * n + 2)])
                   else nth_error (h1 ++ [Pending []]) j).
    { intro j. unfold h2. rewrite nth_error_update by (rewrite length_app, L1; cbn; lia).
      rewrite L, L1. reflexivity. }
    assert (L2 : List.length h2 = 2 * (n + 1) + 1).
    { unfold h2. rewrite length_update; rewrite length_app, L1; cbn; lia. }
    split; [exact L|]. split; [exact L2|]. split; [lia|].
    split; [reflexivity|]. split; [reflexivity|]. split; [|split; [|split; [|split]]].
    + intros j Hj. rewrite N2, nth_error_snoc, L1. unfold h1. rewrite nth_error_snoc, L.
      destruct (Nat.eqb_spec j (2 * n + 1)); [lia|].
      destruct (Nat.ltb_spec j (2 * n + 2)); [|lia].
      destruct (Nat.ltb_spec j (2 * n + 1)); [reflexivity|lia].
    + rewrite N2, Nat.eqb_refl. reflexivity.
    + rewrite N2, nth_error_snoc, L1.
      destruct (Nat.eqb_spec (2 * (n + 1)) (2 * n + 1)); [lia|].
      destruct (Nat.ltb_spec (2 * (n + 1)) (2 * n + 2)); [lia|].
      destruct (Nat.eqb_spec (2 * (n + 1)) (2 * n + 2)); [reflexivity|lia].
    + intros rs H'. rewrite H in H'. discriminate H'.
    + intros s' H'. rewrite H in H'. inversion H'; subst s'.
      split.
      * rewrite N2, nth_error_snoc, L1. unfold h1. rewrite nth_error_snoc, L.
        destruct (Nat.eqb_spec (2 * n) (2 * n + 1)); [lia|].
        destruct (Nat.ltb_spec (2 * n) (2 * n + 2)); [|lia].
        destruct (Nat.ltb_spec (2 * n) (2 * n + 1)); [exact H|lia].
      * rewrite L. reflexivity.
Qed.

End QueueSteps.

Section QueueInvariant.
Variable Task : Type.

Lemma nth_error_snoc_old {A} (l : list A) (a : A) (k : nat) :
  k < List.length l -> nth_error (l ++ [a]) k = nth_error l k.
Proof. intro H. apply nth_error_app1. exact H. Qed.

Lemma waiting_on_old (tasks : list Task) (t : Task) (k : nat) :
  k < List.length tasks -> waiting_on (tasks ++ [t]) k = waiting_on tasks k.
Proof. intro H. unfold waiting_on. rewrite nth_error_snoc_old by exact H. reflexivity. Qed.

Lemma waiting_on_new (tasks : list Task) (t : Task) :
  waiting_on (tasks ++ [t]) (List.length tasks)
  = [then_reaction t (2 * List.length tasks + 1)].
Proof.
  unfold waiting_on. rewrite nth_error_snoc, Nat.ltb_irrefl, Nat.eqb_refl. reflexivity.
Qed.

Lemma shaped_post tasks done ph (q : Runtime Task) (t : Task) :
  shaped tasks done ph q ->
  fst (postTask t q) = 2 * List.length tasks + 1
  /\ shaped (tasks ++ [t]) done ph (snd (postTask t q)).
Proof.
  intro S.
  pose proof (shape_done S) as Hd. pose proof (shape_phase S) as Hp.
  pose proof (shaped_chain_state S) as CS.
  assert (PS : (exists rs, nth_error (heap q) (2 * List.length tasks) = Some (Pending rs))
               \/ (exists s, nth_error (heap q) (2 * List.length tasks)
                             = Some (Settled Task s))).
  { destruct CS as [P|(_ & _ & P)]; [left|right]; eexists; exact P. }
  destruct (@postTask_heap Task t q (List.length tasks) (shape_heap S) (shape_chain S) PS)
    as (F & L' & C' & R' & Hi' & Old & Pn & Pc & HP & HS).
  split; [exact F|].
  set (q' := snd (postTask t q)) in *.
  assert (Ln : List.length (tasks ++ [t]) = List.length tasks + 1)
    by (rewrite length_app; reflexivity).
  constructor; rewrite ?Ln.
  - lia.
  - destruct ph; lia.
  - exact L'.
  - exact C'.
  - intros k Hk. rewrite Old by lia. apply (shape_past S). exact Hk.
  - destruct (Nat.eq_dec (List.length done) (List.length tasks)) as [E|N].
    + destruct CS as [P|(-> & _ & P)].
      * pose proof (shape_front S) as Fr. rewrite E, P in Fr.
        destruct ph; try discriminate Fr.
        rewrite E, waiting_on_new. apply (HP [] P).
      * rewrite E. apply (HS _ P).
    + rewrite Old by lia. rewrite (shape_front S).
      destruct ph; [rewrite waiting_on_old by lia|..]; reflexivity.
  - intros k Hk.
    destruct (Nat.lt_trichotomy k (List.length tasks)) as [Lt|[->|Gt]].
    + rewrite Old by lia. rewrite (shape_future S) by lia.
      rewrite waiting_on_old by lia. reflexivity.
    + destruct CS as [P|(_ & E & _)]; [|lia].
      rewrite waiting_on_new. apply (HP [] P).
    + replace k with (List.length tasks + 1) by lia.
      rewrite Pc, waiting_on_beyond by (rewrite Ln; lia). reflexivity.
  - intros k o Ho.
    assert (k < List.length done) by (apply nth_error_Some; congruence).
    rewrite Old by lia. apply (shape_settled S). exact Ho.
  - intros k Hk.
    destruct (Nat.eq_dec k (List.length tasks)) as [->|N].
    + exact Pn.
    + rewrite Old by lia. apply (shape_pending S). lia.
  - destruct CS as [P|(-> & E & P)].
    + destruct (HP [] P) as [_ ->]. rewrite (shape_jobs S).
      destruct ph; try reflexivity.
      destruct (Nat.eq_dec (List.length done) (List.length tasks)) as [E|N].
      * pose proof (shape_front S) as Fr. rewrite E, P in Fr. discriminate Fr.
      * rewrite waiting_on_old by lia. reflexivity.
    + destruct (HS _ P) as [_ ->]. rewrite (shape_jobs S).
      rewrite E, waiting_on_new, waiting_on_beyond by lia. reflexivity.
  - rewrite R', (shape_running S).
    destruct ph; try reflexivity.
    rewrite nth_error_snoc_old by lia. reflexivity.
  - rewrite Hi', (shape_history S), combine_snoc_l by exact Hd.
    destruct ph; try reflexivity.
    rewrite nth_error_snoc_old by lia. reflexivity.
Qed.

End QueueInvariant.

Section QueueProgress.
Variable Task : Type.

Lemma settle_pending (p : pid) (s : settled) (q : Runtime Task) rs :
  nth_error (heap q) p = Some (Pending rs) ->
  settle p s q
  = {| heap := update p (Settled Task s) (heap q);
       jobs := jobs q ++ map (fun r => {| job_reaction := r; argument := s |}) rs;
       running := running q; _chain := _chain q; history := history q |}.
Proof. intro H. unfold settle. rewrite H. reflexivity. Qed.

Lemma chain_value_snoc (done : list settled) (o : settled) (k : nat) :
  k <= List.length done -> chain_value (done ++ [o]) k = chain_value done k.
Proof.
  intro H. destruct k as [|j]; [reflexivity|]. cbn.
  rewrite nth_error_app1 by lia. reflexivity.
Qed.

(** The chain advances: the [catch] reaction of the task that has just
    settled fulfils the chain, whatever the task's outcome. *)
Lemma shaped_tick_waking tasks done (q : Runtime Task) :
  shaped tasks done Waking q ->
  exists q', run_job q = Some q' /\ shaped tasks done Idle q'
             /\ history q' = history q.
Proof.
  intro Sh.
  pose proof (shape_done Sh) as Hd. pose proof (shape_phase Sh) as Hp.
  pose proof (shape_heap Sh) as Hl. pose proof (shape_jobs Sh) as Hj.
  pose proof (shape_front Sh) as Hf. cbn in Hp.
  destruct (nth_error done (List.length done - 1)) as [o|] eqn:Eo;
    [|apply nth_error_None in Eo; lia].
  assert (Cv : chain_value done (List.length done)
               = match o with Fulfilled v => v | Rejected _ => None end).
  { destruct (List.length done) as [|j] eqn:E; [lia|]. cbn.
    replace (S j - 1) with j in Eo by lia. rewrite Eo. reflexivity. }
  set (q0 := {| heap := heap q; jobs := []; running := running q;
                _chain := _chain q; history := history q |}).
  assert (R : run_job q = Some (settle (2 * List.length done)
                                       (Fulfilled (chain_value done (List.length done))) q0)).
  { unfold run_job. rewrite Hj. cbn. rewrite Cv. destruct o; reflexivity. }
  rewrite R. eexists. split; [reflexivity|].
  rewrite (@settle_pending _ _ q0 _ Hf). cbn [jobs app q0 heap running _chain history].
  split; [|reflexivity].
  assert (Lt : 2 * List.length done < List.length (heap q)) by lia.
  constructor; cbn [heap jobs running _chain history].
  - exact Hd.
  - exact I.
  - rewrite length_update by exact Lt. exact Hl.
  - apply (shape_chain Sh).
  - intros k Hk. rewrite nth_error_update by exact Lt.
    destruct (Nat.eqb_spec (2 * k) (2 * List.length done)); [lia|].
    apply (shape_past Sh). exact Hk.
  - rewrite nth_error_update, Nat.eqb_refl by exact Lt. reflexivity.
  - intros k Hk. rewrite nth_error_update by exact Lt.
    destruct (Nat.eqb_spec (2 * k) (2 * List.length done)); [lia|].
    apply (shape_future Sh). exact Hk.
  - intros k o' Ho. rewrite nth_error_update by exact Lt.
    destruct (Nat.eqb_spec (2 * k + 1) (2 * List.length done)); [lia|].
    apply (shape_settled Sh). exact Ho.
  - intros k Hk. rewrite nth_error_update by exact Lt.
    destruct (Nat.eqb_spec (2 * k + 1) (2 * List.length done)); [lia|].
    apply (shape_pending Sh). exact Hk.
  - reflexivity.
  - apply (shape_running Sh).
  - apply (shape_history Sh).
Qed.

(** The next task begins as soon as the chain before it is fulfilled. *)
Lemma shaped_tick_idle tasks done (q : Runtime Task) (t : Task) :
  shaped tasks done Idle q ->
  nth_error tasks (List.length done) = Some t ->
  exists q', run_job q = Some q' /\ shaped tasks done Busy q'
             /\ history q' = history q ++ [Begin t]
             /\ running q' = [(t, 2 * List.length done + 1)].
Proof.
  intros Sh Ht.
  assert (Lt : List.length done < List.length tasks)
    by (apply nth_error_Some; congruence).
  pose proof (shape_jobs Sh) as Hj. pose proof (shape_running Sh) as Hr.
  unfold waiting_on in Hj. rewrite Ht in Hj. cbn in Hj, Hr.
  unfold run_job. rewrite Hj. cbn. rewrite Hr.
  eexists. split; [reflexivity|]. cbn [history running app].
  split; [|split; reflexivity].
  constructor; cbn [heap jobs running _chain history].
  - apply (shape_done Sh).
  - exact Lt.
  - apply (shape_heap Sh).
  - apply (shape_chain Sh).
  - apply (shape_past Sh).
  - apply (shape_front Sh).
  - apply (shape_future Sh).
  - apply (shape_settled Sh).
  - apply (shape_pending Sh).
  - reflexivity.
  - rewrite Ht. reflexivity.
  - rewrite Ht, (shape_history Sh). apply sequential_begin.
Qed.

(** A running task settles: its result promise takes its outcome and the
    [catch] reaction on it is scheduled. *)
Lemma shaped_settles tasks done (q : Runtime Task) (t : Task) (o : settled) :
  shaped tasks done Busy q ->
  nth_error tasks (List.length done) = Some t ->
  exists q', task_settles (2 * List.length done + 1) o q = Some q'
             /\ shaped tasks (done ++ [o]) Waking q'
             /\ history q' = history q ++ [End t o].
Proof.
  intros Sh Ht.
  pose proof (shape_done Sh) as Hd. pose proof (shape_phase Sh) as Hp.
  pose proof (shape_heap Sh) as Hl. pose proof (shape_jobs Sh) as Hj.
  pose proof (shape_running Sh) as Hr. rewrite Ht in Hr. cbn in Hp.
  pose proof (shape_pending Sh (k := List.length done)) as Hn.
  specialize (Hn (conj (le_n _) Hp)).
  unfold task_settles. rewrite Hr. cbn [take_running]. rewrite Nat.eqb_refl.
  eexists. split; [reflexivity|].
  match goal with
  | |- context [settle ?p ?s ?q1] => rewrite (@settle_pending p s q1 _ Hn)
  end.
  cbn [heap jobs running _chain history map].
  split; [|reflexivity].
  assert (Lt : 2 * List.length done + 1 < List.length (heap q)) by lia.
  assert (Ln : List.length (done ++ [o]) = List.length done + 1)
    by (rewrite length_app; reflexivity).
  constructor; cbn [heap jobs running _chain history]; rewrite ?Ln.
  - lia.
  - lia.
  - rewrite length_update by exact Lt. exact Hl.
  - apply (shape_chain Sh).
  - intros k Hk. rewrite nth_error_update by exact Lt.
    destruct (Nat.eqb_spec (2 * k) (2 * List.length done + 1)); [lia|].
    rewrite chain_value_snoc by lia.
    destruct (Nat.eq_dec k (List.length done)) as [->|N].
    + apply (shape_front Sh).
    + apply (shape_past Sh). lia.
  - rewrite nth_error_update by exact Lt.
    destruct (Nat.eqb_spec (2 * (List.length done + 1)) (2 * List.length done + 1));
      [lia|].
    apply (shape_future Sh). lia.
  - intros k Hk. rewrite nth_error_update by exact Lt.
    destruct (Nat.eqb_spec (2 * k) (2 * List.length done + 1)); [lia|].
    apply (shape_future Sh). lia.
  - intros k o' Ho. rewrite nth_error_update by exact Lt.
    destruct (Nat.eqb_spec (2 * k + 1) (2 * List.length done + 1)) as [E|N].
    + assert (k = List.length done) by lia. subst k.
      rewrite nth_error_app2, Nat.sub_diag in Ho by lia. cbn in Ho. congruence.
    + apply (shape_settled Sh).
      assert (k < List.length (done ++ [o])) by (apply nth_error_Some; congruence).
      rewrite nth_error_app1 in Ho by lia. exact Ho.
  - intros k Hk. rewrite nth_error_update by exact Lt.
    destruct (Nat.eqb_spec (2 * k + 1) (2 * List.length done + 1)); [lia|].
    apply (shape_pending Sh). lia.
  - rewrite Hj. replace (List.length done + 1 - 1) with (List.length done) by lia.
    rewrite nth_error_app2, Nat.sub_diag by lia. cbn [nth_error app].
    replace (2 * (List.length done + 1)) with (2 * List.length done + 2) by lia.
    reflexivity.
  - reflexivity.
  - rewrite (shape_history Sh), Ht, (@combine_snoc_r _ _ tasks t o done Ht).
    apply sequential_end.
Qed.

End QueueProgress.

Section QueueRuns.
Variable Task : Type.

Lemma shaped_step (l : label Task) tasks done ph (q q' : Runtime Task) out :
  shaped tasks done ph q ->
  step l q = Some (q', out) ->
  exists tasks' done' ph',
    shaped tasks' done' ph' q'
    /\ match l, out with
       | post t, Some p => tasks' = tasks ++ [t] /\ p = 2 * List.length tasks + 1
       | post _, None => False
       | _, _ => tasks' = tasks
       end.
Proof.
  intros Sh St. destruct l as [t| |p o]; cbn in St.
  - destruct (postTask t q) as [p q1] eqn:E. inversion St; subst.
    destruct (shaped_post t Sh) as [F Sh']. rewrite E in F, Sh'. cbn in F, Sh'.
    exists (tasks ++ [t]), done, ph. auto.
  - destruct (run_job q) as [q1|] eqn:E; [|discriminate]. inversion St; subst.
    destruct ph.
    + destruct (shaped_tick_waking Sh) as (q2 & R & Sh' & _).
      rewrite E in R. inversion R; subst. exists tasks, done, Idle. auto.
    + destruct (nth_error tasks (List.length done)) as [t|] eqn:Ht.
      * destruct (shaped_tick_idle Sh Ht) as (q2 & R & Sh' & _).
        rewrite E in R. inversion R; subst. exists tasks, done, Busy. auto.
      * unfold run_job in E. rewrite (shape_jobs Sh) in E.
        unfold waiting_on in E. rewrite Ht in E. cbn in E. discriminate E.
    + unfold run_job in E. rewrite (shape_jobs Sh) in E. cbn in E. discriminate E.
  - destruct (task_settles p o q) as [q1|] eqn:E; [|discriminate]. inversion St; subst.
    unfold task_settles in E. pose proof (shape_running Sh) as Hr.
    destruct ph; cbn in Hr; try (rewrite Hr in E; discriminate E).
    destruct (nth_error tasks (List.length done)) as [t|] eqn:Ht;
      [|rewrite Hr in E; discriminate E].
    destruct (Nat.eqb_spec p (2 * List.length done + 1)) as [->|N].
    + destruct (shaped_settles o Sh Ht) as (q2 & R & Sh' & _).
      unfold task_settles in R. rewrite R in E. inversion E; subst.
      exists tasks, (done ++ [o]), Waking. auto.
    + rewrite Hr in E. cbn in E.
      match type of E with
      | context [if ?b then _ else _] => destruct b eqn:X
      end; [apply Nat.eqb_eq in X; lia|discriminate E].
Qed.

Lemma exec_shaped (ls : list (label Task)) :
  forall (q q' : Runtime Task) posted posted' done ph,
    shaped (map fst posted) done ph q ->
    results_numbered posted ->
    exec ls q posted = Some (q', posted') ->
    exists done' ph',
      shaped (map fst posted') done' ph' q' /\ results_numbered posted'.
Proof.
  induction ls as [|l rest IH]; intros q q' posted posted' done ph Sh Rn E; cbn in E.
  - inversion E; subst. exists done, ph. auto.
  - destruct (step l q) as [[q1 out]|] eqn:St; [|discriminate].
    destruct (shaped_step _ Sh St) as (tasks1 & done1 & ph1 & Sh1 & Rel).
    destruct l as [t| |p o].
    + destruct out as [p|]; [|contradiction]. destruct Rel as [-> ->].
      eapply IH; [| |exact E].
      * rewrite map_app. exact Sh1.
      * intros k t' p' H.
        destruct (Nat.lt_ge_cases k (List.length posted)) as [Lt|Ge].
        -- rewrite nth_error_app1 in H by exact Lt. eapply Rn; exact H.
        -- rewrite nth_error_app2 in H by exact Ge.
           destruct (k - List.length posted) as [|d] eqn:D.
           ++ cbn in H. inversion H; subst. rewrite length_map. lia.
           ++ cbn in H. destruct d; discriminate H.
    + subst tasks1. destruct out; eapply IH; eauto.
    + subst tasks1. destruct out; eapply IH; eauto.
Qed.

Lemma shaped_chains_not_rejected tasks done ph (q : Runtime Task) (k : nat) :
  shaped tasks done ph q ->
  is_rejected (promise_state q (2 * k)) = false.
Proof.
  intro Sh. unfold promise_state.
  destruct (Nat.lt_trichotomy k (List.length done)) as [Lt|[->|Gt]].
  - rewrite (shape_past Sh) by exact Lt. reflexivity.
  - rewrite (shape_front Sh). destruct ph; reflexivity.
  - destruct (Nat.le_gt_cases k (List.length tasks)) as [Le|G].
    + rewrite (shape_future Sh) by lia. reflexivity.
    + assert (N : nth_error (heap q) (2 * k) = None)
        by (apply nth_error_None; rewrite (shape_heap Sh); lia).
      rewrite N. reflexivity.
Qed.

End QueueRuns.

Section QueueClaims.
Variable Task : Type.

(** C7.  Whatever is posted to a fresh queue, and however posts, microtasks
    and settlements interleave: the tasks begin in submission order, each
    only after the one before it has settled, with success or with
    failure, and at most one is running; the promise [postTask] returned
    for a task is pending until that task settles and then holds that
    task's own outcome; no promise of the chain is ever rejected, so a
    failure is not passed on; and the chain keeps advancing: when no task
    is running and a posted task has not begun, at most two microtasks
    make it begin, and a running task can settle with any outcome. *)
Theorem queue_runs_tasks_in_order
        (ls : list (label Task)) (q : Runtime Task) (posted : list (Task * pid)) :
  exec ls (TaskQueue_new Task) [] = Some (q, posted) ->
  exists (done : list settled) (current : option Task),
    history q = sequential (combine (map fst posted) done) current
    /\ List.length done <= List.length posted
    /\ (forall t, current = Some t ->
          nth_error (map fst posted) (List.length done) = Some t
          /\ running q = [(t, 2 * List.length done + 1)])
    /\ (current = None -> running q = [])
    /\ (forall k t p, nth_error posted k = Some (t, p) ->
          promise_state q p
          = Some match nth_error done k with
                 | Some o => Settled Task o
                 | None => Pending [catch_reaction Task (p + 1)]
                 end)
    /\ (forall k, is_rejected (promise_state q (2 * k)) = false)
    /\ _chain q = 2 * List.length posted
    /\ (forall t, current = None ->
          nth_error (map fst posted) (List.length done) = Some t ->
          exists n q',
            n <= 2
            /\ exec (repeat (tick Task) n) q posted = Some (q', posted)
            /\ history q' = history q ++ [Begin t])
    /\ (forall t o, current = Some t ->
          exists q',
            exec [settles Task (2 * List.length done + 1) o] q posted = Some (q', posted)
            /\ history q' = history q ++ [End t o]).
Proof.
  intro E.
  destruct (@exec_shaped Task ls (TaskQueue_new Task) q [] posted [] Idle
              (shaped_new Task)) as (done & ph & Sh & Rn); [|exact E|].
  { intros k t p H. destruct k; discriminate H. }
  exists done,
    match ph with Busy => nth_error (map fst posted) (List.length done) | _ => None end.
  pose proof (shape_done Sh) as Hd. rewrite length_map in Hd.
  split; [apply (shape_history Sh)|]. split; [exact Hd|]. split; [|split].
  - intros t Hc. destruct ph; try discriminate Hc. split; [exact Hc|].
    rewrite (shape_running Sh), Hc. reflexivity.
  - intro Hc. rewrite (shape_running Sh). destruct ph; try reflexivity.
    rewrite Hc. reflexivity.
  - split; [|split; [|split; [|split]]].
    + intros k t p H. pose proof (Rn k t p H) as ->. unfold promise_state.
      destruct (nth_error done k) as [o|] eqn:Ho.
      * apply (shape_settled Sh). exact Ho.
      * apply nth_error_None in Ho.
        assert (k < List.length posted) by (apply nth_error_Some; congruence).
        rewrite (shape_pending Sh) by (rewrite length_map; lia).
        replace (2 * k + 1 + 1) with (2 * k + 2) by lia. reflexivity.
    + intro k. apply (shaped_chains_not_rejected k Sh).
    + rewrite (shape_chain Sh), length_map. reflexivity.
    + intros t Hc Ht. destruct ph.
      * destruct (shaped_tick_waking Sh) as (q1 & R1 & Sh1 & H1).
        destruct (shaped_tick_idle Sh1 Ht) as (q2 & R2 & _ & H2 & _).
        exists 2, q2. split; [lia|]. cbn. rewrite R1. cbn. rewrite R2. cbn.
        split; [reflexivity|]. rewrite H2, H1. reflexivity.
      * destruct (shaped_tick_idle Sh Ht) as (q2 & R2 & _ & H2 & _).
        exists 1, q2. split; [lia|]. cbn. rewrite R2. cbn.
        split; [reflexivity|exact H2].
      * congruence.
    + intros t o Hc. destruct ph; try discriminate Hc.
      destruct (shaped_settles o Sh Hc) as (q1 & R & _ & H1).
      exists q1. cbn [exec step]. rewrite R. cbn. split; [reflexivity|exact H1].
Qed.

End QueueClaims.

(** A queue of three tasks of which the first fails: the second begins all
    the same, the third waits for it, and each result promise holds its own
    task's outcome. *)
Example failing_task_does_not_block :
  match exec [post 10; post 20; tick Task_id; settles Task_id 1 (Rejected (Failure "boom"));
              post 30; tick Task_id; tick Task_id;
              settles Task_id 3 (Fulfilled (Some "png"%string))]
             (TaskQueue_new Task_id) [] with
  | Some (q, posted) =>
      history q = [Begin 10; End 10 (Rejected (Failure "boom"));
                   Begin 20; End 20 (Fulfilled (Some "png"%string))]
      /\ posted = [(10, 1); (20, 3); (30, 5)]
      /\ promise_state q 1 = Some (Settled Task_id (Rejected (Failure "boom")))
      /\ promise_state q 3 = Some (Settled Task_id (Fulfilled (Some "png"%string)))
      /\ is_rejected (promise_state q (_chain q)) = false
  | None => False
  end.
Proof. vm_compute. repeat split. Qed.

Lemma queue_runs_tasks_in_order_witness :
  match exec [post 10; post 20; tick Task_id; settles Task_id 1 (Rejected (Failure "boom"));
              post 30; tick Task_id; tick Task_id]
             (TaskQueue_new Task_id) [] with
  | Some (q, posted) =>
      exists (done : list settled) (current : option Task_id),
        history q = sequential (combine (map fst posted) done) current
        /\ List.length done <= List.length posted
        /\ (forall t, current = Some t ->
              nth_error (map fst posted) (List.length done) = Some t
              /\ running q = [(t, 2 * List.length done + 1)])
        /\ (current = None -> running q = [])
        /\ (forall k t p, nth_error posted k = Some (t, p) ->
              promise_state q p
              = Some match nth_error done k with
                     | Some o => Settled Task_id o
                     | None => Pending [catch_reaction Task_id (p + 1)]
                     end)
        /\ (forall k, is_rejected (promise_state q (2 * k)) = false)
        /\ _chain q = 2 * List.length posted
        /\ (forall t, current = None ->
              nth_error (map fst posted) (List.length done) = Some t ->
              exists n q',
                n <= 2
                /\ exec (repeat (tick Task_id) n) q posted = Some (q', posted)
                /\ history q' = history q ++ [Begin t])
        /\ (forall t o, current = Some t ->
              exists q',
                exec [settles Task_id (2 * List.length done + 1) o] q posted = Some (q', posted)
                /\ history q' = history q ++ [End t o])
  | None => False
  end.
Proof.
  destruct (exec [post 10; post 20; tick Task_id; settles Task_id 1 (Rejected (Failure "boom"));
                  post 30; tick Task_id; tick Task_id]
                 (TaskQueue_new Task_id) []) as [[q posted]|] eqn:E.
  - apply (@queue_runs_tasks_in_order Task_id _ q posted E).
  - vm_compute in E. discriminate E.
Defined.

(* ================================================================== *)
(** ** trimClipToSize: where the trimmed rect lies *)
(* ================================================================== *)

Section TrimGeometry.
Local Open Scope Q_scope.

(** Both clamps of the source land in [[0, hi]] once [hi] is not negative. *)
Lemma clamp_code_range (hi v : Q) :
  0 <= hi -> 0 <= Math_max 0 (Math_min v hi) <= hi.
Proof.
  intro Hhi.
  destruct (Math_min_cases v hi) as [[? Em]|[? Em]];
    destruct (Math_max_cases 0 (Math_min v hi)) as [[? EM]|[? EM]];
    rewrite EM; rewrite ?Em in *; lra.
Qed.

(** With a bound that is not positive both clamps are [0]. *)
Lemma clamp_code_empty (hi v : Q) :
  hi <= 0 -> Math_max 0 (Math_min v hi) == 0.
Proof.
  intro Hhi.
  destruct (Math_min_cases v hi) as [[? Em]|[? Em]];
    destruct (Math_max_cases 0 (Math_min v hi)) as [[? EM]|[? EM]];
    rewrite EM; rewrite ?Em in *; lra.
Qed.

Lemma trimClipToSize_zero_width clip size :
  Rect.width (trimmed clip size) == 0 ->
  trimClipToSize clip size = Throw (Error clip_error).
Proof.
  intro Z. rewrite trimClipToSize_unfold.
  apply number_truthy_false in Z. rewrite Z. reflexivity.
Qed.

Lemma trimClipToSize_zero_height clip size :
  Rect.height (trimmed clip size) == 0 ->
  trimClipToSize clip size = Throw (Error clip_error).
Proof.
  intro Z. rewrite trimClipToSize_unfold.
  apply number_truthy_false in Z. rewrite Z, andb_false_r. reflexivity.
Qed.





(** One axis of a clip that lies beside the interval [[0, hi]]: both
    clamps coincide. *)
Lemma clamp_code_outside (hi v d : Q) :
  0 <= d -> hi <= v \/ v + d <= 0 ->
  Math_max 0 (Math_min (v + d) hi) - Math_max 0 (Math_min v hi) == 0.
Proof.
  intros Hd O.
  destruct (Math_min_cases v hi) as [[? Em]|[? Em]];
    destruct (Math_max_cases 0 (Math_min v hi)) as [[? EM]|[? EM]];
    destruct (Math_min_cases (v + d) hi) as [[? Em']|[? Em']];
    destruct (Math_max_cases 0 (Math_min (v + d) hi)) as [[? EM']|[? EM']];
    rewrite EM, EM'; rewrite ?Em, ?Em' in *; destruct O; lra.
Qed.

(** X4.  A clip of non-negative width and height that lies beside the
    image, at or beyond its right or bottom edge, or ending at or before
    its left or top edge, is refused with the message of the empty clipped
    area. *)
Theorem trimClipToSize_outside_fails (clip : Rect.t) (size : Size.t) :
  0 <= Rect.width clip -> 0 <= Rect.height clip ->
  Size.width size <= Rect.x clip \/ Rect.x clip + Rect.width clip <= 0
  \/ Size.height size <= Rect.y clip \/ Rect.y clip + Rect.height clip <= 0 ->
  trimClipToSize clip size = Throw (Error clip_error).
Proof.
  intros Cw Ch O.
  assert (O' : (Size.width size <= Rect.x clip \/ Rect.x clip + Rect.width clip <= 0)
               \/ (Size.height size <= Rect.y clip \/ Rect.y clip + Rect.height clip <= 0))
    by tauto.
  destruct O' as [Ox|Oy].
  - apply trimClipToSize_zero_width. unfold trimmed; cbn.
    exact (@clamp_code_outside (Size.width size) (Rect.x clip) (Rect.width clip) Cw Ox).
  - apply trimClipToSize_zero_height. unfold trimmed; cbn.
    exact (@clamp_code_outside (Size.height size) (Rect.y clip) (Rect.height clip) Ch Oy).
Qed.

Lemma trimClipToSize_outside_fails_witness :
  trimClipToSize (Rect.mk 900 10 200 50) (Size.mk 800 600) = Throw (Error clip_error).
Proof.
  apply (@trimClipToSize_outside_fails (Rect.mk 900 10 200 50) (Size.mk 800 600));
    cbn; [lra | lra | left; lra].
Defined.

(** X5.  In an image without area nothing can be clipped: when the width
    or the height of the size is zero or negative, every clip is refused. *)
Theorem trimClipToSize_empty_size_fails (clip : Rect.t) (size : Size.t) :
  Size.width size <= 0 \/ Size.height size <= 0 ->
  trimClipToSize clip size = Throw (Error clip_error).
Proof.
  intros [E|E].
  - apply trimClipToSize_zero_width. unfold trimmed; cbn.
    rewrite !(clamp_code_empty _ E). lra.
  - apply trimClipToSize_zero_height. unfold trimmed; cbn.
    rewrite !(clamp_code_empty _ E). lra.
Qed.

Lemma trimClipToSize_empty_size_fails_witness :
  trimClipToSize (Rect.mk 0 0 10 10) (Size.mk 0 600) = Throw (Error clip_error).
Proof.
  apply (@trimClipToSize_empty_size_fails (Rect.mk 0 0 10 10) (Size.mk 0 600)).
  left. cbn. lra.
Defined.
End TrimGeometry.

Section TrimGeometryOnDoubles.
Local Open Scope double_scope.

(** X1.  Whatever [trimClipToSize] returns has its two corners, as the
    function computes them, within the image it was trimmed to: for a size
    of non-negative width and height, the origin of the returned rect lies
    between [0] and the width (height) of the size, and the returned width
    (height) is the difference, in double arithmetic, between a coordinate
    in that range and the origin.  Nothing is said of the sum of the
    returned origin and extent, which the function does not form. *)
Theorem trimClipToSize_within_size
        (clip : Double.Rect.t) (size : Double.Size.t) (r : Double.Rect.t) :
  0 <= Double.Size.width size -> 0 <= Double.Size.height size ->
  Double.trimClipToSize clip size = Ok r ->
  exists x2 y2,
    (0 <= Double.Rect.x r /\ Double.Rect.x r <= Double.Size.width size
     /\ 0 <= x2 /\ x2 <= Double.Size.width size
     /\ Double.Rect.width r = x2 - Double.Rect.x r)
    /\ (0 <= Double.Rect.y r /\ Double.Rect.y r <= Double.Size.height size
        /\ 0 <= y2 /\ y2 <= Double.Size.height size
        /\ Double.Rect.height r = y2 - Double.Rect.y r).
Proof.
  intros Hw Hh H. apply double_trimClipToSize_Ok in H as (-> & W & H).
  apply truthy_not_nan in W, H. unfold Double.trimmed in *; cbn in *.
  pose proof (@double_clamp_code_nan _ _ (@sub_nan_l _ _ W)) as Nx2.
  pose proof (@double_clamp_code_nan _ _ (@sub_nan_r _ _ W)) as Nx.
  pose proof (@double_clamp_code_nan _ _ (@sub_nan_l _ _ H)) as Ny2.
  pose proof (@double_clamp_code_nan _ _ (@sub_nan_r _ _ H)) as Ny.
  destruct (@double_clamp_code_range _ _ Hw Nx) as [? ?].
  destruct (@double_clamp_code_range _ _ Hw Nx2) as [? ?].
  destruct (@double_clamp_code_range _ _ Hh Ny) as [? ?].
  destruct (@double_clamp_code_range _ _ Hh Ny2) as [? ?].
  eexists. eexists. repeat split; eassumption.
Qed.

Lemma trimClipToSize_within_size_witness :
  exists r x2 y2,
    Double.trimClipToSize
      (Double.Rect.mk (Double.of_Z (-50)) (Double.of_Z 10) (Double.of_Z 200) (Double.of_Z 50))
      (Double.Size.mk (Double.of_Z 800) (Double.of_Z 600)) = Ok r
    /\ (0 <= Double.Rect.x r /\ Double.Rect.x r <= Double.of_Z 800
        /\ 0 <= x2 /\ x2 <= Double.of_Z 800
        /\ Double.Rect.width r = x2 - Double.Rect.x r)
    /\ (0 <= Double.Rect.y r /\ Double.Rect.y r <= Double.of_Z 600
        /\ 0 <= y2 /\ y2 <= Double.of_Z 600
        /\ Double.Rect.height r = y2 - Double.Rect.y r).
Proof.
  destruct (@trimClipToSize_within_size
              (Double.Rect.mk (Double.of_Z (-50)) (Double.of_Z 10)
                              (Double.of_Z 200) (Double.of_Z 50))
              (Double.Size.mk (Double.of_Z 800) (Double.of_Z 600))
              (Double.Rect.mk 0 (Double.of_Z 10) (Double.of_Z 150) (Double.of_Z 50)))
    as (x2 & y2 & H);
    [vm_compute; reflexivity | vm_compute; reflexivity | vm_compute; reflexivity |].
  exists (Double.Rect.mk 0 (Double.of_Z 10) (Double.of_Z 150) (Double.of_Z 50)), x2, y2.
  split; [vm_compute; reflexivity|exact H].
Defined.
End TrimGeometryOnDoubles.

(* ================================================================== *)
(** ** validateScreenshotOptions: which failure is reported *)
(* ================================================================== *)

Section ValidationOrder.

Lemma validate_quality_defaults (t : value) (f : option Format) (q : value) :
  validate_type t = Ok f ->
  failed (validate_quality match f with Some f => f | None => png end q)
  = is_defined q
    && (negb (is_string t "jpeg")
        || match q with
           | VNumber n => negb (Number_isInteger n) || negb (Qle_bool 0 n) || negb (Qle_bool n 100)
           | _ => true
           end).
Proof.
  intro T. apply validate_type_Ok in T. rewrite <- T.
  rewrite validate_quality_failed. destruct f as [[|]|]; reflexivity.
Qed.

(** X6.  Validation reports the first check that fails, in the order type,
    quality, clip.  An unknown type is reported with the value given, before
    anything else is looked at; with an acceptable type, a quality given
    for a capture that is not jpeg is reported as unsupported for png
    screenshots; and whenever the type or the quality is refused, the
    outcome is the same whatever clip the options carry. *)
Theorem validation_reports_first_failure (o : ScreenshotOptions) :
  (bad_type o = true ->
   validateScreenshotOptions o
   = Throw (Error [Lit "Unknown options.type value: "; Val (type o)]))
  /\ (bad_type o = false -> is_defined (quality o) = true ->
      is_string (type o) "jpeg" = false ->
      validateScreenshotOptions o
      = Throw (Error [Lit "options.quality is unsupported for the "; Lit "png";
                      Lit " screenshots"]))
  /\ (bad_type o = true \/ bad_quality o = true ->
      forall c, validateScreenshotOptions (clipping o c) = validateScreenshotOptions o).
Proof.
  repeat split.
  - unfold bad_type. intro B.
    apply andb_true_iff in B as [B J]. apply andb_true_iff in B as [T P].
    apply negb_true_iff in J, P.
    unfold validateScreenshotOptions, validate_type. rewrite T, P, J. reflexivity.
  - intros B D J. unfold validateScreenshotOptions.
    destruct (validate_type (type o)) as [f|e] eqn:T.
    + pose proof (validate_type_Ok _ T) as F. rewrite J in F.
      assert (Ef : match f with Some f => f | None => png end = png)
        by (destruct f as [[|]|]; [reflexivity|discriminate F|reflexivity]).
      cbn [bind]. rewrite Ef. unfold validate_quality. rewrite D. reflexivity.
    + pose proof (validate_type_failed (type o)) as F. rewrite T in F.
      unfold bad_type in B. cbn in F. congruence.
  - intros B c. unfold validateScreenshotOptions. cbn [type quality clip clipping].
    destruct (validate_type (type o)) as [f|e] eqn:T; [|reflexivity].
    cbn [bind].
    destruct (validate_quality match f with Some f => f | None => png end (quality o))
      as [u|e] eqn:V; [|reflexivity].
    exfalso.
    pose proof (validate_type_failed (type o)) as F. rewrite T in F.
    pose proof (@validate_quality_defaults _ _ (quality o) T) as G. rewrite V in G.
    unfold bad_type, bad_quality in B. cbn in F, G.
    destruct B as [B|B]; congruence.
Qed.
End ValidationOrder.

(* ================================================================== *)
(** ** Whole captures: what a run leaves of the world *)
(* ================================================================== *)

Section Runs.
Variable page : Page.

(** A bind that returns has run both of its parts. *)
Lemma bindM_Ok {A B} (m : M A) (k : A -> M B) w b :
  returned (bindM m k w) = Ok b ->
  exists a, returned (m w) = Ok a
    /\ returned (k a (world (m w))) = Ok b
    /\ trace (bindM m k w) = trace (m w) ++ trace (k a (world (m w)))
    /\ world (bindM m k w) = world (k a (world (m w))).
Proof.
  intro H. pose proof H as H'. rewrite returned_bindM in H'.
  rewrite trace_bindM, world_bindM.
  destruct (returned (m w)) as [a|e]; [|discriminate].
  exists a. auto.
Qed.

Lemma keeps_frames_ret {A} (a : A) : keeps_frames (ret a).
Proof. intro w; reflexivity. Qed.

Lemma keeps_frames_throw {A} (e : error) : keeps_frames (@throw A e).
Proof. intro w; reflexivity. Qed.

Lemma keeps_frames_lift {A} (r : result A) : keeps_frames (lift r).
Proof. intro w; reflexivity. Qed.

Lemma keeps_frames_emit (e : event) : keeps_frames (emit e).
Proof. intro w; reflexivity. Qed.

Lemma keeps_frames_call (e : event) : keeps_frames (call page e).
Proof. intro w; reflexivity. Qed.

Lemma keeps_frames_throwIfAborted : keeps_frames (throwIfAborted page).
Proof. intro w; reflexivity. Qed.

Lemma keeps_frames_when (b : bool) (m : M unit) :
  keeps_frames m -> keeps_frames (when b m).
Proof. destruct b; [auto|intros _; apply keeps_frames_ret]. Qed.

Lemma keeps_frames_bind {A B} (m : M A) (k : A -> M B) :
  keeps_frames m -> (forall a, keeps_frames (k a)) -> keeps_frames (bindM m k).
Proof.
  intros Hm Hk w. rewrite world_bindM.
  destruct (returned (m w)); [rewrite Hk|]; apply Hm.
Qed.

Lemma keeps_frames_alongside {A} (one : M unit) (others : M A) :
  keeps_frames one -> keeps_frames others -> keeps_frames (alongside one others).
Proof. intros H1 H2 w. rewrite world_alongside, H2. apply H1. Qed.

Lemma keeps_frames_resolve_masks pairs m : keeps_frames (resolve_masks page pairs m).
Proof.
  revert m; induction pairs as [|[f s] rest IH]; intro m; cbn [resolve_masks].
  - apply keeps_frames_ret.
  - apply keeps_frames_alongside; [apply keeps_frames_call|apply IH].
Qed.

Lemma keeps_frames_mask_frames keys m : keeps_frames (mask_frames page keys m).
Proof.
  induction keys as [|f rest IH]; cbn [mask_frames].
  - apply keeps_frames_ret.
  - apply keeps_frames_alongside; [apply keeps_frames_call|apply IH].
Qed.
End Runs.

Ltac keeps_frames_step :=
  first
    [ apply keeps_frames_ret | apply keeps_frames_throw | apply keeps_frames_lift
    | apply keeps_frames_throwIfAborted
    | apply keeps_frames_when
    | apply keeps_frames_emit | apply keeps_frames_call
    | apply keeps_frames_resolve_masks
    | apply keeps_frames_mask_frames
    | apply keeps_frames_bind; [|intro] ].

Ltac keeps_frames_auto := repeat keeps_frames_step.

Section RunsOfParts.
Variable page : Page.

Lemma keeps_frames_maskElements options : keeps_frames (_maskElements page options).
Proof.
  unfold _maskElements.
  destruct (mask options) as [[|p rest]|]; cbv beta iota; keeps_frames_auto.
Qed.

Lemma keeps_frames_screenshot format documentRect viewportRect fitsViewport options :
  keeps_frames (_screenshot page format documentRect viewportRect fitsViewport options).
Proof.
  unfold _screenshot.
  do 4 (apply keeps_frames_bind; [keeps_frames_auto|intro]).
  apply keeps_frames_bind; [apply keeps_frames_maskElements|intro].
  keeps_frames_auto.
Qed.

Lemma keeps_frames_originalViewportSize : keeps_frames (_originalViewportSize page).
Proof. unfold _originalViewportSize. destruct (viewportSize page); keeps_frames_auto. Qed.

Lemma keeps_frames_fullPageSize : keeps_frames (_fullPageSize page).
Proof. unfold _fullPageSize. keeps_frames_auto. Qed.

(** Evaluating a script in the frames keeps their identities, whichever
    evaluations are rejected. *)
Lemma evaluate_each_ids name script fs n :
  map frame_id (fst (fst (evaluate_each page name script fs n))) = map frame_id fs.
Proof.
  revert n; induction fs as [|f rest IH]; intro n; cbn; [reflexivity|].
  specialize (IH (S n)).
  destruct (evaluate_each page name script rest (S n)) as [[fs' n'] t]; cbn in *.
  rewrite IH. destruct (rejects page n); reflexivity.
Qed.

Lemma evaluate_in_frames_ids name script w :
  map frame_id (frames (world (evaluate_in_frames page name script w)))
  = map frame_id (frames w).
Proof.
  unfold evaluate_in_frames.
  pose proof (evaluate_each_ids name script (frames w) (page_calls w)) as H.
  destruct (evaluate_each page name script (frames w) (page_calls w)) as [[fs n] t].
  exact H.
Qed.

Lemma evaluate_in_frames_checkpoints name script w :
  checkpoints (world (evaluate_in_frames page name script w)) = checkpoints w.
Proof.
  unfold evaluate_in_frames.
  destruct (evaluate_each page name script (frames w) (page_calls w)) as [[fs n] t].
  reflexivity.
Qed.


(** The world [prepare] leaves: the frames evaluated, no checkpoint
    passed. *)
Lemma prepare_world options w :
  world (prepare page options w)
  = world (evaluate_in_frames page
             (fun f => evaluate_freeze f (hideCaret options) (disableAnimations options)
                         (waitForFonts options))
             (fun f => freeze (hideCaret options) (disableAnimations options)
                         (waitForFonts options) (getAnimations f)) w).
Proof.
  unfold prepare, _preparePageForScreenshot.
  rewrite !world_bindM.
  destruct (disableAnimations options), (waitForFonts options); cbn;
    rewrite ?returned_evaluate_in_frames; reflexivity.
Qed.

Lemma prepare_ids options w :
  map frame_id (frames (world (prepare page options w))) = map frame_id (frames w).
Proof. rewrite prepare_world. apply evaluate_in_frames_ids. Qed.

Lemma prepare_checkpoints options w :
  checkpoints (world (prepare page options w)) = checkpoints w.
Proof. rewrite prepare_world. apply evaluate_in_frames_checkpoints. Qed.


Lemma restore_trace w :
  trace (_restorePageAfterScreenshot page w)
  = map evaluate_restore (map frame_id (frames w)).
Proof. apply trace_restore. Qed.

(** Sending a script to the frames adds it to what is on its way to each
    of them, under the number of its call, and changes nothing else. *)
Lemma send_each_frames name (fs : list FrameState) :
  forall n,
    fst (fst (send_each name fs n))
    = map (fun p => sent (fst p) (snd p)) (combine (seq n (List.length fs)) fs).
Proof.
  induction fs as [|f rest IH]; intro n; cbn; [reflexivity|].
  specialize (IH (S n)).
  destruct (send_each name rest (S n)) as [[fs' n'] t].
  cbn in *. rewrite IH. reflexivity.
Qed.

Lemma restore_world_frames w :
  frames (world (_restorePageAfterScreenshot page w))
  = map (fun p => sent (fst p) (snd p))
        (combine (seq (page_calls w) (List.length (frames w))) (frames w)).
Proof.
  unfold _restorePageAfterScreenshot.
  pose proof (send_each_frames evaluate_restore (frames w) (page_calls w)) as E.
  destruct (send_each evaluate_restore (frames w) (page_calls w)) as [[fs n] t].
  exact E.
Qed.

Lemma restore_world_checkpoints w :
  checkpoints (world (_restorePageAfterScreenshot page w)) = checkpoints w.
Proof.
  unfold _restorePageAfterScreenshot.
  destruct (send_each evaluate_restore (frames w) (page_calls w)) as [[fs n] t].
  reflexivity.
Qed.

Lemma restore_world_ids w :
  map frame_id (frames (world (_restorePageAfterScreenshot page w)))
  = map frame_id (frames w).
Proof.
  rewrite restore_world_frames.
  generalize (page_calls w). induction (frames w) as [|f rest IH]; intro n;
    [reflexivity|].
  cbn. rewrite IH. reflexivity.
Qed.
End RunsOfParts.

(* ================================================================== *)
(** ** The pixel-capture primitive is called once *)
(* ================================================================== *)

Section CaptureOnce.
Variable page : Page.

Lemma captures_app (s t : list event) : captures (s ++ t) = captures s + captures t.
Proof. unfold captures. rewrite filter_app. apply length_app. Qed.

Lemma captures_none (t : list event) : Forall no_capture t -> captures t = 0.
Proof.
  unfold captures. induction 1 as [|e t He _ IH]; [reflexivity|].
  cbn. rewrite He. exact IH.
Qed.

Lemma captures_bind_before {A B} (m : M A) (k : A -> M B) (n : nat) :
  emits no_capture m -> (forall a w, captures (trace (k a w)) <= n) ->
  forall w, captures (trace (bindM m k w)) <= n.
Proof.
  intros Hm Hk w. rewrite trace_bindM, captures_app, (captures_none (Hm w)).
  destruct (returned (m w)); [apply Hk|apply Nat.le_0_l].
Qed.

Lemma captures_bind_after {A B} (m : M A) (k : A -> M B) (n : nat) :
  (forall w, captures (trace (m w)) <= n) -> (forall a, emits no_capture (k a)) ->
  forall w, captures (trace (bindM m k w)) <= n.
Proof.
  intros Hm Hk w. rewrite trace_bindM, captures_app.
  destruct (returned (m w)) as [a|e].
  - rewrite (captures_none (Hk a _)), Nat.add_0_r. apply Hm.
  - cbn. rewrite Nat.add_0_r. apply Hm.
Qed.

Lemma screenshot_captures_once format documentRect viewportRect fitsViewport options w :
  captures (trace (_screenshot page format documentRect viewportRect fitsViewport
                               options w)) <= 1.
Proof.
  revert w. unfold _screenshot.
  do 4 (apply captures_bind_before; [emits_auto|intros _]).
  apply captures_bind_before; [apply emits_maskElements; reflexivity|intros hasHighlight].
  apply captures_bind_before; [emits_auto|intros _].
  apply captures_bind_after; [intro w; apply Nat.le_refl|intros _].
  emits_auto.
Qed.

Lemma after_screenshot_quiet (buffer : Buffer) :
  emits no_capture
        (bindM (throwIfAborted page)
               (fun _ => bindM (_restorePageAfterScreenshot page) (fun _ => ret buffer))).
Proof.
  apply emits_bind; [emits_auto|intros _ _].
  apply emits_bind; [apply restore_emits; reflexivity|intros _ _].
  emits_auto.
Qed.

(** X7.  No capture calls the pixel-capture primitive twice: in every run
    of a page, full-page or element capture, whatever aborts or is rejected
    on the way, [takeScreenshot] is called at most once. *)
Theorem capture_primitive_at_most_once (c : Capture) (w : World) :
  captures (trace (run_capture page c w)) <= 1.
Proof.
  revert w. destruct c as [format options|format options]; cbn [run_capture].
  - unfold screenshotPage_task.
    apply captures_bind_before; [emits_auto|intros _].
    apply captures_bind_before; [apply originalViewportSize_emits; reflexivity|intros sizes].
    apply captures_bind_before; [apply prepare_emits; reflexivity|intros _].
    apply captures_bind_before; [emits_auto|intros _].
    destruct (fullPage options).
    + apply captures_bind_before; [unfold _fullPageSize; emits_auto|intros [s|]].
      * apply captures_bind_before; [destruct (clip options); emits_auto|intros r].
        apply captures_bind_after; [intro; apply screenshot_captures_once|].
        intro buffer. apply after_screenshot_quiet.
      * intro w. apply Nat.le_0_l.
    + apply captures_bind_before; [destruct (clip options); emits_auto|intros r].
      apply captures_bind_after; [intro; apply screenshot_captures_once|].
      intro buffer. apply after_screenshot_quiet.
  - unfold screenshotElement_task.
    apply captures_bind_before; [emits_auto|intros _].
    apply captures_bind_before; [apply originalViewportSize_emits; reflexivity|intros sizes].
    apply captures_bind_before; [apply prepare_emits; reflexivity|intros _].
    do 4 (apply captures_bind_before; [emits_auto|intros _]).
    destruct (handle_boundingBox page) as [box|].
    + do 4 (apply captures_bind_before; [emits_auto|intros _]).
      apply captures_bind_after; [intro; apply screenshot_captures_once|].
      intro buffer. apply after_screenshot_quiet.
    + intro w. apply Nat.le_0_l.
Qed.
End CaptureOnce.

(* ================================================================== *)
(** ** A capture that returns *)
(* ================================================================== *)

Ltac ok_bind H R :=
  let T := fresh "T" in
  apply bindM_Ok in H as (? & R & H & T & _); rewrite T; clear T;
  cbv beta zeta in H |- *.

Section Success.
Variable page : Page.

Lemma trace_throwIfAborted w : trace (throwIfAborted page w) = [].
Proof. reflexivity. Qed.

Lemma trace_call e w : trace (call page e w) = [e].
Proof. reflexivity. Qed.

Lemma trace_when_call (b : bool) e w :
  trace (when b (call page e) w) = if b then [e] else [].
Proof. destruct b; reflexivity. Qed.

Lemma override_trace (b : bool) e1 e2 w u :
  returned (when b (bindM (call page e1) (fun _ => emit e2)) w) = Ok u ->
  trace (when b (bindM (call page e1) (fun _ => emit e2)) w)
  = if b then [e1; e2] else [].
Proof.
  destruct b; [|reflexivity]. cbn [when]. intro H.
  apply bindM_Ok in H as (? & _ & _ & T & _). rewrite T. reflexivity.
Qed.

Lemma maskElements_Ok options w b :
  returned (_maskElements page options w) = Ok b -> b = has_mask options.
Proof.
  unfold _maskElements, has_mask.
  destruct (mask options) as [[|p rest]|]; cbv beta iota;
    try (intro H; inversion H; reflexivity).
  intro H.
  do 4 (apply returned_bindM_Ok in H as (? & _ & H)).
  inversion H. reflexivity.
Qed.

Lemma screenshot_Ok format documentRect viewportRect fitsViewport options w buf :
  returned (_screenshot page format documentRect viewportRect fitsViewport options w)
  = Ok buf ->
  buf = screenshot_bytes page
  /\ exists pre,
       trace (_screenshot page format documentRect viewportRect fitsViewport options w)
       = pre ++ takeScreenshot format documentRect viewportRect (quality options)
                               fitsViewport (size_or_device options)
             :: undo format options
       /\ Forall before_capture pre
       /\ (shouldSetDefaultBackground format options = true ->
           In (setBackgroundColor true) pre).
Proof.
  unfold _screenshot. intro H.
  ok_bind H R1. ok_bind H R2. ok_bind H R3. ok_bind H R4. ok_bind H R5.
  ok_bind H R6. ok_bind H R7. ok_bind H R8. ok_bind H R9. ok_bind H R10.
  ok_bind H R11. ok_bind H R12. ok_bind H R13.
  inversion H; subst buf. split; [reflexivity|].
  apply maskElements_Ok in R5 as E5.
  rewrite (override_trace _ _ _ _ R3).
  rewrite !trace_throwIfAborted, !trace_when_call, trace_call.
  match goal with
  | |- context [trace (_maskElements page options ?w')] =>
      exists ((if __testHookBeforeScreenshot options then [testHookBeforeScreenshot] else [])
              ++ (if omitBackground options && match format with png => true | jpeg => false end
                  then [setBackgroundColor true; cleanupWhenAborted default_background]
                  else [])
              ++ trace (_maskElements page options w'))
  end.
  split; [|split].
  - unfold undo, shouldSetDefaultBackground. subst.
    cbn [app trace ret]. rewrite <- !app_assoc, app_nil_r. reflexivity.
  - repeat (apply Forall_app; split).
    + destruct (__testHookBeforeScreenshot options); repeat constructor.
    + destruct (omitBackground options && _); repeat constructor.
    + match goal with
      | |- Forall _ (trace (_maskElements page options ?w')) =>
          apply (@emits_maskElements page before_capture options); split; reflexivity
      end.
  - unfold shouldSetDefaultBackground. intros ->.
    apply in_or_app; right. left. reflexivity.
Qed.
End Success.

Ltac frames_simpl page :=
  repeat first
    [ rewrite (keeps_frames_throwIfAborted page)
    | rewrite (keeps_frames_call page)
    | rewrite keeps_frames_emit
    | rewrite keeps_frames_lift
    | rewrite keeps_frames_ret
    | rewrite (keeps_frames_screenshot page)
    | rewrite (keeps_frames_fullPageSize page)
    | rewrite (keeps_frames_originalViewportSize page) ].

Section SuccessOfTasks.
Variable page : Page.

Lemma undone_in_order_after format options ids (t0 t : list event) :
  Forall before_capture t0 ->
  undone_in_order format options ids t ->
  undone_in_order format options ids (t0 ++ t).
Proof.
  intros F (pre & shot & E & C & P & I).
  exists (t0 ++ pre), shot. rewrite E, app_assoc.
  split; [reflexivity|]. split; [exact C|]. split.
  - apply Forall_app. auto.
  - intro S. apply in_or_app. right. auto.
Qed.

(** The end every capture shares: the pixels, a checkpoint, the restore. *)
Lemma capture_tail format documentRect viewportRect fitsViewport options ids w buf :
  map frame_id (frames w) = ids ->
  returned (bindM (_screenshot page format documentRect viewportRect fitsViewport options)
                  (fun buffer =>
                     bindM (throwIfAborted page)
                           (fun _ => bindM (_restorePageAfterScreenshot page)
                                           (fun _ => ret buffer))) w) = Ok buf ->
  buf = screenshot_bytes page
  /\ undone_in_order format options ids
       (trace (bindM (_screenshot page format documentRect viewportRect fitsViewport
                                  options)
                     (fun buffer =>
                        bindM (throwIfAborted page)
                              (fun _ => bindM (_restorePageAfterScreenshot page)
                                              (fun _ => ret buffer))) w)).
Proof.
  intros Ids H.
  ok_bind H R1. ok_bind H R2. ok_bind H R3.
  inversion H; subst buf.
  apply screenshot_Ok in R1 as (-> & pre & T & F & I).
  split; [reflexivity|].
  exists pre, (takeScreenshot format documentRect viewportRect (quality options)
                              fitsViewport (size_or_device options)).
  split; [|split; [reflexivity|split; assumption]].
  rewrite T, restore_trace, trace_throwIfAborted. frames_simpl page. rewrite Ids.
  cbn [trace ret app]. rewrite app_nil_r, <- app_assoc. reflexivity.
Qed.

Lemma before_capture_originalViewportSize w :
  Forall before_capture (trace (_originalViewportSize page w)).
Proof. apply originalViewportSize_emits. split; reflexivity. Qed.

Lemma before_capture_prepare options w :
  Forall before_capture (trace (prepare page options w)).
Proof. apply prepare_emits; intros; split; reflexivity. Qed.

Lemma before_capture_fullPageSize w :
  Forall before_capture (trace (_fullPageSize page w)).
Proof. revert w. unfold _fullPageSize. emits_auto. split; reflexivity. Qed.

Lemma screenshotPage_task_Ok format options w buf :
  returned (screenshotPage_task page format options w) = Ok buf ->
  buf = screenshot_bytes page
  /\ undone_in_order format options (map frame_id (frames w))
                     (trace (screenshotPage_task page format options w)).
Proof.
  unfold screenshotPage_task. intro H.
  ok_bind H R1. ok_bind H R2. ok_bind H R3. ok_bind H R4.
  assert (Ids : forall v : World,
            frames v = frames (world (prepare page options
                         (world (_originalViewportSize page
                            (world (emit (progress_log "taking page screenshot") w)))))) ->
            map frame_id (frames v) = map frame_id (frames w)).
  { intros v ->. rewrite prepare_ids. frames_simpl page. reflexivity. }
  destruct (fullPage options).
  - ok_bind H R5.
    match type of H with
    | returned (match ?s with Some _ => _ | None => _ end _) = _ =>
        destruct s as [fullPageSize|]; [|discriminate H]
    end.
    ok_bind H R6.
    apply capture_tail with (ids := map frame_id (frames w)) in H.
    + destruct H as [-> U]. split; [reflexivity|].
      apply undone_in_order_after; [repeat constructor|].
      apply undone_in_order_after; [apply before_capture_originalViewportSize|].
      apply undone_in_order_after; [apply before_capture_prepare|].
      apply undone_in_order_after; [constructor|].
      apply undone_in_order_after; [apply before_capture_fullPageSize|].
      apply undone_in_order_after; [destruct (clip options); constructor|].
      exact U.
    + apply Ids. destruct (clip options); frames_simpl page; reflexivity.
  - ok_bind H R5.
    apply capture_tail with (ids := map frame_id (frames w)) in H.
    + destruct H as [-> U]. split; [reflexivity|].
      apply undone_in_order_after; [repeat constructor|].
      apply undone_in_order_after; [apply before_capture_originalViewportSize|].
      apply undone_in_order_after; [apply before_capture_prepare|].
      apply undone_in_order_after; [constructor|].
      apply undone_in_order_after; [destruct (clip options); constructor|].
      exact U.
    + apply Ids. destruct (clip options); frames_simpl page; reflexivity.
Qed.
Lemma screenshotElement_task_Ok format options w buf :
  returned (screenshotElement_task page format options w) = Ok buf ->
  buf = screenshot_bytes page
  /\ undone_in_order format options (map frame_id (frames w))
                     (trace (screenshotElement_task page format options w)).
Proof.
  unfold screenshotElement_task. intro H.
  ok_bind H R1. ok_bind H R2. ok_bind H R3. ok_bind H R4.
  ok_bind H R5. ok_bind H R6. ok_bind H R7.
  destruct (handle_boundingBox page) as [box|]; [|discriminate H].
  ok_bind H R8. ok_bind H R9. ok_bind H R10. ok_bind H R11.
  apply capture_tail with (ids := map frame_id (frames w)) in H.
  - destruct H as [-> U]. split; [reflexivity|].
    apply undone_in_order_after; [repeat constructor|].
    apply undone_in_order_after; [apply before_capture_originalViewportSize|].
    apply undone_in_order_after; [apply before_capture_prepare|].
    apply undone_in_order_after; [constructor|].
    apply undone_in_order_after; [repeat constructor|].
    apply undone_in_order_after; [constructor|].
    apply undone_in_order_after; [repeat constructor|].
    apply undone_in_order_after; [constructor|].
    apply undone_in_order_after; [constructor|].
    apply undone_in_order_after; [constructor|].
    apply undone_in_order_after; [repeat constructor|].
    exact U.
  - frames_simpl page. rewrite prepare_ids. frames_simpl page. reflexivity.
Qed.

(** X8.  A capture that returns has taken the pixels once and then taken
    back what it changed, in the reverse order of applying it: after the
    one call of [takeScreenshot] come [hideHighlight] if a non-empty mask
    list was given, the reset of the background if it was overridden, the
    after-hook if there is one, and last the restore script in every frame
    of the page; nothing before the pixels takes anything back, the
    override, when called for, is among what comes before, and the bytes
    returned are those the primitive produced. *)
Theorem successful_capture_undoes_in_order (c : Capture) (w : World) (buf : Buffer) :
  returned (run_capture page c w) = Ok buf ->
  buf = screenshot_bytes page
  /\ undone_in_order (capture_format c) (capture_options c)
                     (map frame_id (frames w)) (trace (run_capture page c w)).
Proof.
  destruct c as [format options|format options]; cbn [run_capture capture_format
                                                       capture_options].
  - apply screenshotPage_task_Ok.
  - apply screenshotElement_task_Ok.
Qed.
End SuccessOfTasks.

Lemma successful_capture_undoes_in_order_witness :
  let c := page_capture png (masking (omitting_background default_options)
                                     [(0, "#ad"%string)]) in
  let w := initial_world [main_frame] in
  "bytes"%string = screenshot_bytes resolving_page
  /\ undone_in_order (capture_format c) (capture_options c)
                     (map frame_id (frames w)) (trace (run_capture resolving_page c w)).
Proof.
  cbv zeta.
  apply (@successful_capture_undoes_in_order resolving_page
           (page_capture png (masking (omitting_background default_options)
                                      [(0, "#ad"%string)]))
           (initial_world [main_frame]) "bytes"%string).
  reflexivity.
Defined.

(* ================================================================== *)
(** ** What a capture never does *)
(* ================================================================== *)

Section Never.
Variable page : Page.

Lemma screenshot_override format documentRect viewportRect fitsViewport options :
  emits (override_allowed format options)
        (_screenshot page format documentRect viewportRect fitsViewport options).
Proof.
  unfold _screenshot.
  destruct (omitBackground options) eqn:O, format; cbn [andb];
    (apply emits_bind; [emits_auto; exact I|intros _ _];
     apply emits_bind; [emits_auto|intros _ _];
     apply emits_bind; [emits_auto; cbn; auto|intros _ _];
     apply emits_bind; [emits_auto|intros _ _];
     apply emits_bind; [apply emits_maskElements; cbn; auto|intros hasHighlight _];
     emits_auto; cbn; auto).
Qed.

Lemma after_screenshot_emits (Q : event -> Prop) (buffer : Buffer) :
  (forall f, Q (evaluate_restore f)) ->
  emits Q (bindM (throwIfAborted page)
                 (fun _ => bindM (_restorePageAfterScreenshot page)
                                 (fun _ => ret buffer))).
Proof.
  intro H.
  apply emits_bind; [emits_auto|intros _ _].
  apply emits_bind; [apply restore_emits; exact H|intros _ _].
  emits_auto.
Qed.

(** X9.  The background of the page is touched only by a png capture that
    was asked to omit it: a jpeg capture, and a capture without
    [omitBackground], makes no [setBackgroundColor] call at all, neither to
    override the background nor to reset it. *)
Theorem background_untouched_unless_png_omits (c : Capture) (w : World) :
  Forall (override_allowed (capture_format c) (capture_options c))
         (trace (run_capture page c w)).
Proof.
  revert w.
  destruct c as [format options|format options];
    cbn [run_capture capture_format capture_options].
  - change (emits (override_allowed format options)
                  (screenshotPage_task page format options)).
    unfold screenshotPage_task.
    apply emits_bind; [emits_auto; exact I|intros _ _].
    apply emits_bind; [apply originalViewportSize_emits; exact I|intros sizes _].
    apply emits_bind; [apply prepare_emits; cbn; auto|intros _ _].
    apply emits_bind; [emits_auto|intros _ _].
    destruct (fullPage options).
    + apply emits_bind; [unfold _fullPageSize; emits_auto; exact I|intros [s|] _];
        [|emits_auto].
      apply emits_bind; [destruct (clip options); emits_auto|intros r _].
      apply emits_bind; [apply screenshot_override|intros buffer _].
      apply after_screenshot_emits. intro; exact I.
    + apply emits_bind; [destruct (clip options); emits_auto|intros r _].
      apply emits_bind; [apply screenshot_override|intros buffer _].
      apply after_screenshot_emits. intro; exact I.
  - change (emits (override_allowed format options)
                  (screenshotElement_task page format options)).
    unfold screenshotElement_task.
    apply emits_bind; [emits_auto; exact I|intros _ _].
    apply emits_bind; [apply originalViewportSize_emits; exact I|intros sizes _].
    apply emits_bind; [apply prepare_emits; cbn; auto|intros _ _].
    do 4 (apply emits_bind; [emits_auto; exact I|intros _ _]).
    destruct (handle_boundingBox page) as [box|]; [|emits_auto].
    do 4 (apply emits_bind; [emits_auto; exact I|intros _ _]).
    apply emits_bind; [apply screenshot_override|intros buffer _].
    apply after_screenshot_emits. intro; exact I.
Qed.
End Never.

(* ================================================================== *)
(** ** The start of a capture: freeze, registration, first checkpoint *)
(* ================================================================== *)

Section Start.
Variable page : Page.

(** The common start of the two tasks. *)
Lemma start_trace {A} (text : string) options (k : Size.t * option Size.t -> M A) w :
  trace (bindM (emit (progress_log text))
               (fun _ => bindM (_originalViewportSize page)
                               (fun sizes => bindM (prepare page options)
                                                   (fun _ => k sizes))) w)
  = progress_log text
    :: trace (_originalViewportSize page w)
    ++ match returned (_originalViewportSize page w) with
       | Ok sizes =>
           trace (prepare page options (world (_originalViewportSize page w)))
           ++ trace (k sizes (world (prepare page options
                                       (world (_originalViewportSize page w)))))
       | Throw _ => []
       end.
Proof.
  rewrite trace_bindM. cbn [emit trace returned world app].
  rewrite trace_bindM. f_equal. f_equal.
  destruct (returned (_originalViewportSize page w)) as [sizes|e]; [|reflexivity].
  rewrite trace_bindM, prepare_returns. reflexivity.
Qed.

Lemma start_returned {A} (text : string) options (k : Size.t * option Size.t -> M A) w :
  returned (bindM (emit (progress_log text))
                  (fun _ => bindM (_originalViewportSize page)
                                  (fun sizes => bindM (prepare page options)
                                                      (fun _ => k sizes))) w)
  = match returned (_originalViewportSize page w) with
    | Ok sizes =>
        returned (k sizes (world (prepare page options
                                    (world (_originalViewportSize page w)))))
    | Throw e => Throw e
    end.
Proof.
  rewrite returned_bindM. cbn [emit trace returned world].
  rewrite returned_bindM.
  destruct (returned (_originalViewportSize page w)) as [sizes|e]; [|reflexivity].
  rewrite returned_bindM, prepare_returns. reflexivity.
Qed.

Lemma prepare_trace options w :
  trace (prepare page options w)
  = (if disableAnimations options then [progress_log "  disabled all CSS animations"]
     else [])
    ++ (if waitForFonts options then [progress_log "  waiting for fonts to load..."]
        else [])
    ++ map (fun f => evaluate_freeze f (hideCaret options) (disableAnimations options)
                       (waitForFonts options))
           (map frame_id (frames w))
    ++ (if waitForFonts options then [progress_log "  fonts in all frames are loaded"]
        else [])
    ++ [cleanupWhenAborted restore_page].
Proof.
  unfold prepare, _preparePageForScreenshot.
  rewrite !trace_bindM.
  destruct (disableAnimations options), (waitForFonts options); cbn;
    rewrite ?returned_evaluate_in_frames, trace_evaluate_in_frames; reflexivity.
Qed.

Lemma prepare_registers options w :
  exists t1,
    trace (prepare page options w) = t1 ++ [cleanupWhenAborted restore_page]
    /\ Forall (fun e => is_preparation e = true) t1.
Proof.
  rewrite prepare_trace. eexists. rewrite !app_assoc. split; [reflexivity|].
  repeat (apply Forall_app; split).
  - destruct (disableAnimations options); repeat constructor.
  - destruct (waitForFonts options); repeat constructor.
  - apply Forall_forall. intros e I. apply in_map_iff in I as (f & <- & _). reflexivity.
  - destruct (waitForFonts options); repeat constructor.
Qed.

Lemma originalViewportSize_preparation w :
  Forall (fun e => is_preparation e = true) (trace (_originalViewportSize page w)).
Proof. apply originalViewportSize_emits. reflexivity. Qed.

Lemma freeze_registered_after {A} (text : string) options
      (k : Size.t * option Size.t -> M A) w f a b d :
  (forall sizes, emits (fun e => is_freeze e = false) (k sizes)) ->
  In (evaluate_freeze f a b d)
     (trace (bindM (emit (progress_log text))
                   (fun _ => bindM (_originalViewportSize page)
                                   (fun sizes => bindM (prepare page options)
                                                       (fun _ => k sizes))) w)) ->
  freeze_then_registered
    (trace (bindM (emit (progress_log text))
                  (fun _ => bindM (_originalViewportSize page)
                                  (fun sizes => bindM (prepare page options)
                                                      (fun _ => k sizes))) w)).
Proof.
  intros Hk. rewrite start_trace.
  pose proof (originalViewportSize_preparation w) as V.
  destruct (returned (_originalViewportSize page w)) as [sizes|e].
  - intros _.
    destruct (prepare_registers options (world (_originalViewportSize page w)))
      as (t1 & -> & P).
    exists (progress_log text :: trace (_originalViewportSize page w) ++ t1),
      (trace (k sizes (world (prepare page options
                                (world (_originalViewportSize page w)))))).
    split; [|split].
    + cbn [app]. rewrite <- !app_assoc. reflexivity.
    + constructor; [reflexivity|]. apply Forall_app. split; assumption.
    + apply Hk.
  - intro I. exfalso. rewrite app_nil_r in I. destruct I as [I|I]; [discriminate I|].
    pose proof (originalViewportSize_emits page (fun e => is_freeze e = false) eq_refl w)
      as N.
    rewrite Forall_forall in N. apply N in I. discriminate I.
Qed.
End Start.

Section StartOfTasks.
Variable page : Page.

Lemma screenshot_no_freeze format documentRect viewportRect fitsViewport options :
  emits (fun e => is_freeze e = false)
        (_screenshot page format documentRect viewportRect fitsViewport options).
Proof.
  unfold _screenshot.
  do 4 (apply emits_bind; [emits_auto|intros _ _]).
  apply emits_bind; [apply emits_maskElements; reflexivity|intros hasHighlight _].
  emits_auto.
Qed.

(** X10.  A freeze never goes without its registered restore: in every
    run of a capture in which the freeze script was evaluated in some
    frame, whatever is rejected or aborted, the restore of the page has
    been registered with the progress for the case of an abort; up to that
    registration the capture has only logged, asked for the viewport and
    frozen frames, and no frame is frozen after it. *)
Theorem freeze_registers_its_restore (c : Capture) (w : World)
        (f : FrameId) (hc da wf : bool) :
  In (evaluate_freeze f hc da wf) (trace (run_capture page c w)) ->
  freeze_then_registered (trace (run_capture page c w)).
Proof.
  destruct c as [format options|format options]; cbn [run_capture].
  - unfold screenshotPage_task. cbv zeta.
    apply freeze_registered_after. intro sizes.
    apply emits_bind; [emits_auto|intros _ _].
    destruct (fullPage options).
    + apply emits_bind; [unfold _fullPageSize; emits_auto|intros [s|] _]; [|emits_auto].
      apply emits_bind; [destruct (clip options); emits_auto|intros r _].
      apply emits_bind; [apply screenshot_no_freeze|intros buffer _].
      apply after_screenshot_emits. reflexivity.
    + apply emits_bind; [destruct (clip options); emits_auto|intros r _].
      apply emits_bind; [apply screenshot_no_freeze|intros buffer _].
      apply after_screenshot_emits. reflexivity.
  - unfold screenshotElement_task. cbv zeta.
    apply freeze_registered_after. intro sizes.
    do 4 (apply emits_bind; [emits_auto|intros _ _]).
    destruct (handle_boundingBox page) as [box|]; [|emits_auto].
    do 4 (apply emits_bind; [emits_auto|intros _ _]).
    apply emits_bind; [apply screenshot_no_freeze|intros buffer _].
    apply after_screenshot_emits. reflexivity.
Qed.
End StartOfTasks.

Lemma freeze_registers_its_restore_witness :
  freeze_then_registered
    (trace (run_capture blank_page (page_capture png default_options)
                        (initial_world [main_frame]))).
Proof.
  apply (@freeze_registers_its_restore blank_page (page_capture png default_options)
           (initial_world [main_frame]) 0 true false false).
  vm_compute. right. left. reflexivity.
Defined.

Section FirstCheckpoint.
Variable page : Page.

Lemma originalViewportSize_checkpoints w :
  checkpoints (world (_originalViewportSize page w)) = checkpoints w.
Proof.
  unfold _originalViewportSize. destruct (viewportSize page); [reflexivity|].
  rewrite world_bindM. cbn. destruct (rejects page (page_calls w)); reflexivity.
Qed.

Lemma originalViewportSize_returned w :
  returned (_originalViewportSize page w)
  = if viewport_query_rejected page w then Throw (Failure "rejected")
    else Ok (match viewportSize page with
             | Some v => (v, Some v)
             | None => (window_inner page, None)
             end).
Proof.
  unfold _originalViewportSize, viewport_query_rejected.
  destruct (viewportSize page); [reflexivity|].
  rewrite returned_bindM. cbn. destruct (rejects page (page_calls w)); reflexivity.
Qed.

Lemma aborted_at_start {A} (text : string) options
      (k : Size.t * option Size.t -> M A) w :
  aborted page (checkpoints w) = true ->
  let r := bindM (emit (progress_log text))
             (fun _ => bindM (_originalViewportSize page)
                (fun sizes => bindM (prepare page options)
                   (fun _ => bindM (throwIfAborted page) (fun _ => k sizes)))) w in
  Forall (fun e => is_preparation e = true) (trace r)
  /\ returned r = Throw (if viewport_query_rejected page w
                         then Failure "rejected" else Aborted).
Proof.
  intros Ab r. subst r.
  rewrite (start_returned page text options
             (fun sizes => bindM (throwIfAborted page) (fun _ => k sizes)) w).
  rewrite (start_trace page text options
             (fun sizes => bindM (throwIfAborted page) (fun _ => k sizes)) w).
  pose proof (originalViewportSize_preparation page w) as V.
  assert (T : returned (throwIfAborted page
                        (world (prepare page options
                                  (world (_originalViewportSize page w)))))
            = Throw Aborted).
  { cbn [throwIfAborted returned].
    rewrite prepare_checkpoints, originalViewportSize_checkpoints, Ab. reflexivity. }
  rewrite originalViewportSize_returned.
  destruct (viewport_query_rejected page w).
  - split; [|reflexivity].
    constructor; [reflexivity|]. rewrite app_nil_r. exact V.
  - rewrite returned_bindM, trace_bindM, T. cbn [trace throwIfAborted app].
    split; [|reflexivity].
    constructor; [reflexivity|]. apply Forall_app. split; [exact V|].
    rewrite app_nil_r.
    destruct (prepare_registers page options (world (_originalViewportSize page w)))
      as (t1 & -> & P).
    apply Forall_app. split; [exact P|repeat constructor].
Qed.

(** X11.  A capture cancelled before its first checkpoint takes nothing:
    when the checkpoint that follows the freeze finds the operation
    aborted, the capture fails having only logged, asked for the viewport,
    evaluated the freeze script and registered the restore; it resolves no
    selector, overrides no background, masks nothing, calls neither
    [takeScreenshot] nor the restore script.  The failure is the abort,
    except in the one case that the page has no viewport size set and the
    query for the size of the window, the first call of the capture, was
    itself rejected: then the capture fails with that rejection, before
    any frame is frozen. *)
Theorem aborted_capture_takes_nothing (c : Capture) (w : World) :
  aborted page (checkpoints w) = true ->
  let r := run_capture page c w in
  failed (returned r) = true
  /\ Forall (fun e => is_preparation e = true) (trace r)
  /\ returned r = Throw (if viewport_query_rejected page w
                         then Failure "rejected" else Aborted)
  /\ (viewport_query_rejected page w = true ->
      Forall (fun e => is_freeze e = false) (trace r)).
Proof.
  intro Ab.
  assert (G : forall A (text : string) options (k : Size.t * option Size.t -> M A),
             let r := bindM (emit (progress_log text))
                        (fun _ => bindM (_originalViewportSize page)
                           (fun sizes => bindM (prepare page options)
                              (fun _ => bindM (throwIfAborted page)
                                              (fun _ => k sizes)))) w in
             failed (returned r) = true
             /\ Forall (fun e => is_preparation e = true) (trace r)
             /\ returned r = Throw (if viewport_query_rejected page w
                                    then Failure "rejected" else Aborted)
             /\ (viewport_query_rejected page w = true ->
                 Forall (fun e => is_freeze e = false) (trace r))).
  { intros A text options k r.
    destruct (@aborted_at_start A text options k w Ab) as (P & R).
    fold r in P, R. split; [rewrite R; reflexivity|]. split; [exact P|].
    split; [exact R|]. intro V. subst r.
    rewrite (start_trace page text options
               (fun sizes => bindM (throwIfAborted page) (fun _ => k sizes)) w).
    rewrite originalViewportSize_returned, V, app_nil_r.
    constructor; [reflexivity|].
    apply originalViewportSize_emits. reflexivity. }
  destruct c as [format options|format options]; cbn [run_capture].
  - unfold screenshotPage_task. cbv zeta. apply G.
  - unfold screenshotElement_task. cbv zeta. apply G.
Qed.
End FirstCheckpoint.

(* ================================================================== *)
(** ** What the capture primitive is handed *)
(* ================================================================== *)

Section Arguments.
Local Open Scope Q_scope.
Variable page : Page.




End Arguments.

(* ================================================================== *)
(** ** The outcome of a capture that nothing interrupts *)
(* ================================================================== *)

Section Outcome.
Local Open Scope Q_scope.
Variable page : Page.
Hypothesis never_aborted : forall n, aborted page n = false.
Hypothesis never_rejects : forall n, rejects page n = false.

Lemma returned_call e w : returned (call page e w) = Ok tt.
Proof. cbn. rewrite never_rejects. reflexivity. Qed.

Lemma returned_throwIfAborted w : returned (throwIfAborted page w) = Ok tt.
Proof. cbn. rewrite never_aborted. reflexivity. Qed.

Lemma returned_when_call (b : bool) e w : returned (when b (call page e) w) = Ok tt.
Proof. destruct b; [apply returned_call|reflexivity]. Qed.

Lemma returned_originalViewportSize w :
  exists o, returned (_originalViewportSize page w) = Ok (resolved_viewport page, o).
Proof.
  unfold _originalViewportSize, resolved_viewport. destruct (viewportSize page).
  - eexists; reflexivity.
  - eexists. rewrite returned_bindM, returned_call. reflexivity.
Qed.

Lemma returned_resolve_masks pairs : forall m w,
  exists m', returned (resolve_masks page pairs m w) = Ok m'.
Proof.
  induction pairs as [|[f s] rest IH]; intros m w; cbn [resolve_masks].
  - eexists; reflexivity.
  - rewrite returned_alongside, returned_call. apply IH.
Qed.

Lemma returned_mask_frames keys m : forall w,
  returned (mask_frames page keys m w) = Ok tt.
Proof.
  induction keys as [|f rest IH]; intro w; cbn [mask_frames].
  - reflexivity.
  - rewrite returned_alongside, returned_call. apply IH.
Qed.

Lemma returned_maskElements options w :
  returned (_maskElements page options w) = Ok (has_mask options).
Proof.
  unfold _maskElements, has_mask.
  destruct (mask options) as [[|p rest]|]; cbv beta iota; try reflexivity.
  rewrite returned_bindM.
  destruct (returned_resolve_masks (p :: rest) [] w) as (m' & ->).
  rewrite returned_bindM, returned_throwIfAborted.
  rewrite returned_bindM, returned_mask_frames.
  rewrite returned_bindM. reflexivity.
Qed.

Lemma returned_screenshot format documentRect viewportRect fitsViewport options w :
  returned (_screenshot page format documentRect viewportRect fitsViewport options w)
  = Ok (screenshot_bytes page).
Proof.
  unfold _screenshot.
  rewrite returned_bindM, returned_when_call.
  rewrite returned_bindM, returned_throwIfAborted.
  rewrite returned_bindM.
  match goal with
  | |- context [returned (when ?b ?m ?w')] =>
      assert (E : returned (when b m w') = Ok tt)
        by (destruct b; [cbn [when]; rewrite returned_bindM, returned_call|];
            reflexivity);
      rewrite E; clear E
  end.
  rewrite returned_bindM, returned_throwIfAborted.
  rewrite returned_bindM, returned_maskElements.
  rewrite returned_bindM, returned_throwIfAborted.
  rewrite returned_bindM, returned_call.
  rewrite returned_bindM, returned_throwIfAborted.
  rewrite returned_bindM, returned_when_call.
  rewrite returned_bindM, returned_throwIfAborted.
  rewrite returned_bindM, returned_when_call.
  rewrite returned_bindM, returned_throwIfAborted.
  rewrite returned_bindM, returned_when_call.
  reflexivity.
Qed.

Lemma returned_capture_tail format documentRect viewportRect fitsViewport options w :
  returned (bindM (_screenshot page format documentRect viewportRect fitsViewport options)
                  (fun buffer =>
                     bindM (throwIfAborted page)
                           (fun _ => bindM (_restorePageAfterScreenshot page)
                                           (fun _ => ret buffer))) w)
  = Ok (screenshot_bytes page).
Proof.
  rewrite returned_bindM, returned_screenshot.
  rewrite returned_bindM, returned_throwIfAborted.
  rewrite returned_bindM.
  rewrite returned_restore. reflexivity.
Qed.

(** X14.  When nothing aborts and no call is rejected, the outcome of an
    element capture is decided by the bounding box alone: it fails with
    "Node is either not visible or not an HTMLElement" without a box, with
    "Node has 0 width." for a box of width 0, with "Node has 0 height." for
    a box of height 0 whose width is not 0, and otherwise it returns the
    bytes the primitive produced, whatever clip the options carry. *)
Theorem element_capture_outcome (format : Format) (options : ScreenshotOptions) (w : World) :
  returned (screenshotElement_task page format options w)
  = match geometry_error page with
    | Some e => Throw e
    | None => Ok (screenshot_bytes page)
    end.
Proof.
  unfold screenshotElement_task, geometry_error.
  rewrite returned_bindM. cbn [emit returned world].
  rewrite returned_bindM.
  destruct (returned_originalViewportSize w) as (o & ->).
  rewrite returned_bindM, prepare_returns.
  rewrite returned_bindM, returned_throwIfAborted.
  rewrite returned_bindM, returned_call.
  rewrite returned_bindM, returned_throwIfAborted.
  rewrite returned_bindM, returned_call.
  destruct (handle_boundingBox page) as [box|]; [|reflexivity].
  rewrite returned_bindM. cbn [lift returned world].
  destruct (Qeq_bool (Rect.width box) 0); [reflexivity|]. cbn [negb assert].
  rewrite returned_bindM. cbn [lift returned world].
  destruct (Qeq_bool (Rect.height box) 0); [reflexivity|]. cbn [negb assert].
  rewrite returned_bindM, returned_throwIfAborted.
  rewrite returned_bindM, returned_call.
  apply returned_capture_tail.
Qed.

End Outcome.

Section Unmeasurable.
Local Open Scope Q_scope.
Variable page : Page.

Lemma fails_throw {A} (e : error) : fails (@throw A e).
Proof. intro w; reflexivity. Qed.

(** X15.  An element that cannot be measured is never captured: when the
    element has no bounding box, or a box of width 0 or of height 0, the
    element capture fails in every run, and fails before the capture
    proper: it resolves no mask selector, overrides no background, masks
    nothing, does not call [takeScreenshot] and does not run the restore
    script. *)
Theorem unmeasurable_element_is_not_captured
        (format : Format) (options : ScreenshotOptions) (w : World) (e : error) :
  geometry_error page = Some e ->
  failed (returned (screenshotElement_task page format options w)) = true
  /\ Forall (fun e => capture_phase e = false)
            (trace (screenshotElement_task page format options w)).
Proof.
  unfold geometry_error. intro G. split.
  - revert w. change (fails (screenshotElement_task page format options)).
    unfold screenshotElement_task.
    do 7 (apply fails_bind_later; intro).
    destruct (handle_boundingBox page) as [box|]; [|apply fails_throw].
    destruct (Qeq_bool (Rect.width box) 0).
    + apply fails_bind_now, fails_lift_Throw.
    + apply fails_bind_later; intro.
      destruct (Qeq_bool (Rect.height box) 0); [|discriminate G].
      apply fails_bind_now, fails_lift_Throw.
  - revert w. change (emits (fun e => capture_phase e = false)
                            (screenshotElement_task page format options)).
    unfold screenshotElement_task.
    apply emits_bind; [emits_auto|intros _ _].
    apply emits_bind; [apply originalViewportSize_emits; reflexivity|intros sizes _].
    apply emits_bind; [apply prepare_emits; reflexivity|intros _ _].
    do 4 (apply emits_bind; [emits_auto|intros _ _]).
    destruct (handle_boundingBox page) as [box|]; [|emits_auto].
    apply emits_bind; [emits_auto|intros u1 H1].
    apply yields_lift in H1.
    destruct (Qeq_bool (Rect.width box) 0); [discriminate H1|].
    apply emits_bind; [emits_auto|intros u2 H2].
    apply yields_lift in H2.
    destruct (Qeq_bool (Rect.height box) 0); [discriminate H2|discriminate G].
Qed.
End Unmeasurable.

Lemma unmeasurable_element_is_not_captured_witness :
  let r := screenshotElement_task (page_with_box (Rect.mk 10 10 20 0)) png
                                  default_options (initial_world [main_frame]) in
  failed (returned r) = true
  /\ Forall (fun e => capture_phase e = false) (trace r).
Proof.
  apply (@unmeasurable_element_is_not_captured (page_with_box (Rect.mk 10 10 20 0)) png
           default_options (initial_world [main_frame])
           (Error [Lit "Node has 0 height."])).
  reflexivity.
Defined.

Lemma element_capture_outcome_witness :
  returned (screenshotElement_task (page_with_box (Rect.mk 10 10 20 0)) jpeg
                                   default_options (initial_world [main_frame]))
  = Throw (Error [Lit "Node has 0 height."])
  /\ returned (screenshotElement_task (page_with_box (Rect.mk 10 10 20 5)) jpeg
                                      default_options (initial_world [main_frame]))
     = Ok (screenshot_bytes (page_with_box (Rect.mk 10 10 20 5))).
Proof.
  split.
  - apply (@element_capture_outcome (page_with_box (Rect.mk 10 10 20 0))
             (fun _ => eq_refl) (fun _ => eq_refl) jpeg default_options
             (initial_world [main_frame])).
  - apply (@element_capture_outcome (page_with_box (Rect.mk 10 10 20 5))
             (fun _ => eq_refl) (fun _ => eq_refl) jpeg default_options
             (initial_world [main_frame])).
Defined.


Lemma aborted_capture_takes_nothing_witness :
  let r := run_capture cancelled_page (page_capture png default_options)
                       (initial_world [main_frame]) in
  failed (returned r) = true
  /\ Forall (fun e => is_preparation e = true) (trace r)
  /\ returned r
     = Throw (if viewport_query_rejected cancelled_page (initial_world [main_frame])
              then Failure "rejected" else Aborted)
  /\ (viewport_query_rejected cancelled_page (initial_world [main_frame]) = true ->
      Forall (fun e => is_freeze e = false) (trace r)).
Proof.
  apply (@aborted_capture_takes_nothing cancelled_page (page_capture png default_options)
           (initial_world [main_frame])).
  reflexivity.
Defined.

(* ================================================================== *)
(** ** Freeze and restore of a frame, and of the frames of a page *)
(* ================================================================== *)

Section Thaw.

(** Restore after freeze and any events: the style sheets and listeners
    are those from before the freeze, the handle is gone, and the
    suspended animations have been played. *)
Lemma restore_after_freeze hc da wf g (w0 : Realm)
      (events : list (RootId * EventName * list Animation)) :
  fresh_realm w0 ->
  let k := List.length (installations w0) in
  let w := dispatch_all events (freeze hc da wf g w0) in
  __cleanupScreenshot w = Some k
  /\ styles (restore w) = styles w0
  /\ listeners (restore w) = listeners w0
  /\ __cleanupScreenshot (restore w) = None
  /\ installations (restore w) = installations w
  /\ animationCalls (restore w)
     = animationCalls w
       ++ map (fun a => {| method := play; target := anim_id a; threw := play_throws a |})
              (suspended k w).
Proof.
  intros [Hs Hl] k w.
  destruct (freeze_installs hc da wf g w0) as (Hh & Hst & inst & N & T & B & _ & _).
  destruct (freeze_listeners hc da wf g w0) as (extra & El & Ex).
  destruct (dispatch_all_frame events (freeze hc da wf g w0)) as (Lw & Sw & Cw & Fw).
  destruct (Fw _ _ N) as (i' & Ni & Ti & Bi).
  fold w in Lw, Sw, Cw, Ni. fold k in Hh, Ni, Ex.
  assert (C : __cleanupScreenshot w = Some k) by congruence.
  split; [exact C|].
  unfold restore. rewrite C. unfold cleanup. rewrite Ni. cbn.
  split; [|split; [|split; [reflexivity|split; [reflexivity|]]]].
  - rewrite Sw, Hst, Ti, T.
    destruct hc; [apply remove_node_appended|apply remove_node_absent]; exact Hs.
  - rewrite Lw, El, Bi, B.
    rewrite detach_app by exact Hl.
    rewrite detach_all by exact Ex. apply app_nil_r.
  - unfold suspended. rewrite Ni. reflexivity.
Qed.
End Thaw.


Section Restored.
Variable page : Page.
Hypothesis never_rejects : forall n, rejects page n = false.





End Restored.


(* ================================================================== *)
(** ** The roots of a document *)
(* ================================================================== *)

Section Roots.

Lemma ShadowTree_nested_ind (P : ShadowTree -> Prop) :
  (forall id hosted, Forall (fun node => P (snd node)) hosted -> P (Root id hosted)) ->
  forall t, P t.
Proof.
  intro H. fix IH 1. intros [id hosted]. apply H.
  induction hosted as [|[mode t] rest IHh]; constructor; [apply IH|exact IHh].
Qed.

Lemma collect_hosted (hosted : list (ShadowMode * ShadowTree)) :
  Forall (fun node => forall roots,
            collectRoots (snd node) roots = roots ++ collectRoots (snd node) []) hosted ->
  forall roots,
    fold_left (fun roots node =>
                 match node with
                 | (mode_open, shadowRoot) => collectRoots shadowRoot roots
                 | (mode_closed, _) => roots
                 end) hosted roots
    = roots ++ flat_map (fun s => collectRoots s []) (open_shadow_roots (Root 0 hosted)).
Proof.
  induction 1 as [|[mode t] rest Ht _ IH]; intro roots; cbn [fold_left].
  - symmetry. apply app_nil_r.
  - rewrite IH. cbn [open_shadow_roots flat_map] in *.
    destruct mode; cbn [shadowRoot snd app] in *.
    + rewrite Ht, <- app_assoc. reflexivity.
    + reflexivity.
Qed.

Lemma collectRoots_accumulates (t : ShadowTree) :
  forall roots, collectRoots t roots = roots ++ collectRoots t [].
Proof.
  induction t as [id hosted IH] using ShadowTree_nested_ind. intro roots.
  cbn [collectRoots]. rewrite !(collect_hosted IH), <- !app_assoc. reflexivity.
Qed.

Lemma collectRoots_Root (id : RootId) (hosted : list (ShadowMode * ShadowTree)) :
  collectRoots (Root id hosted) []
  = id :: flat_map (fun s => collectRoots s []) (open_shadow_roots (Root id hosted)).
Proof.
  cbn [collectRoots]. rewrite collect_hosted; [reflexivity|].
  apply Forall_forall. intros t _. apply collectRoots_accumulates.
Qed.

Lemma collectRoots_all_roots (t : ShadowTree) :
  forall id, In id (collectRoots t []) -> In id (all_roots t).
Proof.
  induction t as [i hosted IH] using ShadowTree_nested_ind. intro id.
  rewrite collectRoots_Root. cbn [In all_roots open_shadow_roots].
  intros [E|I]; [left; exact E|right].
  rewrite Forall_forall in IH.
  apply in_flat_map in I as (s & Is & Hs).
  apply in_flat_map in Is as ([mode t] & It & Es).
  destruct mode; cbn in Es; [|destruct Es]. destruct Es as [<-|[]].
  apply in_flat_map. exists (mode_open, t). split; [exact It|].
  apply (IH _ It). exact Hs.
Qed.

(** X18.  [collectRoots] walks the document in preorder, through open
    shadow roots only.  Called on a list it appends to it; the root it is
    called on comes first, followed by what it collects in each open
    shadow root that an element of the root gives out, in document order.
    A closed shadow root, for which [element.shadowRoot] is [null], is
    passed over with everything nested in it: a root is collected exactly
    when it is the document or is reached from it through open shadow
    roots only, as many roots are collected as are so reached, and when
    a closed shadow root and what it holds bear identities found nowhere
    else in the document, none of them is collected. *)
Theorem collectRoots_preorder (t : ShadowTree) :
  (forall roots, collectRoots t roots = roots ++ collectRoots t [])
  /\ collectRoots t []
     = root_id t :: flat_map (fun s => collectRoots s []) (open_shadow_roots t)
  /\ (forall id, In id (collectRoots t []) <-> in_tree id t = true)
  /\ List.length (collectRoots t []) = tree_size t
  /\ (forall id before s after,
        t = Root id (before ++ (mode_closed, s) :: after) ->
        collectRoots t [] = collectRoots (Root id (before ++ after)) []
        /\ forall c, In c (all_roots s) ->
             ~ In c (all_roots (Root id (before ++ after))) ->
             ~ In c (collectRoots t [])).
Proof.
  split; [apply collectRoots_accumulates|].
  split; [destruct t; apply collectRoots_Root|].
  split; [|split].
  - induction t as [i hosted IH] using ShadowTree_nested_ind. intro id.
    rewrite collectRoots_Root. cbn [in_tree In open_shadow_roots].
    rewrite orb_true_iff, Nat.eqb_eq, in_flat_map, existsb_exists.
    rewrite Forall_forall in IH.
    split.
    + intros [E|(s & Is & Hs)]; [left; congruence|].
      right. apply in_flat_map in Is as ([mode u] & Iu & Es).
      destruct mode; cbn in Es; [|destruct Es]. destruct Es as [<-|[]].
      exists (mode_open, u). split; [exact Iu|]. apply (IH _ Iu). exact Hs.
    + intros [E|([mode u] & Iu & Hs)]; [left; congruence|].
      destruct mode; cbn in Hs; [|discriminate Hs].
      right. exists u. split.
      * apply in_flat_map. exists (mode_open, u). split; [exact Iu|left; reflexivity].
      * apply (IH _ Iu). exact Hs.
  - induction t as [i hosted IH] using ShadowTree_nested_ind.
    rewrite collectRoots_Root. cbn [List.length tree_size open_shadow_roots]. f_equal.
    induction IH as [|[mode s] rest Hs _ IHr]; [reflexivity|].
    cbn [flat_map map list_sum]. destruct mode; cbn [shadowRoot snd app] in *.
    + cbn [flat_map]. rewrite length_app, Hs, IHr. reflexivity.
    + exact IHr.
  - intros id before s after ->.
    assert (E : collectRoots (Root id (before ++ (mode_closed, s) :: after)) []
                = collectRoots (Root id (before ++ after)) []).
    { rewrite !collectRoots_Root. cbn [open_shadow_roots].
      rewrite !flat_map_app. reflexivity. }
    split; [exact E|].
    intros c _ N I. apply N. rewrite E in I.
    apply collectRoots_all_roots. exact I.
Qed.

(** A document with an open shadow root that hosts a closed one, a closed
    shadow root and a second open one: the closed roots 2 and 4 are passed
    over, and so is the open root 3 inside the closed root 2. *)
Example collectRoots_passes_over_closed :
  collectRoots
    (Root 0 [(mode_open, Root 1 [(mode_closed, Root 2 [(mode_open, Root 3 [])])]);
             (mode_closed, Root 4 []);
             (mode_open, Root 5 [])]) []
  = [0; 1; 5].
Proof. reflexivity. Qed.
End Roots.

(* ================================================================== *)
(** ** What the cleanup handle resumes *)
(* ================================================================== *)

Section Resume.

Lemma set_has_false (s : AnimSet) (a : Animation) :
  set_has s a = false -> ~ In (anim_id a) (map anim_id s).
Proof.
  unfold set_has. intros H I. apply in_map_iff in I as (b & E & Ib).
  assert (T : existsb (fun b => Nat.eqb (anim_id b) (anim_id a)) s = true).
  { apply existsb_exists. exists b. split; [exact Ib|]. apply Nat.eqb_eq. exact E. }
  congruence.
Qed.

Lemma set_add_distinct (s : AnimSet) (a : Animation) :
  distinct s -> distinct (set_add s a).
Proof.
  unfold distinct, set_add. intro D.
  destruct (set_has s a) eqn:H; [exact D|].
  rewrite map_app. cbn [map].
  apply NoDup_app; [exact D|repeat constructor; intros []|].
  intros x Ix [<-|[]]. revert Ix. apply set_has_false. exact H.
Qed.

(** One run of the handler keeps the set free of duplicates and adds to
    it only suspendable animations of the list. *)
Lemma handleAnimations_set (animations : list Animation) :
  forall (s : AnimSet) (calls : list AnimCall),
    (distinct s -> distinct (fst (handleAnimations animations s calls)))
    /\ forall x, In x (fst (handleAnimations animations s calls)) ->
         In x s \/ (In x animations /\ suspendable x).
Proof.
  induction animations as [|a rest IH]; intros s calls; cbn [handleAnimations].
  - cbn. auto.
  - assert (Later : forall s' calls',
              (distinct s -> distinct s') ->
              (forall x, In x s' -> In x s \/ (x = a /\ suspendable a)) ->
              (distinct s -> distinct (fst (handleAnimations rest s' calls')))
              /\ forall x, In x (fst (handleAnimations rest s' calls')) ->
                   In x s \/ (In x (a :: rest) /\ suspendable x)).
    { intros s' calls' D M. destruct (IH s' calls') as [D' M']. split; [auto|].
      intros x I. apply M' in I as [I|[I S]].
      - apply M in I as [I|[-> S]]; [auto|]. right. split; [left; reflexivity|exact S].
      - right. split; [right; exact I|exact S]. }
    destruct (effect a) as [eff|] eqn:Ee; [|apply Later; auto].
    destruct (Qeq_bool (playbackRate a) 0) eqn:Ep; cbn [orb]; [apply Later; auto|].
    destruct (set_has s a) eqn:Eh; [apply Later; auto|].
    destruct (Number_isFinite (endTime eff)) eqn:Ef; [apply Later; auto|].
    destruct (cancel_throws a) eqn:Ec; [apply Later; auto|].
    apply Later; [apply set_add_distinct|].
    intros x I. unfold set_add in I. rewrite Eh in I.
    apply in_app_or in I as [I|[<-|[]]]; [auto|].
    right. split; [reflexivity|].
    unfold suspendable, eligible, infinite. rewrite Ee, Ep, Ef. auto.
Qed.

Lemma handle_all_set (lists : list (list Animation)) :
  forall (s : AnimSet) (calls : list AnimCall),
    (distinct s -> distinct (fst (handle_all lists (s, calls))))
    /\ forall x, In x (fst (handle_all lists (s, calls))) ->
         In x s \/ (exists l, In l lists /\ In x l) /\ suspendable x.
Proof.
  induction lists as [|l rest IH]; intros s calls.
  - cbn. auto.
  - cbn [handle_all fold_left fst snd].
    destruct (handleAnimations_set l s calls) as [D1 M1].
    destruct (handleAnimations l s calls) as [s1 calls1]. cbn [fst] in D1, M1.
    destruct (IH s1 calls1) as [D2 M2]. unfold handle_all in D2, M2. split; [auto|].
    intros x I. apply M2 in I as [I|[(l' & Il & Ix) S]].
    + apply M1 in I as [I|[I S]]; [auto|].
      right. split; [exists l; split; [left; reflexivity|exact I]|exact S].
    + right. split; [exists l'; split; [right; exact Il|exact Ix]|exact S].
Qed.

Lemma played_times_resumed (a : AnimId) (s : AnimSet) :
  distinct s ->
  played_times a (resumed s) = if recorded a s then 1 else 0.
Proof.
  unfold distinct, played_times, resumed, recorded.
  induction s as [|b s IH]; intro D; [reflexivity|].
  inversion D as [|? ? Nb D']; subst.
  cbn [map filter existsb]. unfold is_play_of at 1. cbn [method target].
  destruct (Nat.eqb_spec (anim_id b) a) as [E|N]; cbn [orb].
  - cbn [List.length]. rewrite IH by exact D'.
    destruct (existsb (fun b0 => Nat.eqb (anim_id b0) a) s) eqn:X; [|reflexivity].
    exfalso. apply existsb_exists in X as (c & Ic & Ec). apply Nat.eqb_eq in Ec.
    apply Nb. apply in_map_iff. exists c. split; [congruence|exact Ic].
  - apply IH. exact D'.
Qed.

Lemma restore_plays (k : nat) (w : Realm) :
  __cleanupScreenshot w = Some k -> nth_error (installations w) k <> None ->
  animationCalls (restore w) = animationCalls w ++ resumed (suspended k w).
Proof.
  intros C N. unfold restore, cleanup, suspended. rewrite C.
  destruct (nth_error (installations w) k); [reflexivity|congruence].
Qed.

(** X19.  The cleanup handle resumes what the freeze suspended, and
    nothing else.  For a frame frozen with animations disabled while no
    other freeze is installed, after any events: the calls restore adds
    are all [play()]; each animation is played as often as a [cancel()] on
    it went through since the freeze, and that is once or not at all; and
    every call is the [play()] of an animation that a root of the
    document returned when the frame was frozen, or that an event brought
    to the handler, which had an effect that never ends and a playback
    rate other than zero and whose [cancel()] does not throw, the call
    throwing exactly if that animation's [play()] throws.  An animation
    the handler finished, passed over, or failed to cancel is never
    played. *)
Theorem restore_resumes_what_was_cancelled
        (hc wf : bool) (g : RootId -> list Animation) (w0 : Realm)
        (events : list (RootId * EventName * list Animation)) :
  listeners w0 = [] ->
  let w := dispatch_all events (freeze hc true wf g w0) in
  exists during after,
    animationCalls w = animationCalls w0 ++ during
    /\ animationCalls (restore w) = animationCalls w ++ after
    /\ (forall c, In c after -> method c = play)
    /\ (forall a, played_times a after = cancelled_times a during
                  /\ (played_times a after <= 1)%nat)
    /\ (forall c, In c after ->
          exists x,
            ((exists root, In root (collectRoots (document w0) []) /\ In x (g root))
             \/ (exists root name l, In (root, name, l) events /\ In x l))
            /\ suspendable x
            /\ c = {| method := play; target := anim_id x; threw := play_throws x |}).
Proof.
  intros E w. set (k := List.length (installations w0)).
  destruct (@dispatch_all_only_handler k w0 events _ _ (freeze_only_handler hc wf g w0 E))
    as (more & H & Mo).
  fold w in H. destruct H as (_ & N & R).
  destruct (handle_all_spec (map g (collectRoots (document w0) []) ++ more)
                            [] (animationCalls w0)) as (s' & during & Hs & C & _).
  destruct (handle_all_set (map g (collectRoots (document w0) []) ++ more)
                           [] (animationCalls w0)) as [D M].
  pose proof (eq_trans R Hs) as R'. inversion R' as [[Rs Rc]].
  rewrite Hs in D, M. cbn [fst] in D, M. rewrite <- Rs in D, M.
  destruct (freeze_installs hc true wf g w0) as (Hh & _).
  destruct (dispatch_all_frame events (freeze hc true wf g w0)) as (_ & _ & Cw & _).
  fold w in Cw.
  exists during, (resumed (suspended k w)).
  split; [exact Rc|]. split; [|split; [|split]].
  - apply restore_plays; [rewrite Cw; exact Hh|exact N].
  - intros c I. apply in_map_iff in I as (x & <- & _). reflexivity.
  - intro a. rewrite played_times_resumed by (apply D; constructor).
    rewrite Rs. specialize (C a). cbn in C.
    split; [lia|]. destruct (recorded a s'); lia.
  - intros c I. apply in_map_iff in I as (x & <- & Ix).
    exists x. apply M in Ix as [[]|[(l & Il & Ix) S]].
    split; [|split; [exact S|reflexivity]].
    apply in_app_or in Il as [Il|Il].
    + left. apply in_map_iff in Il as (root & <- & Ir). exists root. auto.
    + right. destruct (Mo l Il) as (root & name & J). exists root, name, l. auto.
Qed.
End Resume.

Lemma restore_resumes_what_was_cancelled_witness :
  let w := dispatch_all [(0, animationstart, [spinner])]
                        (freeze true true false (fun _ => [spinner]) blank_realm) in
  exists during after,
    animationCalls w = animationCalls blank_realm ++ during
    /\ animationCalls (restore w) = animationCalls w ++ after
    /\ (forall c, In c after -> method c = play)
    /\ (forall a, played_times a after = cancelled_times a during
                  /\ (played_times a after <= 1)%nat)
    /\ (forall c, In c after ->
          exists x,
            ((exists root, In root (collectRoots (document blank_realm) [])
                           /\ In x ((fun _ : RootId => [spinner]) root))
             \/ (exists root name l,
                   In (root, name, l) [(0, animationstart, [spinner])] /\ In x l))
            /\ suspendable x
            /\ c = {| method := play; target := anim_id x; threw := play_throws x |}).
Proof.
  apply (@restore_resumes_what_was_cancelled true false (fun _ => [spinner]) blank_realm
           [(0, animationstart, [spinner])]).
  reflexivity.
Defined.

(* ================================================================== *)
(** ** After restore, and a freeze over a freeze *)
(* ================================================================== *)

Section AfterRestore.

Lemma dispatch_all_deaf (later : list (RootId * EventName * list Animation)) (w : Realm) :
  listeners w = [] -> dispatch_all later w = w.
Proof.
  intro L. induction later as [|[[root name] animations] rest IH]; [reflexivity|].
  cbn [dispatch_all]. unfold dispatchEvent. rewrite L. cbn [filter dispatch_to].
  exact IH.
Qed.

(** X20.  A restored frame no longer reacts to animation events.  For a
    frame that had no listeners when it was frozen: once restore has run,
    whatever [transitionrun] and [animationstart] events reach its roots,
    the frame stays exactly as restore left it; the handler of the freeze
    is not run again, so nothing is finished or cancelled any more. *)
Theorem restored_frame_ignores_events
        (hc da wf : bool) (g : RootId -> list Animation) (w0 : Realm)
        (events later : list (RootId * EventName * list Animation)) :
  fresh_realm w0 -> listeners w0 = [] ->
  let w := restore (dispatch_all events (freeze hc da wf g w0)) in
  dispatch_all later w = w.
Proof.
  intros F E w. apply dispatch_all_deaf.
  destruct (@restore_after_freeze hc da wf g w0 events F) as (_ & _ & L & _).
  cbv zeta in L. unfold w. rewrite L. exact E.
Qed.

Lemma freeze_installations hc da wf g (w : Realm) :
  List.length (installations (freeze hc da wf g w)) = S (List.length (installations w)).
Proof.
  unfold freeze.
  destruct (if da then _ else _) as [[[resume calls] ls] callbacks].
  cbn [installations]. rewrite length_app. cbn. lia.
Qed.

Lemma freeze_nextNode hc da wf g (w : Realm) :
  nextNode (freeze hc da wf g w) = S (nextNode w).
Proof.
  unfold freeze.
  destruct (if da then _ else _) as [[[resume calls] ls] callbacks].
  reflexivity.
Qed.

(** X21.  Freeze is not re-entrant.  When the freeze script runs in a
    frame that is still frozen, the new cleanup handle replaces the old
    one, and restore then undoes the second freeze only: the style sheet
    the first freeze injected stays attached and the listeners it
    registered stay registered, while the handle is gone, so that no later
    restore removes them. *)
Theorem second_freeze_orphans_the_first
        (da1 wf1 hc2 da2 wf2 : bool) (g1 g2 : RootId -> list Animation) (w0 : Realm) :
  let w1 := freeze true da1 wf1 g1 w0 in
  let w3 := restore (freeze hc2 da2 wf2 g2 w1) in
  __cleanupScreenshot w3 = None
  /\ In (nextNode w0) (styles w3)
  /\ (forall l, In l (listeners w1) -> owner l = List.length (installations w0) ->
                In l (listeners w3))
  /\ restore w3 = w3.
Proof.
  intros w1 w3.
  destruct (freeze_installs true da1 wf1 g1 w0) as (_ & S1 & _).
  destruct (freeze_installs hc2 da2 wf2 g2 w1) as (H2 & S2 & inst & N & T & B & _ & _).
  destruct (freeze_listeners hc2 da2 wf2 g2 w1) as (extra & L2 & _).
  fold w1 in S1.
  assert (K : List.length (installations w1) = S (List.length (installations w0)))
    by apply freeze_installations.
  assert (Nn : nextNode w1 = S (nextNode w0)) by apply freeze_nextNode.
  assert (C : __cleanupScreenshot w3 = None).
  { unfold w3, restore. rewrite H2. unfold cleanup. rewrite N. reflexivity. }
  split; [exact C|]. split; [|split].
  - unfold w3, restore. rewrite H2. unfold cleanup. rewrite N. cbn [styles].
    apply filter_In. split.
    + rewrite S2, S1.
      assert (I : In (nextNode w0) (styles w0 ++ [nextNode w0]))
        by (apply in_or_app; right; left; reflexivity).
      destruct hc2; [apply in_or_app; left|]; exact I.
    + rewrite T, Nn. apply negb_true_iff, Nat.eqb_neq. lia.
  - intros l I O. unfold w3, restore. rewrite H2. unfold cleanup. rewrite N.
    cbn [listeners]. apply detach_spec. split.
    + rewrite L2. apply in_or_app. left. exact I.
    + intros [O' _]. lia.
  - apply restore_absent. exact C.
Qed.
End AfterRestore.

Lemma restored_frame_ignores_events_witness :
  let w := restore (dispatch_all [(0, animationstart, [spinner])]
                                 (freeze true true false (fun _ => [spinner]) blank_realm)) in
  dispatch_all [(0, transitionrun, [spinner])] w = w.
Proof.
  apply (@restored_frame_ignores_events true true false (fun _ => [spinner]) blank_realm
           [(0, animationstart, [spinner])] [(0, transitionrun, [spinner])]).
  - split; [intros []|intros l []].
  - reflexivity.
Defined.

(* ================================================================== *)
(** ** The queue runs dry *)
(* ================================================================== *)

Section QueueDrains.
Variable Task : Type.
Variable outcome : nat -> settled.

Lemma exec_app (ls1 ls2 : list (label Task)) : forall (q : Runtime Task) posted,
  exec (ls1 ++ ls2) q posted
  = match exec ls1 q posted with
    | Some (q', posted') => exec ls2 q' posted'
    | None => None
    end.
Proof.
  induction ls1 as [|l rest IH]; intros q posted; cbn [app exec]; [reflexivity|].
  destruct (step l q) as [[q1 out]|]; [apply IH|reflexivity].
Qed.

Lemma exec_tick (q q' : Runtime Task) posted :
  run_job q = Some q' -> exec [tick Task] q posted = Some (q', posted).
Proof. intro R. cbn [exec step]. rewrite R. reflexivity. Qed.

Lemma exec_settles (q q' : Runtime Task) posted p o :
  task_settles p o q = Some q' -> exec [settles Task p o] q posted = Some (q', posted).
Proof. intro R. cbn [exec step]. rewrite R. reflexivity. Qed.

Lemma outcomes_from_S (k n : nat) :
  outcomes_from outcome k (S n) = outcome k :: outcomes_from outcome (S k) n.
Proof. reflexivity. Qed.

Lemma nth_error_outcomes_from (k n j : nat) :
  nth_error (outcomes_from outcome k n) j
  = if j <? n then Some (outcome (k + j)) else None.
Proof.
  revert k j. induction n as [|n IH]; intros k j.
  - destruct j; reflexivity.
  - rewrite outcomes_from_S. destruct j as [|j].
    + cbn. rewrite Nat.add_0_r. reflexivity.
    + cbn [nth_error]. rewrite IH.
      change (S j <? S n) with (j <? n).
      replace (S k + j) with (k + S j) by lia. reflexivity.
Qed.

(** From a queue between two tasks: begin the next, let it settle, let the
    chain advance, until nothing is left. *)
Lemma drain_idle (tasks : list Task) posted : forall n done (q : Runtime Task),
  List.length tasks - List.length done = n ->
  shaped tasks done Idle q ->
  exists ls' q',
    Forall (fun l => is_post l = false) ls'
    /\ exec ls' q posted = Some (q', posted)
    /\ shaped tasks (done ++ outcomes_from outcome (List.length done) n) Idle q'.
Proof.
  induction n as [|n IH]; intros done q Hn Sh.
  - exists [], q. cbn. rewrite app_nil_r. auto.
  - assert (Lt : List.length done < List.length tasks) by lia.
    destruct (nth_error tasks (List.length done)) as [t|] eqn:Ht;
      [|apply nth_error_None in Ht; lia].
    destruct (shaped_tick_idle Sh Ht) as (q1 & R1 & Sh1 & _).
    destruct (shaped_settles (outcome (List.length done)) Sh1 Ht) as (q2 & R2 & Sh2 & _).
    destruct (shaped_tick_waking Sh2) as (q3 & R3 & Sh3 & _).
    destruct (IH (done ++ [outcome (List.length done)]) q3) as (ls' & q' & F & E & Sh').
    { rewrite length_app. cbn. lia. }
    { exact Sh3. }
    exists ([tick Task] ++ [settles Task (2 * List.length done + 1)
                                    (outcome (List.length done))]
            ++ [tick Task] ++ ls'), q'.
    split; [repeat constructor; exact F|]. split.
    + rewrite exec_app, (exec_tick _ posted R1).
      rewrite exec_app, (exec_settles _ posted _ _ R2).
      rewrite exec_app, (exec_tick _ posted R3). exact E.
    + rewrite outcomes_from_S.
      rewrite length_app in Sh'. cbn [List.length] in Sh'.
      rewrite Nat.add_1_r, <- app_assoc in Sh'. exact Sh'.
Qed.

Lemma drain (tasks : list Task) posted done ph (q : Runtime Task) :
  shaped tasks done ph q ->
  exists ls' q',
    Forall (fun l => is_post l = false) ls'
    /\ exec ls' q posted = Some (q', posted)
    /\ shaped tasks
              (done ++ outcomes_from outcome (List.length done)
                                     (List.length tasks - List.length done))
              Idle q'.
Proof.
  intro Sh. destruct ph.
  - destruct (shaped_tick_waking Sh) as (q1 & R1 & Sh1 & _).
    destruct (@drain_idle tasks posted _ done q1 eq_refl Sh1) as (ls' & q' & F & E & Sh').
    exists ([tick Task] ++ ls'), q'.
    split; [repeat constructor; exact F|]. split; [|exact Sh'].
    rewrite exec_app, (exec_tick _ posted R1). exact E.
  - apply drain_idle; [reflexivity|exact Sh].
  - pose proof (shape_phase Sh) as Lt. cbn in Lt.
    destruct (nth_error tasks (List.length done)) as [t|] eqn:Ht;
      [|apply nth_error_None in Ht; lia].
    destruct (shaped_settles (outcome (List.length done)) Sh Ht) as (q2 & R2 & Sh2 & _).
    destruct (shaped_tick_waking Sh2) as (q3 & R3 & Sh3 & _).
    destruct (@drain_idle tasks posted _ (done ++ [outcome (List.length done)]) q3
                eq_refl Sh3) as (ls' & q' & F & E & Sh').
    exists ([settles Task (2 * List.length done + 1) (outcome (List.length done))]
            ++ [tick Task] ++ ls'), q'.
    split; [repeat constructor; exact F|]. split.
    + rewrite exec_app, (exec_settles _ posted _ _ R2).
      rewrite exec_app, (exec_tick _ posted R3). exact E.
    + rewrite length_app in Sh'. cbn [List.length] in Sh'.
      rewrite Nat.add_1_r, <- app_assoc in Sh'.
      replace (List.length tasks - List.length done)
        with (S (List.length tasks - S (List.length done))) by lia.
      rewrite outcomes_from_S. exact Sh'.
Qed.
End QueueDrains.

Section QueueDrainsClaim.
Variable Task : Type.

(** X22.  The queue never gets stuck.  From any state it can reach,
    whatever was posted and however far the tasks have come, microtasks
    and settlements alone, without another post, bring every posted task to
    its end: for any outcomes assigned to the tasks still unsettled,
    failures included, there is a run after which all posted tasks have
    begun and ended one after the other in submission order, nothing is
    running, no microtask is left, every promise [postTask] returned
    holds its task's outcome, the outcome is the assigned one for a task
    that had not settled, and the one it already had for a task that
    had. *)
Theorem queue_drains
        (ls : list (label Task)) (q : Runtime Task) (posted : list (Task * pid))
        (outcome : nat -> settled) :
  exec ls (TaskQueue_new Task) [] = Some (q, posted) ->
  exists ls' q' done,
    Forall (fun l => is_post l = false) ls'
    /\ exec ls' q posted = Some (q', posted)
    /\ List.length done = List.length posted
    /\ history q' = sequential (combine (map fst posted) done) None
    /\ running q' = [] /\ jobs q' = []
    /\ (forall k t p, nth_error posted k = Some (t, p) ->
          exists o,
            nth_error done k = Some o
            /\ promise_state q' p = Some (Settled Task o)
            /\ match promise_state q p with
               | Some (Settled _ o') => o = o'
               | _ => o = outcome k
               end).
Proof.
  intro E.
  destruct (@exec_shaped Task ls (TaskQueue_new Task) q [] posted [] Idle
              (shaped_new Task)) as (done & ph & Sh & Rn); [|exact E|].
  { intros k t p H. destruct k; discriminate H. }
  destruct (drain outcome posted Sh) as (ls' & q' & F & E' & Sh').
  pose proof (shape_done Sh) as Hd.
  set (all := done ++ outcomes_from outcome (List.length done)
                        (List.length (map fst posted) - List.length done)) in *.
  assert (La : List.length all = List.length posted).
  { unfold all, outcomes_from.
    rewrite length_app, length_map, length_seq. rewrite length_map in *. lia. }
  exists ls', q', all.
  split; [exact F|]. split; [exact E'|]. split; [exact La|].
  split; [apply (shape_history Sh')|]. split; [|split].
  - rewrite (shape_running Sh'). reflexivity.
  - rewrite (shape_jobs Sh'), waiting_on_beyond; [reflexivity|].
    rewrite length_map. lia.
  - intros k t p H. pose proof (Rn k t p H) as ->.
    assert (Lk : k < List.length posted) by (apply nth_error_Some; congruence).
    destruct (nth_error all k) as [o|] eqn:Ho;
      [|apply nth_error_None in Ho; lia].
    exists o. split; [reflexivity|]. split; [apply (shape_settled Sh'); exact Ho|].
    unfold promise_state.
    destruct (Nat.lt_ge_cases k (List.length done)) as [Lt|Ge].
    + destruct (nth_error done k) as [o'|] eqn:Hk;
        [|apply nth_error_None in Hk; lia].
      rewrite (shape_settled Sh _ Hk).
      unfold all in Ho. rewrite nth_error_app1 in Ho by exact Lt. congruence.
    + rewrite (shape_pending Sh) by (rewrite length_map; lia).
      unfold all in Ho. rewrite nth_error_app2 in Ho by exact Ge.
      rewrite nth_error_outcomes_from in Ho.
      destruct (_ <? _); [|discriminate Ho].
      inversion Ho. f_equal. lia.
Qed.
End QueueDrainsClaim.

Lemma queue_drains_witness :
  match exec [post 10; post 20; tick Task_id; settles Task_id 1 (Rejected (Failure "boom"));
              post 30]
             (TaskQueue_new Task_id) [] with
  | Some (q, posted) =>
      exists ls' q' done,
        Forall (fun l => is_post l = false) ls'
        /\ exec ls' q posted = Some (q', posted)
        /\ List.length done = List.length posted
        /\ history q' = sequential (combine (map fst posted) done) None
        /\ running q' = [] /\ jobs q' = []
        /\ (forall k t p, nth_error posted k = Some (t, p) ->
              exists o,
                nth_error done k = Some o
                /\ promise_state q' p = Some (Settled Task_id o)
                /\ match promise_state q p with
                   | Some (Settled _ o') => o = o'
                   | _ => o = Fulfilled (Some "png"%string)
                   end)
  | None => False
  end.
Proof.
  destruct (exec [post 10; post 20; tick Task_id; settles Task_id 1 (Rejected (Failure "boom"));
                  post 30]
                 (TaskQueue_new Task_id) []) as [[q posted]|] eqn:E.
  - apply (@queue_drains Task_id _ q posted (fun _ => Fulfilled (Some "png"%string)) E).
  - vm_compute in E. discriminate E.
Defined.

(* ================================================================== *)
(** ** The size of the full page *)
(* ================================================================== *)

Section FullPage.
Local Open Scope Q_scope.

Lemma max6_cases (a b c d e f : Q) :
  let m := max6 a b c d e f in
  (a <= m /\ b <= m /\ c <= m /\ d <= m /\ e <= m /\ f <= m)
  /\ (m == a \/ m == b \/ m == c \/ m == d \/ m == e \/ m == f).
Proof.
  unfold max6.
  destruct (Math_max_cases e f) as [[? E5]|[? E5]];
    destruct (Math_max_cases d (Math_max e f)) as [[? E4]|[? E4]];
    destruct (Math_max_cases c (Math_max d (Math_max e f))) as [[? E3]|[? E3]];
    destruct (Math_max_cases b (Math_max c (Math_max d (Math_max e f))))
      as [[? E2]|[? E2]];
    destruct (Math_max_cases a (Math_max b (Math_max c (Math_max d (Math_max e f)))))
      as [[? E1]|[? E1]];
    cbv zeta; (split; [repeat split; lra|]);
    first [ left; lra | right; left; lra | do 2 right; left; lra
          | do 3 right; left; lra | do 4 right; left; lra | do 5 right; lra ].
Qed.

Lemma max6_spec (a b c d e f : Q) :
  Forall (fun v => v <= max6 a b c d e f) [a; b; c; d; e; f]
  /\ Exists (fun v => max6 a b c d e f == v) [a; b; c; d; e; f].
Proof.
  destruct (max6_cases a b c d e f) as [(A & B & C & D & E & F) O]. cbv zeta in *.
  split; [repeat constructor; assumption|].
  destruct O as [O|[O|[O|[O|[O|O]]]]].
  - apply Exists_cons_hd; exact O.
  - apply Exists_cons_tl, Exists_cons_hd; exact O.
  - do 2 apply Exists_cons_tl; apply Exists_cons_hd; exact O.
  - do 3 apply Exists_cons_tl; apply Exists_cons_hd; exact O.
  - do 4 apply Exists_cons_tl; apply Exists_cons_hd; exact O.
  - do 5 apply Exists_cons_tl; apply Exists_cons_hd; exact O.
Qed.

(** X25.  The size a full-page capture takes for the document is there
    exactly when the document has a body and a root element, and is then
    the smallest box that covers both: its width is no less than the
    scroll, offset and client width of either element and equals one of
    the six, and so for its height. *)
Theorem fullPageSize_covers_document (page : Page) :
  match document_size page with
  | Some s =>
      exists body documentElement,
        document_body page = Some body
        /\ document_documentElement page = Some documentElement
        /\ Forall (fun v => v <= Size.width s) (widths body documentElement)
        /\ Exists (fun v => Size.width s == v) (widths body documentElement)
        /\ Forall (fun v => v <= Size.height s) (heights body documentElement)
        /\ Exists (fun v => Size.height s == v) (heights body documentElement)
  | None => document_body page = None \/ document_documentElement page = None
  end.
Proof.
  unfold document_size.
  destruct (document_body page) as [body|]; [|left; reflexivity].
  destruct (document_documentElement page) as [root|]; [|right; reflexivity].
  exists body, root. split; [reflexivity|]. split; [reflexivity|].
  unfold widths, heights. cbn [Size.width Size.height].
  destruct (max6_spec (scrollWidth body) (scrollWidth root) (offsetWidth body)
                      (offsetWidth root) (clientWidth body) (clientWidth root)) as [W1 W2].
  destruct (max6_spec (scrollHeight body) (scrollHeight root) (offsetHeight body)
                      (offsetHeight root) (clientHeight body) (clientHeight root))
    as [H1 H2].
  auto.
Qed.
End FullPage.

(* ================================================================== *)
(** ** Masks: every resolved selector, each frame once *)
(* ================================================================== *)

Section MaskFrames.
Variable page : Page.

Lemma multimap_keys_set k v m :
  multimap_keys (multimap_set k v m)
  = if existsb (Nat.eqb k) (multimap_keys m) then multimap_keys m
    else multimap_keys m ++ [k].
Proof.
  unfold multimap_keys. induction m as [|[k' vs] rest IH]; cbn; [reflexivity|].
  destruct (Nat.eqb k k'); cbn; [reflexivity|].
  rewrite IH. destruct (existsb (Nat.eqb k) (map fst rest)); reflexivity.
Qed.

Lemma multimap_keys_grow k v m f :
  In f (multimap_keys m) -> In f (multimap_keys (multimap_set k v m)).
Proof.
  rewrite multimap_keys_set. destruct (existsb _ _); [auto|].
  intro I. apply in_or_app. left. exact I.
Qed.

Lemma multimap_keys_added k v m : In k (multimap_keys (multimap_set k v m)).
Proof.
  rewrite multimap_keys_set. destruct (existsb _ _) eqn:E.
  - apply existsb_exists in E as (x & I & X). apply Nat.eqb_eq in X. subst x. exact I.
  - apply in_or_app. right. left. reflexivity.
Qed.

Lemma multimap_keys_NoDup k v m :
  NoDup (multimap_keys m) -> NoDup (multimap_keys (multimap_set k v m)).
Proof.
  intro D. rewrite multimap_keys_set. destruct (existsb _ _) eqn:E; [exact D|].
  apply NoDup_app; [exact D|repeat constructor; intros []|].
  intros x Ix [<-|[]].
  assert (T : existsb (Nat.eqb k) (multimap_keys m) = true).
  { apply existsb_exists. exists k. split; [exact Ix|apply Nat.eqb_refl]. }
  congruence.
Qed.

Lemma multimap_get_grow k v m f p :
  In p (multimap_get f m) -> In p (multimap_get f (multimap_set k v m)).
Proof.
  induction m as [|[k' vs] rest IH]; cbn; [intros []|].
  destruct (Nat.eqb k k') eqn:E; cbn.
  - destruct (Nat.eqb f k'); [|auto]. intro I. apply in_or_app. left. exact I.
  - destruct (Nat.eqb f k'); auto.
Qed.

Lemma multimap_get_added k v m : In v (multimap_get k (multimap_set k v m)).
Proof.
  induction m as [|[k' vs] rest IH]; cbn.
  - rewrite Nat.eqb_refl. left. reflexivity.
  - destruct (Nat.eqb k k') eqn:E; cbn; rewrite E; [|exact IH].
    apply in_or_app. right. left. reflexivity.
Qed.

(** What the resolution pass has stored when it returns. *)
Lemma resolve_masks_stores pairs : forall m0 w m,
  returned (resolve_masks page pairs m0 w) = Ok m ->
  (NoDup (multimap_keys m0) -> NoDup (multimap_keys m))
  /\ (forall f, In f (multimap_keys m0) -> In f (multimap_keys m))
  /\ (forall f p, In p (multimap_get f m0) -> In p (multimap_get f m))
  /\ (forall f s o p, In (f, s) pairs ->
        resolveFrameForSelector page f s = Some (o, p) ->
        In o (multimap_keys m) /\ In p (multimap_get o m)).
Proof.
  induction pairs as [|[f s] rest IH]; intros m0 w m; cbn [resolve_masks].
  - intro H. inversion H; subst.
    split; [auto|]. split; [auto|]. split; [auto|]. intros ? ? ? ? [].
  - intro H. apply returned_alongside_Ok in H as (_ & H).
    apply IH in H as (D & K & G & R).
    destruct (resolveFrameForSelector page f s) as [[o p]|] eqn:E.
    + split; [intro N; apply D, multimap_keys_NoDup, N|].
      split; [intros f' I; apply K, multimap_keys_grow, I|].
      split; [intros f' p' I; apply G, multimap_get_grow, I|].
      intros f' s' o' p' [X|I] R'.
      * inversion X; subst f' s'. rewrite E in R'. inversion R'; subst o' p'.
        split; [apply K, multimap_keys_added|apply G, multimap_get_added].
      * eapply R; eassumption.
    + split; [exact D|]. split; [exact K|]. split; [exact G|].
      intros f' s' o' p' [X|I] R'; [|eapply R; eassumption].
      inversion X; subst f' s'. congruence.
Qed.

(** The masking pass calls [maskSelectors] for every key, in the order of
    the keys, whichever of the calls is rejected. *)
Lemma mask_frames_trace keys m : forall w,
  trace (mask_frames page keys m w)
  = map (fun f => maskSelectors f (multimap_get f m)) keys.
Proof.
  induction keys as [|f rest IH]; intro w; cbn [mask_frames].
  - reflexivity.
  - rewrite trace_alongside. cbn [call trace world map app]. rewrite IH. reflexivity.
Qed.

Lemma masked_frames_app (s t : list event) :
  masked_frames (s ++ t) = masked_frames s ++ masked_frames t.
Proof. apply flat_map_app. Qed.

Lemma masked_frames_none (t : list event) :
  Forall (fun e => is_mask e = false) t -> masked_frames t = [].
Proof.
  induction 1 as [|e t He _ IH]; [reflexivity|].
  cbn [masked_frames flat_map]. fold (masked_frames t). rewrite IH.
  destruct e; try reflexivity. discriminate He.
Qed.

Lemma masked_frames_masks (m : MultiMap) (keys : list FrameId) :
  masked_frames (map (fun f => maskSelectors f (multimap_get f m)) keys) = keys.
Proof.
  induction keys as [|f rest IH]; [reflexivity|].
  cbn [map masked_frames flat_map app]. fold (masked_frames
    (map (fun f => maskSelectors f (multimap_get f m)) rest)).
  rewrite IH. reflexivity.
Qed.

Lemma NoDup_firstn {A} (n : nat) (l : list A) : NoDup l -> NoDup (firstn n l).
Proof.
  revert n. induction l as [|a l IH]; intros n D; [rewrite firstn_nil; constructor|].
  destruct n as [|n]; [constructor|]. cbn [firstn].
  inversion D as [|? ? Na D']; subst. constructor; [|apply IH; exact D'].
  intro I. apply Na. revert I. clear. revert n.
  induction l as [|b l IH]; intros n I; [rewrite firstn_nil in I; destruct I|].
  destruct n as [|n]; [destruct I|]. cbn [firstn] in I.
  destruct I as [->|I]; [left; reflexivity|right; eapply IH; exact I].
Qed.

(** What [_maskElements] does on a non-empty list of pairs. *)
Lemma maskElements_trace options pairs w :
  mask options = Some pairs -> pairs <> [] ->
  exists m n,
    masked_frames (trace (_maskElements page options w)) = firstn n (multimap_keys m)
    /\ NoDup (multimap_keys m)
    /\ (forall b, returned (_maskElements page options w) = Ok b ->
          firstn n (multimap_keys m) = multimap_keys m
          /\ returned (resolve_masks page pairs [] w) = Ok m
          /\ forall f, In f (multimap_keys m) ->
               In (maskSelectors f (multimap_get f m))
                  (trace (_maskElements page options w))).
Proof.
  intros E Ne. unfold _maskElements. rewrite E.
  destruct pairs as [|p0 rest]; [congruence|]. cbv beta iota.
  remember (p0 :: rest) as pairs eqn:Hp. clear Hp Ne.
  rewrite trace_bindM, returned_bindM, masked_frames_app.
  rewrite (@masked_frames_none (trace (resolve_masks page pairs [] w)))
    by (apply emits_resolve_masks; reflexivity).
  cbn [app].
  destruct (returned (resolve_masks page pairs [] w)) as [m|e] eqn:R.
  - destruct (resolve_masks_stores _ _ _ R) as (D & _).
    assert (Dm : NoDup (multimap_keys m)) by (apply D; constructor).
    rewrite trace_bindM, returned_bindM. cbn [throwIfAborted trace returned world app].
    destruct (aborted page _).
    + exists m, 0. split; [reflexivity|]. split; [exact Dm|]. intros b H. discriminate H.
    + rewrite trace_bindM, returned_bindM, masked_frames_app.
      pose proof (firstn_all (multimap_keys m)) as F.
      match goal with
      | |- context [mask_frames page (multimap_keys m) m ?w'] =>
          pose proof (mask_frames_trace (multimap_keys m) m w') as T;
          destruct (returned (mask_frames page (multimap_keys m) m w')) as [[]|e] eqn:Rm
      end.
      * exists m, (List.length (multimap_keys m)). rewrite T, masked_frames_masks, F.
        rewrite trace_bindM. cbn [emit trace returned world ret app masked_frames flat_map].
        rewrite app_nil_r. split; [reflexivity|]. split; [exact Dm|].
        intros b _. split; [reflexivity|]. split; [reflexivity|].
        intros f I. apply in_or_app. right. apply in_or_app. left.
        apply in_map_iff. exists f. auto.
      * exists m, (List.length (multimap_keys m)).
        rewrite T, masked_frames_masks, app_nil_r, F.
        split; [reflexivity|]. split; [exact Dm|]. intros b H. discriminate H.
  - exists [], 0. split; [reflexivity|]. split; [constructor|].
    intros b H. discriminate H.
Qed.

(** X23.  No frame is masked twice: in every run of [_maskElements],
    whatever is rejected or aborted, [maskSelectors] is called at most
    once for any frame, however many of the selectors given resolve into
    that frame. *)
Theorem frames_masked_at_most_once (options : ScreenshotOptions) (w : World) :
  NoDup (masked_frames (trace (_maskElements page options w))).
Proof.
  destruct (mask options) as [pairs|] eqn:E.
  - destruct pairs as [|p0 rest] eqn:Ep.
    + unfold _maskElements. rewrite E. constructor.
    + destruct (@maskElements_trace options pairs w) as (m & n & T & D & _);
        [congruence|subst; discriminate|].
      subst pairs. rewrite T. apply NoDup_firstn. exact D.
  - unfold _maskElements. rewrite E. constructor.
Qed.

(** X24.  Every selector that resolves is masked.  When [_maskElements]
    returns, each pair of the mask list whose selector resolved has its
    parsed selector among those of the one [maskSelectors] call made for
    the frame that owns the element. *)
Theorem resolved_selectors_are_masked
        (options : ScreenshotOptions) (w : World) (b : bool)
        (pairs : list (FrameId * selector)) (f : FrameId) (s : selector)
        (o : FrameId) (p : ParsedSelector) :
  returned (_maskElements page options w) = Ok b ->
  mask options = Some pairs -> In (f, s) pairs ->
  resolveFrameForSelector page f s = Some (o, p) ->
  exists sels,
    In (maskSelectors o sels) (trace (_maskElements page options w)) /\ In p sels.
Proof.
  intros H E I R.
  destruct (@maskElements_trace options pairs w E) as (m & n & _ & _ & K).
  { intros ->. destruct I. }
  destruct (K b H) as (_ & Rm & M).
  destruct (resolve_masks_stores _ _ _ Rm) as (_ & _ & _ & S).
  destruct (S f s o p I R) as [Ko Gp].
  exists (multimap_get o m). split; [apply M; exact Ko|exact Gp].
Qed.
End MaskFrames.

Lemma resolved_selectors_are_masked_witness :
  exists sels,
    In (maskSelectors 0 sels)
       (trace (_maskElements resolving_page
                 (masking default_options [(0, "#ad"%string); (0, "#banner"%string)])
                 (initial_world [main_frame])))
    /\ In "#banner"%string sels.
Proof.
  apply (@resolved_selectors_are_masked resolving_page
           (masking default_options [(0, "#ad"%string); (0, "#banner"%string)])
           (initial_world [main_frame]) true
           [(0, "#ad"%string); (0, "#banner"%string)] 0 "#banner"%string
           0 "#banner"%string).
  - reflexivity.
  - reflexivity.
  - right. left. reflexivity.
  - reflexivity.
Defined.

(* ================================================================== *)
(** ** Posting to the queue *)
(* ================================================================== *)

Section Posting.
Variable Task : Type.

(** X26.  [postTask] is asynchronous and leaves earlier results alone.
    On any queue reached from a fresh one, posting a task begins nothing at
    once, not even on an idle queue: the history and the running tasks are
    as before; the promise returned is a new one, different from every
    promise returned before, and pending; and the promises returned for
    earlier tasks are in the state they were in. *)
Theorem postTask_is_asynchronous
        (ls : list (label Task)) (q : Runtime Task) (posted : list (Task * pid))
        (t : Task) :
  exec ls (TaskQueue_new Task) [] = Some (q, posted) ->
  let p := fst (postTask t q) in
  let q' := snd (postTask t q) in
  history q' = history q
  /\ running q' = running q
  /\ promise_state q' p = Some (Pending [catch_reaction Task (p + 1)])
  /\ ~ In p (map snd posted)
  /\ (forall t0 p0, In (t0, p0) posted -> promise_state q' p0 = promise_state q p0).
Proof.
  intros E p q'.
  destruct (@exec_shaped Task ls (TaskQueue_new Task) q [] posted [] Idle
              (shaped_new Task)) as (done & ph & Sh & Rn); [|exact E|].
  { intros k t0 p0 H. destruct k; discriminate H. }
  destruct (shaped_post t Sh) as [Ep Sh']. fold p in Ep. fold q' in Sh'.
  pose proof (shape_done Sh) as Hd. rewrite length_map in *.
  split; [|split; [|split; [|split]]].
  - rewrite (shape_history Sh'), (shape_history Sh).
    rewrite combine_snoc_l by (rewrite length_map; exact Hd).
    destruct ph; try reflexivity.
    pose proof (shape_phase Sh) as Lt. cbn in Lt.
    rewrite nth_error_app1 by exact Lt. reflexivity.
  - rewrite (shape_running Sh'), (shape_running Sh).
    destruct ph; try reflexivity.
    pose proof (shape_phase Sh) as Lt. cbn in Lt.
    rewrite nth_error_app1 by exact Lt. reflexivity.
  - unfold promise_state. rewrite Ep.
    rewrite (shape_pending Sh')
      by (rewrite length_app, length_map; cbn [List.length]; lia).
    replace (2 * List.length posted + 1 + 1) with (2 * List.length posted + 2) by lia.
    reflexivity.
  - intro I. apply in_map_iff in I as ([t0 p0] & X & I). cbn in X. subst p0.
    apply In_nth_error in I as (k & I).
    assert (k < List.length posted) by (apply nth_error_Some; congruence).
    apply Rn in I. lia.
  - intros t0 p0 I. apply In_nth_error in I as (k & I).
    assert (Lk : k < List.length posted) by (apply nth_error_Some; congruence).
    pose proof (Rn _ _ _ I) as ->. unfold promise_state.
    destruct (nth_error done k) as [o|] eqn:Hk.
    + rewrite (shape_settled Sh' _ Hk), (shape_settled Sh _ Hk). reflexivity.
    + apply nth_error_None in Hk.
      rewrite (shape_pending Sh')
        by (rewrite length_app, length_map; cbn [List.length]; lia).
      rewrite (shape_pending Sh) by (rewrite length_map; lia). reflexivity.
Qed.
End Posting.

Lemma postTask_is_asynchronous_witness :
  match exec [post 10; tick Task_id] (TaskQueue_new Task_id) [] with
  | Some (q, posted) =>
      let p := fst (postTask 20 q) in
      let q' := snd (postTask 20 q) in
      history q' = history q
      /\ running q' = running q
      /\ promise_state q' p = Some (Pending [catch_reaction Task_id (p + 1)])
      /\ ~ In p (map snd posted)
      /\ (forall t0 p0, In (t0, p0) posted -> promise_state q' p0 = promise_state q p0)
  | None => False
  end.
Proof.
  destruct (exec [post 10; tick Task_id] (TaskQueue_new Task_id) [])
    as [[q posted]|] eqn:E.
  - apply (@postTask_is_asynchronous Task_id _ q posted 20 E).
  - vm_compute in E. discriminate E.
Defined.

(* ================================================================== *)
(** ** What validation has established *)
(* ================================================================== *)

Section Validated.
Local Open Scope Q_scope.

(** X27.  What accepted options look like.  When
    [validateScreenshotOptions] returns, the format it returns is jpeg
    exactly for the type 'jpeg' and png in every other case, an absent or
    empty type included; a quality, if given, comes with the jpeg format
    and is an integer from 0 to 100; and a clip, if given, has four
    numbers for fields, with a width and a height other than zero. *)
Theorem validated_options (o : ScreenshotOptions) (f : Format) :
  validateScreenshotOptions o = Ok f ->
  f = (if is_string (type o) "jpeg" then jpeg else png)
  /\ (is_defined (quality o) = true ->
      f = jpeg
      /\ exists n, quality o = VNumber n /\ Number_isInteger n = true /\ 0 <= n <= 100)
  /\ (forall c, clip o = Some c ->
        exists x y w h,
          c = Clip.mk (VNumber x) (VNumber y) (VNumber w) (VNumber h)
          /\ ~ w == 0 /\ ~ h == 0).
Proof.
  intro V. pose proof (validate_format _ V) as F.
  assert (N : invalid_options o = false) by (rewrite <- validate_failed, V; reflexivity).
  unfold invalid_options in N.
  apply orb_false_elim in N as [N _]. apply orb_false_elim in N as [_ Bq].
  split; [exact F|]. split.
  - intro D. unfold bad_quality in Bq. rewrite D in Bq. cbn [andb] in Bq.
    apply orb_false_elim in Bq as [J Q]. apply negb_false_iff in J.
    rewrite J in F. split; [exact F|].
    destruct (quality o) as [| | |n|]; try discriminate Q.
    apply orb_false_elim in Q as [Q Q3]. apply orb_false_elim in Q as [Q1 Q2].
    apply negb_false_iff in Q1, Q2, Q3.
    exists n. split; [reflexivity|]. split; [exact Q1|].
    split; apply Qle_bool_iff; assumption.
  - intros c C.
    destruct (validate_clip_numbers _ V C) as (Ex & Ey & Ew & Eh & Nw & Nh).
    exists (Rect.x (Clip.rect c)), (Rect.y (Clip.rect c)),
      (Rect.width (Clip.rect c)), (Rect.height (Clip.rect c)).
    split; [|split; assumption].
    destruct c as [x y w h]. cbn [Clip.x Clip.y Clip.width Clip.height] in *.
    destruct x, y, w, h; try discriminate. reflexivity.
Qed.
End Validated.

Lemma validated_options_witness :
  jpeg = (if is_string (type jpeg_options) "jpeg" then jpeg else png)
  /\ (is_defined (quality jpeg_options) = true ->
      jpeg = jpeg
      /\ exists n, quality jpeg_options = VNumber n /\ Number_isInteger n = true
                   /\ (0 <= n <= 100)%Q)
  /\ (forall c, clip jpeg_options = Some c ->
        exists x y w h,
          c = Clip.mk (VNumber x) (VNumber y) (VNumber w) (VNumber h)
          /\ ~ (w == 0)%Q /\ ~ (h == 0)%Q).
Proof.
  apply (@validated_options jpeg_options jpeg). reflexivity.
Defined.

(* ================================================================== *)
(** ** Finish what ends, cancel what does not *)
(* ================================================================== *)

Section FinishOrCancel.

Lemma handleAnimations_methods (animations : list Animation) :
  forall (s : AnimSet) (c : AnimCall),
    In c (snd (handleAnimations animations s [])) ->
    exists x, In x animations /\ handled_as x c.
Proof.
  induction animations as [|a rest IH]; intros s c; cbn [handleAnimations].
  - intros [].
  - assert (Later : forall s', In c (snd (handleAnimations rest s' [])) ->
                    exists x, In x (a :: rest) /\ handled_as x c).
    { intros s' I. apply IH in I as (x & Ix & Hx). exists x. split; [right|]; assumption. }
    destruct (effect a) as [eff|] eqn:Ee; [|apply Later].
    destruct (Qeq_bool (playbackRate a) 0) eqn:Ep; cbn [orb]; [apply Later|].
    destruct (set_has s a); [apply Later|].
    assert (El : eligible a = true) by (unfold eligible; rewrite Ee, Ep; reflexivity).
    destruct (Number_isFinite (endTime eff)) eqn:Ef; [|destruct (cancel_throws a) eqn:Ec];
      rewrite handleAnimations_calls; cbn [fst snd]; intro I;
      apply in_app_or in I as [[<-|[]]|I]; try (eapply Later; exact I);
      exists a; (split; [left; reflexivity|]);
      unfold handled_as, infinite; rewrite Ee, Ef; cbn;
      (split; [reflexivity|]); (split; [exact El|]); auto.
Qed.

Lemma handle_all_methods (lists : list (list Animation)) :
  forall (s : AnimSet) (base : list AnimCall) (c : AnimCall),
    In c (snd (handle_all lists (s, base))) ->
    In c base \/ exists l x, In l lists /\ In x l /\ handled_as x c.
Proof.
  induction lists as [|l rest IH]; intros s base c.
  - cbn. auto.
  - cbn [handle_all fold_left fst snd]. rewrite handleAnimations_calls.
    pose proof (@handleAnimations_methods l s c) as M.
    destruct (handleAnimations l s []) as [s1 n1]. cbn [fst snd] in *.
    intro I. apply (IH s1 (base ++ n1) c) in I as [I|(l' & x & Il & Ix & H)].
    + apply in_app_or in I as [I|I]; [auto|].
      apply M in I as (x & Ix & H). right. exists l, x. cbn. auto.
    + right. exists l', x. cbn. auto.
Qed.

(** X28.  The handler finishes what ends and cancels what does not.  For a
    frame frozen with animations disabled while no other freeze is
    installed, after any events: every call made on an animation since the
    freeze is a [finish()] on an animation whose effect has a finite end
    time, or a [cancel()] on one whose end time is not finite; the
    animation is one a root returned when the frame was frozen or when an
    event reached it, it had an effect and a playback rate other than
    zero, and the call threw exactly if that method of the animation
    throws. *)
Theorem handler_finishes_or_cancels
        (hc wf : bool) (g : RootId -> list Animation) (w0 : Realm)
        (events : list (RootId * EventName * list Animation)) (c : AnimCall) :
  listeners w0 = [] ->
  In c (animationCalls (dispatch_all events (freeze hc true wf g w0))) ->
  In c (animationCalls w0)
  \/ exists x,
       ((exists root, In root (collectRoots (document w0) []) /\ In x (g root))
        \/ (exists root name l, In (root, name, l) events /\ In x l))
       /\ handled_as x c.
Proof.
  intros E I.
  destruct (@dispatch_all_only_handler (List.length (installations w0)) w0 events _ _
              (freeze_only_handler hc wf g w0 E)) as (more & H & M).
  destruct H as (_ & _ & R).
  pose proof (f_equal snd R) as Rc. cbn [snd] in Rc. rewrite Rc in I.
  apply handle_all_methods in I as [I|(l & x & Il & Ix & H)]; [left; exact I|].
  right. exists x. split; [|exact H].
  apply in_app_or in Il as [Il|Il].
  - left. apply in_map_iff in Il as (root & <- & Ir). exists root. auto.
  - right. destruct (M l Il) as (root & name & J). exists root, name, l. auto.
Qed.
End FinishOrCancel.

Lemma handler_finishes_or_cancels_witness :
  In {| method := cancel; target := 7; threw := false |} (animationCalls blank_realm)
  \/ exists x,
       ((exists root, In root (collectRoots (document blank_realm) [])
                      /\ In x ((fun _ : RootId => [spinner]) root))
        \/ (exists root name l,
              In (root, name, l) [(0, animationstart, [spinner])] /\ In x l))
       /\ handled_as x {| method := cancel; target := 7; threw := false |}.
Proof.
  apply (@handler_finishes_or_cancels true false (fun _ => [spinner]) blank_realm
           [(0, animationstart, [spinner])]
           {| method := cancel; target := 7; threw := false |}).
  - reflexivity.
  - left. reflexivity.
Defined.

(* ================================================================== *)
(** ** A rejected evaluation is swallowed *)
(* ================================================================== *)

Section Swallowed.
Variable page : Page.

Lemma evaluate_each_nth name script (fs : list FrameState) : forall n i f,
  nth_error fs i = Some f ->
  nth_error (fst (fst (evaluate_each page name script fs n))) i
  = Some {| frame_id := frame_id f; getAnimations := getAnimations f;
            realm := if rejects page (n + i)
                     then interrupted page (n + i) (realm (landed page f))
                     else script f (realm (landed page f));
            in_flight := [] |}.
Proof.
  induction fs as [|f0 rest IH]; intros n i f H; [destruct i; discriminate H|].
  cbn [evaluate_each]. specialize (IH (S n)).
  destruct (evaluate_each page name script rest (S n)) as [[fs' n'] t]. cbn [fst] in *.
  destruct i as [|i].
  - cbn in H. inversion H; subst f0. cbn. rewrite Nat.add_0_r. reflexivity.
  - cbn [nth_error] in *. rewrite (IH i f H).
    replace (S n + i) with (n + S i) by lia. reflexivity.
Qed.

(** X29.  A rejected freeze is swallowed.  [_preparePageForScreenshot]
    never fails, whichever evaluations are rejected: it evaluates the
    freeze script once in every frame of the page, in the order of
    [page.frames()], the frames remain the same frames, and every frame
    whose own evaluation is not rejected is frozen, in the state in which
    the evaluations that were on their way to it had left it, whatever was
    rejected in the frames before and after it. *)
Theorem rejected_freeze_is_swallowed
        (options : ScreenshotOptions) (w : World) (i : nat) (f : FrameState) :
  nth_error (frames w) i = Some f ->
  returned (prepare page options w) = Ok tt
  /\ frozen_frames (trace (prepare page options w)) = map frame_id (frames w)
  /\ map frame_id (frames (world (prepare page options w))) = map frame_id (frames w)
  /\ (rejects page (page_calls w + i) = false ->
      nth_error (frames (world (prepare page options w))) i
      = Some (frozen (hideCaret options) (disableAnimations options)
                     (waitForFonts options) (landed page f))).
Proof.
  intro H. split; [apply prepare_returns|]. split; [|split; [apply prepare_ids|]].
  - rewrite prepare_trace. unfold frozen_frames. rewrite !flat_map_app.
    assert (L : forall (b : bool) text,
              flat_map (fun e => match e with
                                 | evaluate_freeze f _ _ _ => [f]
                                 | _ => []
                                 end) (if b then [progress_log text] else []) = []).
    { intros b text. destruct b; reflexivity. }
    rewrite !L. cbn [flat_map app]. rewrite app_nil_r.
    clear. induction (map frame_id (frames w)) as [|x rest IH]; [reflexivity|].
    cbn [map flat_map app]. f_equal. exact IH.
  - intro R. rewrite prepare_world. unfold evaluate_in_frames.
    pose proof (@evaluate_each_nth
                  (fun f => evaluate_freeze f (hideCaret options)
                              (disableAnimations options) (waitForFonts options))
                  (fun f => freeze (hideCaret options) (disableAnimations options)
                              (waitForFonts options) (getAnimations f))
                  (frames w) (page_calls w) i f H) as E.
    destruct (evaluate_each page _ _ (frames w) (page_calls w)) as [[fs n] t].
    cbn [fst world frames] in *. rewrite E, R. reflexivity.
Qed.
End Swallowed.

Lemma rejected_freeze_is_swallowed_witness :
  let w := initial_world [main_frame; child_frame] in
  returned (prepare flaky_page default_options w) = Ok tt
  /\ frozen_frames (trace (prepare flaky_page default_options w))
     = map frame_id (frames w)
  /\ map frame_id (frames (world (prepare flaky_page default_options w)))
     = map frame_id (frames w)
  /\ (rejects flaky_page (page_calls w + 1) = false ->
      nth_error (frames (world (prepare flaky_page default_options w))) 1
      = Some (frozen (hideCaret default_options) (disableAnimations default_options)
                     (waitForFonts default_options) (landed flaky_page child_frame))).
Proof.
  apply (@rejected_freeze_is_swallowed flaky_page default_options
           (initial_world [main_frame; child_frame]) 1 child_frame).
  reflexivity.
Defined.

(* ================================================================== *)
(** ** Reversals are registered before the pixels are taken *)
(* ================================================================== *)

Section Registered.
Variable page : Page.

(** A capture event of [t1 ++ t2] lies in [t2] when [t1] has none. *)
Lemma split_after_quiet (t1 t2 pre post : list event) (shot : event) :
  Forall no_capture t1 -> is_capture shot = true ->
  t1 ++ t2 = pre ++ shot :: post ->
  exists pre', pre = t1 ++ pre' /\ t2 = pre' ++ shot :: post.
Proof.
  intros Q C. revert pre. induction Q as [|e t1 He _ IH]; intros pre E.
  - exists pre. auto.
  - destruct pre as [|x pre].
    + cbn in E. inversion E; subst. unfold no_capture in He. congruence.
    + cbn in E. inversion E; subst x. destruct (IH pre H1) as (pre' & -> & ->).
      exists pre'. auto.
Qed.

(** The first capture event of [t1 ++ t2] lies in [t1] when [t2] has
    none. *)
Lemma split_before_quiet (t1 t2 pre post : list event) (shot : event) :
  Forall no_capture t2 -> is_capture shot = true ->
  t1 ++ t2 = pre ++ shot :: post ->
  exists post', t1 = pre ++ shot :: post'.
Proof.
  intros Q C. revert pre. induction t1 as [|e t1 IH]; intros pre E.
  - cbn in E. exfalso. rewrite Forall_forall in Q.
    assert (I : In shot t2) by (rewrite E; apply in_or_app; right; left; reflexivity).
    apply Q in I. unfold no_capture in I. congruence.
  - destruct pre as [|x pre].
    + cbn in E. inversion E; subst. exists t1. reflexivity.
    + cbn in E. inversion E; subst x. destruct (IH pre H1) as (post' & ->).
      exists post'. reflexivity.
Qed.

Lemma capture_in_bind {A B} (m : M A) (k : A -> M B) w pre shot post :
  emits no_capture m -> is_capture shot = true ->
  trace (bindM m k w) = pre ++ shot :: post ->
  exists a pre',
    returned (m w) = Ok a
    /\ pre = trace (m w) ++ pre'
    /\ trace (k a (world (m w))) = pre' ++ shot :: post.
Proof.
  intros Q C. rewrite trace_bindM.
  destruct (returned (m w)) as [a|e]; intro E.
  - destruct (@split_after_quiet _ _ _ _ _ (Q w) C E) as (pre' & -> & T).
    exists a, pre'. auto.
  - exfalso. rewrite app_nil_r in E. specialize (Q w). rewrite Forall_forall in Q.
    assert (I : In shot (trace (m w)))
      by (rewrite E; apply in_or_app; right; left; reflexivity).
    apply Q in I. unfold no_capture in I. congruence.
Qed.

Lemma maskElements_registers options w b :
  returned (_maskElements page options w) = Ok b -> has_mask options = true ->
  In (cleanupWhenAborted hide_highlight) (trace (_maskElements page options w)).
Proof.
  unfold _maskElements, has_mask.
  destruct (mask options) as [[|p rest]|]; cbv beta iota; try discriminate.
  intros H _.
  ok_bind H R1. ok_bind H R2. ok_bind H R3. ok_bind H R4.
  apply in_or_app; right. apply in_or_app; right. apply in_or_app; right.
  left. reflexivity.
Qed.

Lemma screenshot_registers format documentRect viewportRect fitsViewport options w
      pre shot post :
  is_capture shot = true ->
  trace (_screenshot page format documentRect viewportRect fitsViewport options w)
  = pre ++ shot :: post ->
  (shouldSetDefaultBackground format options = true ->
   In (setBackgroundColor true) pre /\ In (cleanupWhenAborted default_background) pre)
  /\ (has_mask options = true -> In (cleanupWhenAborted hide_highlight) pre).
Proof.
  intros C H. unfold _screenshot in H.
  apply capture_in_bind in H as (a1 & p1 & R1 & -> & H); [|emits_auto|exact C].
  apply capture_in_bind in H as (a2 & p2 & R2 & -> & H); [|emits_auto|exact C].
  cbv beta zeta in H.
  apply capture_in_bind in H as (a3 & p3 & R3 & -> & H); [|emits_auto|exact C].
  apply capture_in_bind in H as (a4 & p4 & R4 & -> & H); [|emits_auto|exact C].
  apply capture_in_bind in H as (a5 & p5 & R5 & -> & H);
    [|apply emits_maskElements; reflexivity|exact C].
  rewrite (@override_trace page _ _ _ _ _ R3).
  unfold shouldSetDefaultBackground. split.
  - intros ->. split.
    + apply in_or_app; right. apply in_or_app; right. apply in_or_app; left.
      left. reflexivity.
    + apply in_or_app; right. apply in_or_app; right. apply in_or_app; left.
      right. left. reflexivity.
  - intro Hm. do 4 (apply in_or_app; right). apply in_or_app; left.
    eapply maskElements_registers; eassumption.
Qed.

Lemma capture_tail_registers format documentRect viewportRect fitsViewport options w
      pre shot post :
  is_capture shot = true ->
  trace (bindM (_screenshot page format documentRect viewportRect fitsViewport options)
               (fun buffer =>
                  bindM (throwIfAborted page)
                        (fun _ => bindM (_restorePageAfterScreenshot page)
                                        (fun _ => ret buffer))) w)
  = pre ++ shot :: post ->
  (shouldSetDefaultBackground format options = true ->
   In (setBackgroundColor true) pre /\ In (cleanupWhenAborted default_background) pre)
  /\ (has_mask options = true -> In (cleanupWhenAborted hide_highlight) pre).
Proof.
  intros C H. rewrite trace_bindM in H.
  apply split_before_quiet in H as (post' & H); [|  |exact C].
  - eapply screenshot_registers; eassumption.
  - destruct (returned (_screenshot page format documentRect viewportRect fitsViewport
                                    options w)) as [buffer|e]; [|constructor].
    apply after_screenshot_quiet.
Qed.

Lemma registered_after (format : Format) (options : ScreenshotOptions)
      (t pre : list event) :
  ((shouldSetDefaultBackground format options = true ->
    In (setBackgroundColor true) pre /\ In (cleanupWhenAborted default_background) pre)
   /\ (has_mask options = true -> In (cleanupWhenAborted hide_highlight) pre)) ->
  In (cleanupWhenAborted restore_page) t ->
  reversals_registered format options (t ++ pre).
Proof.
  intros [B K] I. split; [apply in_or_app; left; exact I|]. split.
  - intro S. destruct (B S). split; apply in_or_app; right; assumption.
  - intro S. apply in_or_app; right. auto.
Qed.
End Registered.

Section RegisteredClaim.
Variable page : Page.

Lemma prepare_registered options w :
  In (cleanupWhenAborted restore_page) (trace (prepare page options w)).
Proof.
  destruct (prepare_registers page options w) as (t1 & -> & _).
  apply in_or_app. right. left. reflexivity.
Qed.

(** X30.  By the time the pixels are taken, every change made to the page
    has its reversal registered for the case of an abort.  In every run of
    a capture, before a call of [takeScreenshot]: the restore of the frozen
    frames has been registered; if the background is to be overridden, it
    has been overridden and its reset registered; and if a non-empty mask
    list was given, the removal of the highlight has been registered. *)
Theorem reversals_registered_before_pixels
        (c : Capture) (w : World) (pre post : list event) (shot : event) :
  trace (run_capture page c w) = pre ++ shot :: post ->
  is_capture shot = true ->
  reversals_registered (capture_format c) (capture_options c) pre.
Proof.
  intros H C.
  destruct c as [format options|format options];
    cbn [run_capture capture_format capture_options] in *.
  - unfold screenshotPage_task in H.
    apply capture_in_bind in H as (a1 & p1 & R1 & -> & H); [|emits_auto|exact C].
    apply capture_in_bind in H as (a2 & p2 & R2 & -> & H);
      [|apply originalViewportSize_emits; reflexivity|exact C].
    cbv beta zeta in H.
    apply capture_in_bind in H as (a3 & p3 & R3 & -> & H);
      [|apply prepare_emits; reflexivity|exact C].
    apply capture_in_bind in H as (a4 & p4 & R4 & -> & H); [|emits_auto|exact C].
    rewrite !app_assoc. rewrite <- (app_assoc _ _ p4).
    destruct (fullPage options).
    + apply capture_in_bind in H as (a5 & p5 & R5 & -> & H);
        [|unfold _fullPageSize; emits_auto|exact C].
      destruct a5 as [fullPageSize|];
        [|cbn in H; destruct p5; discriminate H].
      apply capture_in_bind in H as (a6 & p6 & R6 & -> & H);
        [|destruct (clip options); emits_auto|exact C].
      apply registered_after.
      * apply capture_tail_registers in H; [|exact C].
        destruct H as [B K]. split.
        -- intro S. destruct (B S). split; do 3 (apply in_or_app; right); assumption.
        -- intro S. do 3 (apply in_or_app; right). auto.
      * apply in_or_app; right. apply prepare_registered.
    + apply capture_in_bind in H as (a5 & p5 & R5 & -> & H);
        [|destruct (clip options); emits_auto|exact C].
      apply registered_after.
      * apply capture_tail_registers in H; [|exact C].
        destruct H as [B K]. split.
        -- intro S. destruct (B S). split; do 2 (apply in_or_app; right); assumption.
        -- intro S. do 2 (apply in_or_app; right). auto.
      * apply in_or_app; right. apply prepare_registered.
  - unfold screenshotElement_task in H.
    apply capture_in_bind in H as (a1 & p1 & R1 & -> & H); [|emits_auto|exact C].
    apply capture_in_bind in H as (a2 & p2 & R2 & -> & H);
      [|apply originalViewportSize_emits; reflexivity|exact C].
    cbv beta zeta in H.
    apply capture_in_bind in H as (a3 & p3 & R3 & -> & H);
      [|apply prepare_emits; reflexivity|exact C].
    apply capture_in_bind in H as (a4 & p4 & R4 & -> & H); [|emits_auto|exact C].
    apply capture_in_bind in H as (a5 & p5 & R5 & -> & H); [|emits_auto|exact C].
    apply capture_in_bind in H as (a6 & p6 & R6 & -> & H); [|emits_auto|exact C].
    apply capture_in_bind in H as (a7 & p7 & R7 & -> & H); [|emits_auto|exact C].
    rewrite !app_assoc. rewrite <- (app_assoc _ _ p7).
    destruct (handle_boundingBox page) as [box|];
      [|cbn in H; destruct p7; discriminate H].
    apply capture_in_bind in H as (a8 & p8 & R8 & -> & H); [|emits_auto|exact C].
    apply capture_in_bind in H as (a9 & p9 & R9 & -> & H); [|emits_auto|exact C].
    cbv beta zeta in H.
    apply capture_in_bind in H as (a10 & p10 & R10 & -> & H); [|emits_auto|exact C].
    apply capture_in_bind in H as (a11 & p11 & R11 & -> & H); [|emits_auto|exact C].
    apply registered_after.
    + apply capture_tail_registers in H; [|exact C].
      destruct H as [B K]. split.
      * intro S. destruct (B S). split; do 5 (apply in_or_app; right); assumption.
      * intro S. do 5 (apply in_or_app; right). auto.
    + do 3 (apply in_or_app; left). apply in_or_app; right. apply prepare_registered.
Qed.
End RegisteredClaim.

Lemma reversals_registered_before_pixels_witness :
  reversals_registered png
    (masking (omitting_background default_options) [(0, "#ad"%string)])
    [progress_log "taking page screenshot";
     evaluate_freeze 0 true false false;
     cleanupWhenAborted restore_page;
     setBackgroundColor true;
     cleanupWhenAborted default_background;
     resolveFrameForSelectorNoWait 0 "#ad"%string;
     maskSelectors 0 ["#ad"%string];
     cleanupWhenAborted hide_highlight].
Proof.
  apply (@reversals_registered_before_pixels resolving_page
           (page_capture png (masking (omitting_background default_options)
                                      [(0, "#ad"%string)]))
           (initial_world [main_frame])
           [progress_log "taking page screenshot";
            evaluate_freeze 0 true false false;
            cleanupWhenAborted restore_page;
            setBackgroundColor true;
            cleanupWhenAborted default_background;
            resolveFrameForSelectorNoWait 0 "#ad"%string;
            maskSelectors 0 ["#ad"%string];
            cleanupWhenAborted hide_highlight]
           [hideHighlight; setBackgroundColor false; evaluate_restore 0]
           (takeScreenshot png None (Some (Rect.mk 0 0 800 600)) VUndefined true
                           size_device)).
  - vm_compute. reflexivity.
  - reflexivity.
Defined.
